(** * adamantine: material state and property evaluation

    A shallow embedding of the phase-fraction update kernel, the table
    evaluator and the property parser of [MaterialProperty.templates.hh],
    and of the activation loops of [MechanicalPhysics.cc].

    Arithmetic model.  A C++ [double] is modelled by the type [double]
    below: a finite value carries a rational, and the three IEEE-754
    special values are kept, with their IEEE rules: [0/0], [inf - inf]
    and [0 * inf] are NaN, every ordered comparison with NaN is false,
    NaN propagates through [+ - * /].  A non-zero finite value divided
    by zero is the infinity with the sign of the dividend (there is a
    single unsigned zero, and the zero divisor is read as [+0]).

    Two readings of the operations on finite values are used.  The
    operations [+ - * /] of the module [IEEE] are exact: no rounding, no
    overflow.  The theorems stated with them equate what the code stores
    with the expression that the source evaluates, or rest on
    comparisons and on values that binary64 represents exactly.  The
    operations [add64], [sub64], [mul64], [div64] of the module
    [Binary64] round the exact result to the nearest binary64 value,
    ties to even, with gradual underflow and overflow to infinity; the
    statements about the size of the three ratios and about their sum
    are made with them. *)

From Stdlib Require Import QArith Qabs Qpower Qround Lqa List Bool Arith Lia String
  Ascii.
Import ListNotations.

(* ================================================================== *)
(** ** IEEE-style doubles over exact rationals *)

Module IEEE.

Inductive double : Type :=
| Fin (q : Q)
| PInf
| NInf
| NaN.

Definition Qlt_bool (x y : Q) : bool := negb (Qle_bool y x).

(** [a < b] on doubles. *)
Definition dlt (x y : double) : bool :=
  match x, y with
  | NaN, _ | _, NaN => false
  | Fin a, Fin b => Qlt_bool a b
  | NInf, NInf => false
  | NInf, _ => true
  | Fin _, PInf => true
  | _, _ => false
  end.

(** [a <= b] on doubles. *)
Definition dle (x y : double) : bool :=
  match x, y with
  | NaN, _ | _, NaN => false
  | Fin a, Fin b => Qle_bool a b
  | NInf, _ => true
  | _, PInf => true
  | _, _ => false
  end.

(** [a > b]. *)
Definition dgt (x y : double) : bool := dlt y x.

Definition dopp (x : double) : double :=
  match x with
  | Fin a => Fin (- a)
  | PInf => NInf
  | NInf => PInf
  | NaN => NaN
  end.

Definition dadd (x y : double) : double :=
  match x, y with
  | NaN, _ | _, NaN => NaN
  | Fin a, Fin b => Fin (a + b)
  | PInf, NInf | NInf, PInf => NaN
  | PInf, _ | _, PInf => PInf
  | NInf, _ | _, NInf => NInf
  end.

Definition dsub (x y : double) : double := dadd x (dopp y).

(** The infinity that a product or quotient with the finite factor [a]
    yields: [pos] says whether the other operand is positive. *)
Definition signed_inf (pos : bool) (a : Q) : double :=
  if Qlt_bool 0 a then (if pos then PInf else NInf)
  else (if pos then NInf else PInf).

Definition dmul (x y : double) : double :=
  match x, y with
  | NaN, _ | _, NaN => NaN
  | Fin a, Fin b => Fin (a * b)
  | Fin a, PInf | PInf, Fin a => if Qeq_bool a 0 then NaN else signed_inf true a
  | Fin a, NInf | NInf, Fin a => if Qeq_bool a 0 then NaN else signed_inf false a
  | PInf, PInf | NInf, NInf => PInf
  | PInf, NInf | NInf, PInf => NInf
  end.

Definition ddiv (x y : double) : double :=
  match x, y with
  | NaN, _ | _, NaN => NaN
  | Fin a, Fin b =>
      if Qeq_bool b 0
      then (if Qeq_bool a 0 then NaN else signed_inf true a)
      else Fin (a / b)
  | Fin _, PInf | Fin _, NInf => Fin 0
  | PInf, Fin b => if Qlt_bool b 0 then NInf else PInf
  | NInf, Fin b => if Qlt_bool b 0 then PInf else NInf
  | _, _ => NaN
  end.

(** [std::min(a, b)] is [(b < a) ? b : a]; [std::max(a, b)] is
    [(a < b) ? b : a]. *)
Definition std_min (a b : double) : double := if dlt b a then b else a.
Definition std_max (a b : double) : double := if dlt a b then b else a.

(** [std::pow(x, i)] for an unsigned exponent [i]: [pow(x, 0)] is 1 for
    every [x], NaN included. *)
Definition std_pow (x : double) (i : nat) : double :=
  match i with
  | O => Fin 1
  | S _ =>
      match x with
      | Fin a => Fin (a ^ Z.of_nat i)
      | PInf => PInf
      | NInf => if Nat.even i then PInf else NInf
      | NaN => NaN
      end
  end.

(** Two doubles denote the same value. *)
Definition deq (x y : double) : Prop :=
  match x, y with
  | Fin a, Fin b => a == b
  | PInf, PInf | NInf, NInf | NaN, NaN => True
  | _, _ => False
  end.

End IEEE.

Import IEEE.

Declare Scope double_scope.
Delimit Scope double_scope with D.
Infix "=~=" := deq (at level 70, no associativity) : double_scope.
Infix "+" := dadd : double_scope.
Infix "-" := dsub : double_scope.
Infix "*" := dmul : double_scope.
Infix "/" := ddiv : double_scope.
Infix "<?" := dlt (at level 70, no associativity) : double_scope.
Infix "<=?" := dle (at level 70, no associativity) : double_scope.
Infix ">?" := dgt (at level 70, no associativity) : double_scope.

Local Open Scope double_scope.

(* ================================================================== *)
(** ** Memory block views and counted loops *)

(** A [MemoryBlockView] maps an index tuple to the element stored at the
    corresponding offset; a view is modelled by its index function.
    Indices are assumed in range (the C++ accessor does not check). *)
Definition View1 (A : Type) := nat -> A.
Definition View2 := nat -> nat -> double.
Definition View4 := nat -> nat -> nat -> nat -> double.

(** The five-dimensional table block
    [(material, state, property, breakpoint index, 0|1)] with its fourth
    extent, read by [extent(3)]. *)
Record TablesView := {
  tv_data :> nat -> nat -> nat -> nat -> nat -> double;
  extent3 : nat
}.

(** [view(i, j) = x]. *)
Definition set2 (v : View2) (i j : nat) (x : double) : View2 :=
  fun i' j' => if (i' =? i)%nat && (j' =? j)%nat then x else v i' j'.

(** [set_zero] on a two-dimensional block. *)
Definition zero2 : View2 := fun _ _ => Fin 0.

(** [for (unsigned k = i; k < i + count; ++k) a = body(k, a)]. *)
Fixpoint for_loop {A : Type} (count i : nat) (body : nat -> A -> A) (a : A) : A :=
  match count with
  | O => a
  | S c => for_loop c (S i) body (body i a)
  end.

(** [for (unsigned k = lo; k < hi; ++k)]. *)
Definition for_range {A : Type} (lo hi : nat) (body : nat -> A -> A) (a : A) : A :=
  for_loop (hi - lo) lo body a.

(* ================================================================== *)
(** ** Enumerations and compile-time constants

    [types.hh] and [MaterialProperty.hh] are not part of the sources at
    hand; the numeric values of the enumerators used by the kernel
    ([static_cast<unsigned int>(...)]), the enumeration sizes and the
    two capacities are parameters of the development. *)

Record Constants := {
  (* MaterialState *)
  liquid : nat;
  powder : nat;
  solid : nat;
  g_n_material_states : nat;
  (* Property *)
  prop_solidus : nat;
  prop_liquidus : nat;
  latent_heat_prop : nat;
  radiation_temperature_infty_prop : nat;
  (* StateProperty *)
  specific_heat_prop : nat;
  emissivity_prop : nat;
  radiation_heat_transfer_coef_prop : nat;
  g_n_thermal_state_properties : nat;
  (* MaterialProperty *)
  polynomial_order : nat;
  table_size : nat;
  (* Constant::stefan_boltzmann *)
  stefan_boltzmann : double
}.

(** What an [enum class] guarantees: the enumerators of one enumeration
    are pairwise distinct and below its [SIZE]. *)
Definition enums_ok (K : Constants) : bool :=
  negb (liquid K =? powder K)%nat && negb (liquid K =? solid K)%nat &&
  negb (powder K =? solid K)%nat &&
  (liquid K <? g_n_material_states K)%nat &&
  (powder K <? g_n_material_states K)%nat &&
  (solid K <? g_n_material_states K)%nat &&
  negb (specific_heat_prop K =? emissivity_prop K)%nat &&
  negb (specific_heat_prop K =? radiation_heat_transfer_coef_prop K)%nat &&
  negb (emissivity_prop K =? radiation_heat_transfer_coef_prop K)%nat &&
  (specific_heat_prop K <? g_n_thermal_state_properties K)%nat &&
  (emissivity_prop K <? g_n_thermal_state_properties K)%nat &&
  (radiation_heat_transfer_coef_prop K <? g_n_thermal_state_properties K)%nat.

(* ================================================================== *)
(** ** The table evaluator *)

(** The scan [for (; i < size; ++i) if (temperature < bp(i)) break;]:
    [count] is the number of iterations left. *)
Fixpoint scan_table (bp : nat -> double) (temperature : double)
    (count i : nat) : nat :=
  match count with
  | O => i
  | S c => if temperature <? bp i then i
           else scan_table bp temperature c (S i)
  end.

(** [MaterialProperty::compute_property_from_table].  The extent is
    positive in every call (it is [table_size]); [size - 1] and [i - 1]
    are computed on [nat]. *)
Definition compute_property_from_table (state_property_tables_view : TablesView)
    (material_id material_state property : nat) (temperature : double) : double :=
  let view := state_property_tables_view material_id material_state property in
  if temperature <=? view 0%nat 0%nat then view 0%nat 1%nat
  else
    let size := extent3 state_property_tables_view in
    let i := scan_table (fun i => view i 0%nat) temperature size 0 in
    if (size - 1 <=? i)%nat then view (size - 1)%nat 1%nat
    else
      let tempertature_i := view i 0%nat in
      let tempertature_im1 := view (i - 1)%nat 0%nat in
      let property_i := view i 1%nat in
      let property_im1 := view (i - 1)%nat 1%nat in
      property_im1 + (temperature - tempertature_im1) *
                     (property_i - property_im1) /
                     (tempertature_i - tempertature_im1).

(* ================================================================== *)
(** ** The update kernel *)

Section Kernel.

Variable K : Constants.

(** Lines 300-309: the ratio of liquid. *)
Definition liquid_ratio_of (temperature solidus liquidus : double) : double :=
  if temperature <? solidus then Fin 0
  else if temperature >? liquidus then Fin 1
  else (temperature - solidus) / (liquidus - solidus).

(** Accumulation of the thermal properties from index [first] on, over
    the material states, for one degree of freedom: lines 323-357 of
    [update] with [first = 0], lines 433-471 of
    [update_boundary_material_properties] with [first = 3]. *)
Definition accumulate_properties (use_table : bool)
    (state_property_tables_view : TablesView)
    (state_property_polynomials_view : View4)
    (state_view : View2) (material_id dof : nat) (temperature : double)
    (first : nat) (property_values_view : View2) : View2 :=
  if use_table then
    for_range first (g_n_thermal_state_properties K) (fun property pv =>
      for_range 0 (g_n_material_states K) (fun material_state pv =>
        set2 pv property dof
          (pv property dof +
           state_view material_state dof *
           compute_property_from_table state_property_tables_view
             material_id material_state property temperature)) pv)
      property_values_view
  else
    for_range first (g_n_thermal_state_properties K) (fun property pv =>
      for_range 0 (g_n_material_states K) (fun material_state pv =>
        for_range 0 (polynomial_order K + 1) (fun i pv =>
          set2 pv property dof
            (pv property dof +
             state_view material_state dof *
             state_property_polynomials_view material_id material_state
               property i *
             std_pow temperature i)) pv) pv)
      property_values_view.

(** Lines 359-375: the latent-heat modification of rho C_p. *)
Definition mushy_zone_correction (properties_view state_view : View2)
    (material_id dof : nat) (liquid_ratio solidus liquidus : double)
    (property_values_view : View2) : View2 :=
  if (liquid_ratio >? Fin 0) && (liquid_ratio <? Fin 1) then
    for_range 0 (g_n_material_states K) (fun material_state pv =>
      set2 pv (specific_heat_prop K) dof
        (pv (specific_heat_prop K) dof +
         state_view material_state dof *
         properties_view material_id (latent_heat_prop K) /
         (liquidus - solidus))) property_values_view
  else property_values_view.

(** Lines 377-394: the radiation heat transfer coefficient. *)
Definition radiation_coefficient (properties_view : View2)
    (material_id dof : nat) (temperature : double)
    (property_values_view : View2) : View2 :=
  let T := temperature in
  let T_infty := properties_view material_id (radiation_temperature_infty_prop K) in
  let emissivity := property_values_view (emissivity_prop K) dof in
  set2 property_values_view (radiation_heat_transfer_coef_prop K) dof
    (emissivity * stefan_boltzmann K * (T + T_infty) *
     (T * T + T_infty * T_infty)).

(** The body of the [for_each] lambda of [MaterialProperty::update]
    (lines 281-395) for the index [i]; it returns the state view and the
    property-value view after the writes. *)
Definition update_kernel
    (material_ids_view mp_dofs_view : View1 nat)
    (temperature_average_local : View1 double)
    (state_property_polynomials_view : View4)
    (properties_view : View2)
    (state_property_tables_view : TablesView)
    (use_table : bool)
    (i : nat) (views : View2 * View2) : View2 * View2 :=
  let (state_view, property_values_view) := views in
  let material_id := material_ids_view i in
  let solidus := properties_view material_id (prop_solidus K) in
  let liquidus := properties_view material_id (prop_liquidus K) in
  let dof := mp_dofs_view i in
  (* First determine the ratio of liquid. *)
  let liquid_ratio :=
    liquid_ratio_of (temperature_average_local dof) solidus liquidus in
  let powder_ratio :=
    std_min (Fin 1 - liquid_ratio) (state_view (powder K) dof) in
  let solid_ratio := std_max (Fin 1 - liquid_ratio - powder_ratio) (Fin 0) in
  (* Update the value *)
  let state_view := set2 state_view (liquid K) dof liquid_ratio in
  let state_view := set2 state_view (powder K) dof powder_ratio in
  let state_view := set2 state_view (solid K) dof solid_ratio in
  let property_values_view :=
    accumulate_properties use_table state_property_tables_view
      state_property_polynomials_view state_view material_id dof
      (temperature_average_local dof) 0 property_values_view in
  let property_values_view :=
    mushy_zone_correction properties_view state_view material_id dof
      liquid_ratio solidus liquidus property_values_view in
  let property_values_view :=
    radiation_coefficient properties_view material_id dof
      (temperature_average_local dof) property_values_view in
  (state_view, property_values_view).

End Kernel.

(* ================================================================== *)
(** ** The [MaterialProperty] object and its two update entry points *)

(** What the host loops read from a locally owned active cell of
    [_mp_dof_handler]: its material id and its single degree of freedom
    [mp_dof[0]]. *)
Record Cell := {
  cell_material_id : nat;
  cell_mp_dof : nat
}.

(** The members of [MaterialProperty] used by [update].  [_dofs_map] is
    the [std::map] filled by [reinit_dofs]; it is read with [at] on the
    keys [reinit_dofs] inserted, and modelled by its lookup function. *)
Record MaterialProperty := {
  _use_table : bool;
  _dofs_map : nat -> nat;
  _state : View2;
  _property_values : View2;
  _properties : View2;
  _state_property_tables : TablesView;
  _state_property_polynomials : View4
}.

(** The vector [mp_dofs] that the host loops build: the offset
    [_dofs_map.at(mp_dof[0])] of every locally owned cell.  [reinit_dofs]
    gives distinct cells distinct offsets. *)
Definition mp_dofs_of (mp : MaterialProperty) (cells : list Cell) : list nat :=
  map (fun cell => _dofs_map mp (cell_mp_dof cell)) cells.

Section Update.

Variable K : Constants.

(** [for_each(MemorySpaceType{}, n, f)]: [f(i)] for every [i < n].  The
    iterations are run in increasing order. *)
Definition for_each {A : Type} (n : nat) (f : nat -> A -> A) (a : A) : A :=
  for_range 0 n f a.

(** [MaterialProperty::update].  [temperature_average] is the vector
    returned by [compute_average_temperature], a quadrature over the
    cells that is computed outside of this kernel. *)
Definition update (mp : MaterialProperty) (cells : list Cell)
    (temperature_average : View1 double) : MaterialProperty :=
  let property_values := zero2 in
  let mp_dofs := mp_dofs_of mp cells in
  let material_ids := map cell_material_id cells in
  let material_ids_size := List.length material_ids in
  let material_ids_view := fun i => nth i material_ids 0%nat in
  let mp_dofs_view := fun i => nth i mp_dofs 0%nat in
  let views :=
    for_each material_ids_size
      (update_kernel K material_ids_view mp_dofs_view temperature_average
         (_state_property_polynomials mp) (_properties mp)
         (_state_property_tables mp) (_use_table mp))
      (_state mp, property_values) in
  {| _use_table := _use_table mp;
     _dofs_map := _dofs_map mp;
     _state := fst views;
     _property_values := snd views;
     _properties := _properties mp;
     _state_property_tables := _state_property_tables mp;
     _state_property_polynomials := _state_property_polynomials mp |}.

(** [MaterialProperty::update_boundary_material_properties]: the loop
    over the locally owned cells accumulates the properties from index 3
    on and derives the radiation coefficient. *)
Definition update_boundary_material_properties (mp : MaterialProperty)
    (cells : list Cell) (temperature_average : View1 double)
    : MaterialProperty :=
  let property_values := zero2 in
  let property_values :=
    fold_left (fun property_values_view cell =>
      let material_id := cell_material_id cell in
      let dof := _dofs_map mp (cell_mp_dof cell) in
      let property_values_view :=
        accumulate_properties K (_use_table mp) (_state_property_tables mp)
          (_state_property_polynomials mp) (_state mp) material_id dof
          (temperature_average dof) 3 property_values_view in
      radiation_coefficient K (_properties mp) material_id dof
        (temperature_average dof) property_values_view)
      cells property_values in
  {| _use_table := _use_table mp;
     _dofs_map := _dofs_map mp;
     _state := _state mp;
     _property_values := property_values;
     _properties := _properties mp;
     _state_property_tables := _state_property_tables mp;
     _state_property_polynomials := _state_property_polynomials mp |}.

(** A sequence of [update] calls on the same mesh, one averaged
    temperature field per call. *)
Definition update_sequence (mp : MaterialProperty) (cells : list Cell)
    (temperatures : list (View1 double)) : MaterialProperty :=
  fold_left (fun mp temperature_average => update mp cells temperature_average)
    temperatures mp.

End Update.

(* ================================================================== *)
(** ** Activation of the mechanical cells ([MechanicalPhysics.cc]) *)

(** What the activation loops read from a locally owned cell: the solid
    ratio returned by [get_state_ratio(cell, MaterialState::solid)] and
    the active FE index of the thermal cell at the same level and
    index. *)
Record MechanicalCell := {
  solid_state_ratio : double;
  thermal_active_fe_index : nat
}.

(** The loop of the constructor (lines 41-53): the new active FE index
    of each cell. *)
Definition constructor_active_fe_indices (cells : list MechanicalCell) : list nat :=
  map (fun cell =>
         if solid_state_ratio cell >? Fin (99 # 100) then 0%nat else 1%nat)
      cells.

(** The loop of [setup_dofs] (lines 98-115). *)
Definition setup_dofs_active_fe_indices (cells : list MechanicalCell) : list nat :=
  map (fun cell =>
         if solid_state_ratio cell >? Fin (99 # 100)
         then thermal_active_fe_index cell
         else 1%nat)
      cells.

(** The two activation passes. *)
Inductive ActivationPass := Construction | SetupDofs.

Definition active_fe_indices (pass : ActivationPass)
    (cells : list MechanicalCell) : list nat :=
  match pass with
  | Construction => constructor_active_fe_indices cells
  | SetupDofs => setup_dofs_active_fe_indices cells
  end.

(* ================================================================== *)
(** ** Reading one state property ([fill_properties], lines 836-929) *)

Definition View3 := nat -> nat -> nat -> double.

Definition set3 (v : View3) (a b c : nat) (x : double) : View3 :=
  fun a' b' c' =>
    if (a' =? a)%nat && (b' =? b)%nat && (c' =? c)%nat then x else v a' b' c'.

Definition set4 (v : View4) (a b c d : nat) (x : double) : View4 :=
  fun a' b' c' d' =>
    if (a' =? a)%nat && (b' =? b)%nat && (c' =? c)%nat && (d' =? d)%nat
    then x else v a' b' c' d'.

Definition set5 (v : TablesView) (a b c d e : nat) (x : double) : TablesView :=
  {| tv_data := fun a' b' c' d' e' =>
       if (a' =? a)%nat && (b' =? b)%nat && (c' =? c)%nat && (d' =? d)%nat
          && (e' =? e)%nat
       then x else v a' b' c' d' e';
     extent3 := extent3 v |}.

(** The four host blocks that the state-property loop fills. *)
Record HostBlocks := {
  state_property_tables_host : TablesView;
  mechanical_properties_tables_host : View4;
  state_property_polynomials_host : View4;
  mechanical_properties_polynomials_host : View3
}.

(** The outcome of code that may throw. *)
Inductive result (A : Type) : Type :=
| Ok (a : A)
| Throw (what : string).
Arguments Ok {A} a.
Arguments Throw {A} what.

(** [std::isspace] in the "C" locale. *)
Definition isspace (x : ascii) : bool :=
  let n := nat_of_ascii x in
  (n =? 32)%nat || ((9 <=? n)%nat && (n <=? 13)%nat).

(** The erase-remove idiom with [std::isspace]. *)
Fixpoint remove_spaces (s : string) : string :=
  match s with
  | EmptyString => EmptyString
  | String c rest =>
      if isspace c then remove_spaces rest else String c (remove_spaces rest)
  end.

(** [boost::split(result, s, [](char c) { return c == sep; })]: adjacent
    separators are not merged, an empty input yields one empty token. *)
Fixpoint split (sep : ascii) (s : string) : list string :=
  match s with
  | EmptyString => [EmptyString]
  | String c rest =>
      if Ascii.eqb c sep then EmptyString :: split sep rest
      else match split sep rest with
           | token :: tokens => String c token :: tokens
           | [] => [String c EmptyString]
           end
  end.

Section FillProperties.

Variable K : Constants.

(** [std::stod]: [None] when it throws. *)
Variable stod : string -> option double.

(** [ASSERT_THROW(cond, message)]. *)
Definition ASSERT_THROW {A : Type} (cond : bool) (message : string)
    (k : result A) : result A :=
  if cond then k else Throw message.

(** [ASSERT(cond, message)], as compiled in a debug build. *)
Definition ASSERT {A : Type} (cond : bool) (message : string)
    (k : result A) : result A :=
  if cond then k else Throw message.

(** The assignment of one parsed table number, lines 856-874. *)
Definition store_table_entry (material_id state p i column : nat) (x : double)
    (blocks : HostBlocks) : HostBlocks :=
  if (p <? g_n_thermal_state_properties K)%nat then
    {| state_property_tables_host :=
         set5 (state_property_tables_host blocks) material_id state p i column x;
       mechanical_properties_tables_host := mechanical_properties_tables_host blocks;
       state_property_polynomials_host := state_property_polynomials_host blocks;
       mechanical_properties_polynomials_host :=
         mechanical_properties_polynomials_host blocks |}
  else if (state =? solid K)%nat then
    {| state_property_tables_host := state_property_tables_host blocks;
       mechanical_properties_tables_host :=
         set4 (mechanical_properties_tables_host blocks) material_id
           (p - g_n_thermal_state_properties K) i column x;
       state_property_polynomials_host := state_property_polynomials_host blocks;
       mechanical_properties_polynomials_host :=
         mechanical_properties_polynomials_host blocks |}
  else blocks.

(** The element read back when the rest of a table is filled. *)
Definition load_table_entry (material_id state p i column : nat)
    (blocks : HostBlocks) : double :=
  if (p <? g_n_thermal_state_properties K)%nat
  then state_property_tables_host blocks material_id state p i column
  else mechanical_properties_tables_host blocks material_id
         (p - g_n_thermal_state_properties K)%nat i column.

(** The loop over the parsed pairs, lines 850-875; [i] is the index of
    the first pair of [parsed_property].  [std::stod] is called in the
    two branches that store, that of a thermal property and that of a
    mechanical property of the solid state; [store_table_entry] selects
    the block.  For a mechanical property of another state the two
    fields are not read. *)
Fixpoint fill_table_pairs (material_id state p : nat)
    (parsed_property : list string) (i : nat) (blocks : HostBlocks)
    : result HostBlocks :=
  match parsed_property with
  | [] => Ok blocks
  | entry :: rest =>
      let t_v := split "," entry in
      ASSERT (List.length t_v =? 2)%nat "Error reading material property."
        (if (p <? g_n_thermal_state_properties K)%nat
            || (state =? solid K)%nat
         then
           match stod (nth 0 t_v EmptyString), stod (nth 1 t_v EmptyString) with
           | Some t, Some v =>
               let blocks := store_table_entry material_id state p i 0 t blocks in
               let blocks := store_table_entry material_id state p i 1 v blocks in
               fill_table_pairs material_id state p rest (S i) blocks
           | _, _ => Throw "stod"
           end
         else fill_table_pairs material_id state p rest (S i) blocks)
  end.

(** The loop over the parsed coefficients, lines 915-928. *)
Fixpoint fill_polynomial_coefficients (material_id state p : nat)
    (parsed_property : list string) (i : nat) (blocks : HostBlocks)
    : result HostBlocks :=
  match parsed_property with
  | [] => Ok blocks
  | coefficient :: rest =>
      match stod coefficient with
      | Some c =>
          let blocks :=
            if (p <? g_n_thermal_state_properties K)%nat then
              {| state_property_tables_host := state_property_tables_host blocks;
                 mechanical_properties_tables_host :=
                   mechanical_properties_tables_host blocks;
                 state_property_polynomials_host :=
                   set4 (state_property_polynomials_host blocks) material_id
                     state p i c;
                 mechanical_properties_polynomials_host :=
                   mechanical_properties_polynomials_host blocks |}
            else
              {| state_property_tables_host := state_property_tables_host blocks;
                 mechanical_properties_tables_host :=
                   mechanical_properties_tables_host blocks;
                 state_property_polynomials_host :=
                   state_property_polynomials_host blocks;
                 mechanical_properties_polynomials_host :=
                   set3 (mechanical_properties_polynomials_host blocks)
                     material_id (p - g_n_thermal_state_properties K) i c |} in
          fill_polynomial_coefficients material_id state p rest (S i) blocks
      | None => Throw "stod"
      end
  end.

(** The body of [if (property)] for the property [p] of the state
    [state] of the material [material_id], lines 836-929. *)
Definition read_state_property (use_table : bool) (material_id state p : nat)
    (property : string) (blocks : HostBlocks) : result HostBlocks :=
  (* Remove blank spaces *)
  let property_string := remove_spaces property in
  if use_table then
    let parsed_property := split ";" property_string in
    let parsed_property_size := List.length parsed_property in
    ASSERT_THROW (parsed_property_size <=? table_size K)%nat
      "Too many coefficients, increase the table size"
      (match fill_table_pairs material_id state p parsed_property 0 blocks with
       | Throw what => Throw what
       | Ok blocks =>
           (* fill the rest with the last value *)
           Ok (for_range parsed_property_size (table_size K) (fun i blocks =>
                 let blocks :=
                   store_table_entry material_id state p i 0
                     (load_table_entry material_id state p (i - 1) 0 blocks)
                     blocks in
                 store_table_entry material_id state p i 1
                   (load_table_entry material_id state p (i - 1) 1 blocks)
                   blocks) blocks)
       end)
  else
    let parsed_property := split "," property_string in
    let parsed_property_size := List.length parsed_property in
    ASSERT_THROW (parsed_property_size <=? polynomial_order K)%nat
      "Too many coefficients, increase the polynomial order"
      (fill_polynomial_coefficients material_id state p parsed_property 0 blocks).

End FillProperties.

(** The blocks as [fill_properties] allocates them: [set_zero] on each,
    the table block with [table_size] as fourth extent. *)
Definition zero_blocks (K : Constants) : HostBlocks :=
  {| state_property_tables_host :=
       {| tv_data := fun _ _ _ _ _ => Fin 0; extent3 := table_size K |};
     mechanical_properties_tables_host := fun _ _ _ _ => Fin 0;
     state_property_polynomials_host := fun _ _ _ _ => Fin 0;
     mechanical_properties_polynomials_host := fun _ _ _ => Fin 0 |}.

(* ================================================================== *)
(** ** The per-unit algorithm in the words of the specification

    The specification describes [update] unit by unit (its steps 2 to
    8).  The definitions of this section follow that description; the
    theorems below compare them with the kernel. *)

(** Step 2 on finite values, with the non-strict comparisons of the
    specification. *)
Definition liquid_ratio_spec (T Ts Tl : Q) : Q :=
  if Qle_bool T Ts then 0%Q
  else if Qle_bool Tl T then 1%Q
  else ((T - Ts) / (Tl - Ts))%Q.

(** Step 6: the sum over the material states of
    [fraction[state] * evaluate(curve[state][property], T)], added to
    [init] state after state. *)
Definition blended_property (K : Constants) (use_table : bool)
    (tables : TablesView) (polynomials : View4) (fraction : nat -> double)
    (material_id property : nat) (T : double) (init : double) : double :=
  if use_table then
    for_range 0 (g_n_material_states K) (fun state acc =>
      acc + fraction state *
            compute_property_from_table tables material_id state property T)
      init
  else
    for_range 0 (g_n_material_states K) (fun state acc =>
      for_range 0 (polynomial_order K + 1) (fun i acc =>
        acc + fraction state * polynomials material_id state property i *
              std_pow T i) acc)
      init.

(** Step 7: the sum over the material states of
    [fraction[state] * latent_heat / (Tl - Ts)], added to [init]. *)
Definition latent_heat_sum (K : Constants) (fraction : nat -> double)
    (latent_heat solidus liquidus : double) (init : double) : double :=
  for_range 0 (g_n_material_states K) (fun state acc =>
    acc + fraction state * latent_heat / (liquidus - solidus)) init.

(** The table evaluator of section 4.3: the first index [i] below the
    capacity with [T < breakpoint[i]], if any. *)
Definition first_index_above (view : nat -> nat -> double) (size : nat)
    (T : double) : option nat :=
  find (fun i => T <? view i 0%nat) (seq 0 size).

Definition table_evaluator_spec (view : nat -> nat -> double) (size : nat)
    (T : double) : double :=
  if T <=? view 0%nat 0%nat then view 0%nat 1%nat
  else
    match first_index_above view size T with
    | None => view (size - 1)%nat 1%nat
    | Some i =>
        if (i =? size - 1)%nat then view (size - 1)%nat 1%nat
        else view (i - 1)%nat 1%nat +
             (T - view (i - 1)%nat 0%nat) *
             (view i 1%nat - view (i - 1)%nat 1%nat) /
             (view i 0%nat - view (i - 1)%nat 0%nat)
    end.

(* ================================================================== *)
(** ** A sample configuration

    The enumerators in the order [powder, solid, liquid],
    [liquidus, solidus, latent_heat, radiation_temperature_infty] and
    [density, specific_heat, thermal_conductivity_x,
    thermal_conductivity_z, emissivity, radiation_heat_transfer_coef,
    convection_heat_transfer_coef], with a capacity of four breakpoints
    and polynomials of order four.  It is used to run the model on
    concrete inputs. *)

Definition sample_constants : Constants :=
  {| liquid := 2; powder := 0; solid := 1; g_n_material_states := 3;
     prop_solidus := 1; prop_liquidus := 0; latent_heat_prop := 2;
     radiation_temperature_infty_prop := 3;
     specific_heat_prop := 1; emissivity_prop := 4;
     radiation_heat_transfer_coef_prop := 5;
     g_n_thermal_state_properties := 7;
     polynomial_order := 4; table_size := 4;
     stefan_boltzmann := Fin (5670374419 # 100000000000000000) |}.

(** A reader for unsigned decimal integers, the part of [std::stod]
    that the sample inputs need. *)
Definition digit_of (c : ascii) : option Z :=
  let n := nat_of_ascii c in
  if (48 <=? n)%nat && (n <=? 57)%nat then Some (Z.of_nat (n - 48)) else None.

Fixpoint read_digits (s : string) (acc : Z) : option Z :=
  match s with
  | EmptyString => Some acc
  | String c rest =>
      match digit_of c with
      | Some d => read_digits rest (10 * acc + d)%Z
      | None => None
      end
  end.

Definition stod_decimal (s : string) : option double :=
  match s with
  | EmptyString => None
  | _ => option_map (fun z => Fin (inject_Z z)) (read_digits s 0%Z)
  end.

(** One material: solidus 1000, liquidus 1100, latent heat 500,
    ambient temperature 300. *)
Definition sample_properties : View2 :=
  fun material_id property =>
    match property with
    | 0%nat => Fin 1100
    | 1%nat => Fin 1000
    | 2%nat => Fin 500
    | _ => Fin 300
    end.

(** A material whose solidus and liquidus are both 1000. *)
Definition degenerate_properties : View2 :=
  fun material_id property =>
    match property with
    | 0%nat => Fin 1000
    | 1%nat => Fin 1000
    | 2%nat => Fin 500
    | _ => Fin 300
    end.

(** The table block in which every curve is the one that
    [read_state_property] reads from [spec]. *)
Definition tables_of_spec (spec : string) : TablesView :=
  match read_state_property sample_constants stod_decimal true 0 0 0 spec
          (zero_blocks sample_constants) with
  | Ok blocks =>
      {| tv_data := fun material_id state property =>
           state_property_tables_host blocks 0%nat 0%nat 0%nat;
         extent3 := extent3 (state_property_tables_host blocks) |}
  | Throw _ => {| tv_data := fun _ _ _ _ _ => NaN; extent3 := 0 |}
  end.

(** Three pairs in a block of capacity four: the last pair is
    repeated. *)
Definition sample_tables : TablesView := tables_of_spec "0,10; 100,20; 200,20".

(** Four pairs, which fill the capacity. *)
Definition full_tables : TablesView :=
  tables_of_spec "0,10;100,20;200,30;300,40".

(** The state set by [set_initial_state] for user index [state]: that
    ratio is one, the others are zero. *)
Definition initial_state (user_index : nat -> nat) : View2 :=
  fun state dof => if (state =? user_index dof)%nat then Fin 1 else Fin 0.

Definition sample_material_property (properties : View2)
    (user_index : nat -> nat) : MaterialProperty :=
  {| _use_table := true;
     _dofs_map := fun mp_dof => mp_dof;
     _state := initial_state user_index;
     _property_values := zero2;
     _properties := properties;
     _state_property_tables := sample_tables;
     _state_property_polynomials := fun _ _ _ _ => Fin 0 |}.

Definition sample_cells : list Cell :=
  [ {| cell_material_id := 0; cell_mp_dof := 0 |};
    {| cell_material_id := 0; cell_mp_dof := 1 |} ].

(** Steps 2 to 5 for one unit: the three ratios written by the kernel,
    as a function of the state index; [previous] is the column of the
    state block of that unit before the call. *)
Definition unit_fractions (K : Constants) (previous : nat -> double)
    (T solidus liquidus : double) (state : nat) : double :=
  let liquid_ratio := liquid_ratio_of T solidus liquidus in
  let powder_ratio := std_min (Fin 1 - liquid_ratio) (previous (powder K)) in
  let solid_ratio := std_max (Fin 1 - liquid_ratio - powder_ratio) (Fin 0) in
  if (state =? solid K)%nat then solid_ratio
  else if (state =? powder K)%nat then powder_ratio
  else if (state =? liquid K)%nat then liquid_ratio
  else previous state.

(** Steps 6 to 8 for one unit: the property values, as a function of
    the property index.  [first] is the first property accumulated,
    [mushy] tells whether step 7 applies, [init] is the column of the
    property block of that unit before the accumulation. *)
Definition unit_property_values (K : Constants) (use_table : bool)
    (tables : TablesView) (polynomials : View4) (properties : View2)
    (fraction : nat -> double) (material_id : nat) (T : double)
    (first : nat) (mushy : bool) (init : nat -> double) (property : nat)
    : double :=
  let solidus := properties material_id (prop_solidus K) in
  let liquidus := properties material_id (prop_liquidus K) in
  let latent_heat := properties material_id (latent_heat_prop K) in
  let T_infty := properties material_id (radiation_temperature_infty_prop K) in
  let blended p :=
    if (first <=? p)%nat && (p <? g_n_thermal_state_properties K)%nat
    then blended_property K use_table tables polynomials fraction
           material_id p T (init p)
    else init p in
  let corrected p :=
    if mushy && (p =? specific_heat_prop K)%nat
    then latent_heat_sum K fraction latent_heat solidus liquidus (blended p)
    else blended p in
  if (property =? radiation_heat_transfer_coef_prop K)%nat
  then corrected (emissivity_prop K) * stefan_boltzmann K * (T + T_infty) *
       (T * T + T_infty * T_infty)
  else corrected property.

(** Whether the kernel takes the mushy-zone branch. *)
Definition in_mushy_zone (liquid_ratio : double) : bool :=
  (liquid_ratio >? Fin 0) && (liquid_ratio <? Fin 1).

From Stdlib Require Import Permutation.

(* ================================================================== *)
(** ** Binary64 arithmetic

    The operations of [IEEE] followed by rounding to the nearest
    binary64 value, ties to even: 53 bits of precision, subnormal
    values down to [2^-1074], overflow to an infinity from [2^1024] on.
    Zero has no sign. *)

Module Binary64.

(** The integer [k] with [2^k <= a < 2^(k+1)], for a positive [a]. *)
Definition Qlog2 (a : Q) : Z :=
  let k := (Z.log2 (Qnum a) - Z.log2 (Zpos (Qden a)))%Z in
  if Qle_bool (2 ^ k)%Q a then k else (k - 1)%Z.

(** Rounding to the nearest integer, ties to even. *)
Definition rne (m : Q) : Z :=
  let f := Qfloor m in
  match Qcompare (m - inject_Z f)%Q (1 # 2)%Q with
  | Lt => f
  | Gt => (f + 1)%Z
  | Eq => if Z.even f then f else (f + 1)%Z
  end.

(** The exponent of the last place of a positive [a]. *)
Definition expo (a : Q) : Z := Z.max (Qlog2 a - 52) (-1074).

(** A positive [a] rounded to a multiple of [2^(expo a)]. *)
Definition round_abs (a : Q) : Q :=
  (inject_Z (rne (a / 2 ^ expo a)) * 2 ^ expo a)%Q.

Definition round64 (q : Q) : double :=
  if Qeq_bool q 0 then Fin 0
  else
    let r := round_abs (Qabs q) in
    if Qle_bool (2 ^ 1024)%Q r then (if Qlt_bool 0 q then PInf else NInf)
    else Fin (if Qlt_bool 0 q then r else (- r)%Q).

(** The rounding of the result of an operation. *)
Definition rnd (x : double) : double :=
  match x with
  | Fin q => round64 q
  | _ => x
  end.

Definition add64 (x y : double) : double := rnd (x + y).
Definition sub64 (x y : double) : double := rnd (x - y).
Definition mul64 (x y : double) : double := rnd (x * y).
Definition div64 (x y : double) : double := rnd (x / y).

End Binary64.

Import Binary64.

(* ================================================================== *)
(** ** The state written by the update kernel, in binary64 *)

Section Kernel64.

Variable K : Constants.

(** Lines 300-309: the ratio of liquid. *)
Definition liquid_ratio_of64 (temperature solidus liquidus : double) : double :=
  if temperature <? solidus then Fin 0
  else if temperature >? liquidus then Fin 1
  else div64 (sub64 temperature solidus) (sub64 liquidus solidus).

(** Lines 294-321 of the [for_each] lambda of [MaterialProperty::update]
    for the index [i]: the three ratios and their assignment.  The
    property values, computed afterwards from the new state, are not
    part of this definition. *)
Definition update_state_kernel64
    (material_ids_view mp_dofs_view : View1 nat)
    (temperature_average_local : View1 double)
    (properties_view : View2)
    (i : nat) (state_view : View2) : View2 :=
  let material_id := material_ids_view i in
  let solidus := properties_view material_id (prop_solidus K) in
  let liquidus := properties_view material_id (prop_liquidus K) in
  let dof := mp_dofs_view i in
  (* First determine the ratio of liquid. *)
  let liquid_ratio :=
    liquid_ratio_of64 (temperature_average_local dof) solidus liquidus in
  let powder_ratio :=
    std_min (sub64 (Fin 1) liquid_ratio) (state_view (powder K) dof) in
  let solid_ratio :=
    std_max (sub64 (sub64 (Fin 1) liquid_ratio) powder_ratio) (Fin 0) in
  (* Update the value *)
  let state_view := set2 state_view (liquid K) dof liquid_ratio in
  let state_view := set2 state_view (powder K) dof powder_ratio in
  let state_view := set2 state_view (solid K) dof solid_ratio in
  state_view.

(** The state after [MaterialProperty::update], started from [state]. *)
Definition update_state64 (mp : MaterialProperty) (cells : list Cell)
    (temperature_average : View1 double) (state : View2) : View2 :=
  let mp_dofs := mp_dofs_of mp cells in
  let material_ids := map cell_material_id cells in
  let material_ids_size := List.length material_ids in
  let material_ids_view := fun i => nth i material_ids 0%nat in
  let mp_dofs_view := fun i => nth i mp_dofs 0%nat in
  for_each material_ids_size
    (update_state_kernel64 material_ids_view mp_dofs_view temperature_average
       (_properties mp))
    state.

(** The state after a sequence of [update] calls on the same mesh, one
    averaged temperature field per call. *)
Definition update_sequence_state64 (mp : MaterialProperty)
    (cells : list Cell) (temperatures : list (View1 double)) : View2 :=
  fold_left (fun state temperature_average =>
               update_state64 mp cells temperature_average state)
    temperatures (_state mp).

End Kernel64.

(** The three ratios of the unit [dof] are numbers of [0, 1] whose sum
    differs from 1 by at most [tolerance]. *)
Definition fractions_within (K : Constants) (state : View2) (dof : nat)
    (tolerance : Q) : Prop :=
  exists l p s : Q,
    state (liquid K) dof = Fin l /\ state (powder K) dof = Fin p /\
    state (solid K) dof = Fin s /\
    (0 <= l <= 1 /\ 0 <= p <= 1 /\ 0 <= s <= 1 /\
     - tolerance <= l + p + s - 1 <= tolerance)%Q.

(* ================================================================== *)
(** ** The index of the locally owned cells ([reinit_dofs]) *)

(** The [std::map] from a degree of freedom of [_mp_dof_handler] to
    its offset: [None] for a key that is not in the map. *)
Definition DofsMap := nat -> option nat.

(** [m.clear()]. *)
Definition dofs_map_empty : DofsMap := fun _ => None.

(** [m[key] = value]. *)
Definition dofs_map_assign (m : DofsMap) (key value : nat) : DofsMap :=
  fun k => if (k =? key)%nat then Some value else m k.

(** [MaterialProperty::reinit_dofs], lines 205-216: the counter [i] and
    the map after the loop over the locally owned cells.  The
    reallocation of [_state] that follows changes the extents of the
    block, which the views of this development do not carry. *)
Definition reinit_dofs (cells : list Cell) : nat * DofsMap :=
  fold_left (fun (acc : nat * DofsMap) cell =>
               let (i, dofs_map) := acc in
               (S i, dofs_map_assign dofs_map (cell_mp_dof cell) i))
            cells (0%nat, dofs_map_empty).

(** The reads [_dofs_map.at(key)] of the other members, on a key that
    [reinit_dofs] inserted ([at] throws on any other key). *)
Definition dofs_map_at (m : DofsMap) (key : nat) : nat :=
  match m key with
  | Some offset => offset
  | None => 0%nat
  end.

(* ================================================================== *)
(** ** The initial state ([set_initial_state]) *)

(** [MaterialProperty::set_initial_state]; [user_index] is
    [cell->user_index()]. *)
Definition set_initial_state (mp : MaterialProperty) (cells : list Cell)
    (user_index : Cell -> nat) : MaterialProperty :=
  let mp_dofs := mp_dofs_of mp cells in
  let user_indices := map user_index cells in
  let mp_dofs_view := fun i => nth i mp_dofs 0%nat in
  let user_indices_view := fun i => nth i user_indices 0%nat in
  let state_view :=
    for_each (List.length user_indices)
      (fun i state_view =>
         set2 state_view (user_indices_view i) (mp_dofs_view i) (Fin 1))
      zero2 in
  {| _use_table := _use_table mp;
     _dofs_map := _dofs_map mp;
     _state := state_view;
     _property_values := _property_values mp;
     _properties := _properties mp;
     _state_property_tables := _state_property_tables mp;
     _state_property_polynomials := _state_property_polynomials mp |}.

(* ================================================================== *)
(** ** The state computed by the matrix-free operator ([set_state]) *)

(** The conversion of an [unsigned int] to [double]. *)
Definition double_of_unsigned (n : nat) : double :=
  Fin (inject_Z (Z.of_nat n)).

(** [MaterialProperty::set_state], lines 594-632, in binary64
    arithmetic.  [liquid_ratio] and [powder_ratio] are the tables
    indexed by cell batch, quadrature point and lane;
    [cell_it_to_mf_cell_map] gives the batch and the lane of a cell;
    [get_dof_index], declared in [MaterialProperty.hh], gives its
    offset; [tensor_degree] is [dof_handler.get_fe().tensor_degree()]. *)
Definition set_state (K : Constants) (mp : MaterialProperty)
    (liquid_ratio powder_ratio : nat -> nat -> nat -> double)
    (cell_it_to_mf_cell_map : Cell -> nat * nat)
    (get_dof_index : Cell -> nat) (tensor_degree : nat)
    (cells : list Cell) : MaterialProperty :=
  let powder_state := powder K in
  let liquid_state := liquid K in
  let solid_state := solid K in
  let state_view :=
    fold_left (fun state_view cell =>
      let mp_dof_index := get_dof_index cell in
      let mf_cell_vector := cell_it_to_mf_cell_map cell in
      let n_q_points := (tensor_degree + 1)%nat in
      let sums :=
        for_range 0 n_q_points (fun q (sums : double * double) =>
          let (liquid_ratio_sum, powder_ratio_sum) := sums in
          (add64 liquid_ratio_sum
             (liquid_ratio (fst mf_cell_vector) q (snd mf_cell_vector)),
           add64 powder_ratio_sum
             (powder_ratio (fst mf_cell_vector) q (snd mf_cell_vector))))
          (Fin 0, Fin 0) in
      let state_view :=
        set2 state_view liquid_state mp_dof_index
          (div64 (fst sums) (double_of_unsigned n_q_points)) in
      let state_view :=
        set2 state_view powder_state mp_dof_index
          (div64 (snd sums) (double_of_unsigned n_q_points)) in
      set2 state_view solid_state mp_dof_index
        (std_max (sub64 (sub64 (Fin 1) (state_view liquid_state mp_dof_index))
                    (state_view powder_state mp_dof_index)) (Fin 0)))
      cells (_state mp) in
  {| _use_table := _use_table mp;
     _dofs_map := _dofs_map mp;
     _state := state_view;
     _property_values := _property_values mp;
     _properties := _properties mp;
     _state_property_tables := _state_property_tables mp;
     _state_property_polynomials := _state_property_polynomials mp |}.

(* ================================================================== *)
(** ** Evaluation of one property ([compute_material_property]) *)

(** The scalar [MaterialProperty::compute_material_property], lines
    548-592; [property_index] is the cast of the state property. *)
Definition compute_material_property (K : Constants) (mp : MaterialProperty)
    (property_index material_id : nat) (state_ratios : nat -> double)
    (temperature : double) : double :=
  let value := Fin 0 in
  if _use_table mp then
    for_range 0 (g_n_material_states K) (fun material_state value =>
      let m_id := material_id in
      value + state_ratios material_state *
              compute_property_from_table (_state_property_tables mp) m_id
                material_state property_index temperature) value
  else
    for_range 0 (g_n_material_states K) (fun material_state value =>
      let m_id := material_id in
      for_range 0 (polynomial_order K + 1) (fun i value =>
        value + state_ratios material_state *
                _state_property_polynomials mp m_id material_state
                  property_index i *
                std_pow temperature i) value) value.

(** [value[n] = x] on a [VectorizedArray]. *)
Definition set1 {A : Type} (v : nat -> A) (n : nat) (x : A) : nat -> A :=
  fun n' => if (n' =? n)%nat then x else v n'.

(** The vectorized [MaterialProperty::compute_material_property], lines
    493-546.  A [VectorizedArray<double>] is the function of its lane;
    [n_lanes] is [VectorizedArray<double>::size()];
    [temperature_powers i] holds the [i]-th powers of the lanes of
    [temperature]. *)
Definition compute_material_property_vectorized (K : Constants)
    (mp : MaterialProperty) (n_lanes : nat) (property_index : nat)
    (material_id : nat -> nat) (state_ratios : nat -> nat -> double)
    (temperature : nat -> double) (temperature_powers : nat -> nat -> double)
    : nat -> double :=
  let value : nat -> double := fun _ => Fin 0 in
  if _use_table mp then
    for_range 0 (g_n_material_states K) (fun material_state value =>
      for_range 0 n_lanes (fun n value =>
        let m_id := material_id n in
        set1 value n
          (value n +
           state_ratios material_state n *
           compute_property_from_table (_state_property_tables mp) m_id
             material_state property_index (temperature n))) value) value
  else
    for_range 0 (g_n_material_states K) (fun material_state value =>
      for_range 0 n_lanes (fun n value =>
        let m_id := material_id n in
        for_range 0 (polynomial_order K + 1) (fun i value =>
          set1 value n
            (value n +
             state_ratios material_state n *
             _state_property_polynomials mp m_id material_state
               property_index i *
             temperature_powers i n)) value) value) value.

(* ================================================================== *)
(** ** The averaged temperature ([internal::compute_average]) *)

(** What the loop reads from a pair of cells ([mp_cell], [enth_cell]) of
    the two DoF handlers: whether the cell is locally owned, the active
    FE index of the temperature cell, the degree of freedom
    [mp_dof_indices[0]], the degrees of freedom of the temperature cell,
    and the shape values and weights of [fe_values].  The assertion of
    the loop makes the two cells agree on the ownership, hence the one
    field. *)
Record AverageCell := {
  is_locally_owned : bool;
  active_fe_index : nat;
  mp_dof_index : nat;
  enth_dof_indices : nat -> nat;
  shape_value : nat -> nat -> double;
  JxW : nat -> double
}.

(** [internal::compute_average] on the host, lines 38-77. *)
Definition compute_average (n_q_points dofs_per_cell : nat)
    (cells : list AverageCell) (temperature : nat -> double)
    (temperature_average : nat -> double) : nat -> double :=
  fold_left (fun temperature_average cell =>
    if is_locally_owned cell && (active_fe_index cell =? 0)%nat then
      let mp_dof_index := mp_dof_index cell in
      let volume := Fin 0 in
      let sums :=
        for_range 0 n_q_points (fun q sums =>
          for_range 0 dofs_per_cell
            (fun i (sums : double * (nat -> double)) =>
               let (volume, temperature_average) := sums in
               (volume + shape_value cell i q * JxW cell q,
                set1 temperature_average mp_dof_index
                  (temperature_average mp_dof_index +
                   shape_value cell i q *
                   temperature (enth_dof_indices cell i) * JxW cell q)))
            sums)
          (volume, temperature_average) in
      set1 (snd sums) mp_dof_index (snd sums mp_dof_index / fst sums)
    else temperature_average)
    cells temperature_average.

(* ================================================================== *)
(** ** The remaining parts of [fill_properties] *)

(** The search of the material ids, lines 752-760: [present id] tells
    whether the database has a child ["material_<id>"]; [count] is the
    number of ids still to visit and [id] the next one. *)
Fixpoint find_material_ids (present : nat -> bool) (n_materials : nat)
    (count id : nat) (material_ids : list nat) : list nat :=
  match count with
  | O => material_ids
  | S count' =>
      let material_ids :=
        if present id then material_ids ++ [id] else material_ids in
      if (List.length material_ids =? n_materials)%nat then material_ids
      else find_material_ids present n_materials count' (S id) material_ids
  end.

(** [std::numeric_limits<double>::max()]. *)
Definition DBL_MAX : double :=
  Fin (inject_Z ((2 ^ 53 - 1) * 2 ^ 971)).

(** The loop over the state-independent properties of one material,
    lines 938-948: [property p] is the optional value read under
    [property_names[p]]. *)
Definition fill_material_properties (g_n_properties material_id : nat)
    (property : nat -> option double) (properties_host_view : View2)
    : View2 :=
  for_range 0 g_n_properties (fun p properties_host_view =>
    set2 properties_host_view material_id p
      (match property p with
       | Some value => value
       | None => DBL_MAX
       end)) properties_host_view.

(** The block [_mechanical_properties_host], lines 953-988: the first
    value of each table, or the first coefficient of each polynomial. *)
Definition fill_mechanical_properties (use_table : bool)
    (n_material_ids g_n_mechanical_state_properties : nat)
    (blocks : HostBlocks) (mechanical_properties_host_view : View2) : View2 :=
  if use_table then
    for_range 0 n_material_ids (fun i view =>
      for_range 0 g_n_mechanical_state_properties (fun j view =>
        set2 view i j (mechanical_properties_tables_host blocks i j 0%nat 1%nat))
        view) mechanical_properties_host_view
  else
    for_range 0 n_material_ids (fun i view =>
      for_range 0 g_n_mechanical_state_properties (fun j view =>
        set2 view i j (mechanical_properties_polynomials_host blocks i j 0%nat))
        view) mechanical_properties_host_view.

(** [MaterialProperty::get_mechanical_property], lines 173-185, on the
    block [_mechanical_properties_host]: the subtraction is the one of
    [unsigned int], and [ASSERT] is compiled as in a debug build. *)
Definition get_mechanical_property (K : Constants)
    (g_n_mechanical_state_properties : nat)
    (mechanical_properties_host_view : View2) (material_id prop : nat)
    : result double :=
  let property :=
    Z.to_nat ((Z.of_nat prop - Z.of_nat (g_n_thermal_state_properties K))
              mod 2 ^ 32) in
  ASSERT (property <? g_n_mechanical_state_properties)%nat
    "Unknown mechanical property requested."
    (Ok (mechanical_properties_host_view material_id property)).

(** Two parsed numbers of a table entry, in the words of the
    specification: a breakpoint and a value separated by a comma. *)
Definition parse_pair (stod : string -> option double) (entry : string)
    : option (double * double) :=
  match split "," entry with
  | [t; v] =>
      match stod t, stod v with
      | Some t, Some v => Some (t, v)
      | _, _ => None
      end
  | _ => None
  end.

(** The coefficient slot that the loop over the parsed coefficients
    assigns for the index [i]: in the thermal block for a thermal
    property, in the mechanical block otherwise. *)
Definition polynomial_coefficient (K : Constants) (material_id state p i : nat)
    (blocks : HostBlocks) : double :=
  if (p <? g_n_thermal_state_properties K)%nat
  then state_property_polynomials_host blocks material_id state p i
  else mechanical_properties_polynomials_host blocks material_id
         (p - g_n_thermal_state_properties K)%nat i.

(* ================================================================== *)
(** ** The state ratio read by the mechanical activation *)

(** [MaterialProperty::get_state_ratio], lines 187-198; [get_dof_index]
    is declared in [MaterialProperty.hh]. *)
Definition get_state_ratio (mp : MaterialProperty)
    (get_dof_index : Cell -> nat) (cell : Cell) (material_state : nat)
    : double :=
  let mp_dof_index := get_dof_index cell in
  let mat_state := material_state in
  _state mp mat_state mp_dof_index.

(** What the two loops of [MechanicalPhysics] read for the cells of the
    triangulation: the solid ratio of [_material_properties] and the
    active FE index of the thermal cell. *)
Definition mechanical_cells_of (K : Constants) (mp : MaterialProperty)
    (get_dof_index : Cell -> nat) (thermal_index : Cell -> nat)
    (cells : list Cell) : list MechanicalCell :=
  map (fun cell =>
         {| solid_state_ratio := get_state_ratio mp get_dof_index cell (solid K);
            thermal_active_fe_index := thermal_index cell |})
      cells.

(* ================================================================== *)
(** * Properties *)

(** ** Facts about the arithmetic *)

Lemma Qlt_bool_iff (x y : Q) : Qlt_bool x y = true <-> x < y.
Proof.
  unfold Qlt_bool. rewrite negb_true_iff.
  split; intro H.
  - apply Qnot_le_lt. intro Hle. apply Qle_bool_iff in Hle. congruence.
  - destruct (Qle_bool y x) eqn:E; [|reflexivity].
    apply Qle_bool_iff in E. exfalso. exact (Qlt_not_le _ _ H E).
Qed.

Lemma Qlt_bool_false_iff (x y : Q) : Qlt_bool x y = false <-> y <= x.
Proof.
  unfold Qlt_bool. rewrite negb_false_iff. apply Qle_bool_iff.
Qed.

Lemma deq_refl (x : double) : deq x x.
Proof. destruct x; simpl; auto. reflexivity. Qed.

Lemma deq_of_eq (x y : double) : x = y -> deq x y.
Proof. intros ->. apply deq_refl. Qed.

Lemma deq_sym (x y : double) : deq x y -> deq y x.
Proof. destruct x, y; simpl; auto. intro H; symmetry; exact H. Qed.

Lemma deq_trans (x y z : double) : deq x y -> deq y z -> deq x z.
Proof.
  destruct x, y, z; simpl; auto; try contradiction.
  intros H1 H2. rewrite H1. exact H2.
Qed.

Lemma dlt_Fin (a b : Q) : dlt (Fin a) (Fin b) = true <-> a < b.
Proof. apply Qlt_bool_iff. Qed.

Lemma dlt_Fin_false (a b : Q) : dlt (Fin a) (Fin b) = false <-> b <= a.
Proof. apply Qlt_bool_false_iff. Qed.

Lemma dle_Fin (a b : Q) : dle (Fin a) (Fin b) = true <-> a <= b.
Proof. apply Qle_bool_iff. Qed.

Lemma dlt_NaN_l (x : double) : dlt NaN x = false.
Proof. reflexivity. Qed.

Lemma dlt_NaN_r (x : double) : dlt x NaN = false.
Proof. destruct x; reflexivity. Qed.

Lemma ddiv_Fin (a b : Q) : ~ b == 0 -> ddiv (Fin a) (Fin b) = Fin (a / b).
Proof.
  intro Hb. simpl. destruct (Qeq_bool b 0) eqn:E; [|reflexivity].
  apply Qeq_bool_iff in E. contradiction.
Qed.

Lemma ddiv_zero_zero (a b : Q) : a == 0 -> b == 0 -> ddiv (Fin a) (Fin b) = NaN.
Proof.
  intros Ha Hb. simpl.
  apply Qeq_bool_iff in Ha. apply Qeq_bool_iff in Hb.
  rewrite Ha, Hb. reflexivity.
Qed.

Lemma dadd_Fin (a b : Q) : dadd (Fin a) (Fin b) = Fin (a + b).
Proof. reflexivity. Qed.

Lemma dsub_Fin (a b : Q) : dsub (Fin a) (Fin b) = Fin (a - b).
Proof. reflexivity. Qed.

Lemma dmul_Fin (a b : Q) : dmul (Fin a) (Fin b) = Fin (a * b).
Proof. reflexivity. Qed.

(** ** Facts about views and loops *)

Ltac nat_cases :=
  repeat match goal with
  | |- context [(?a =? ?b)%nat] => destruct (Nat.eqb_spec a b)
  | |- context [(?a <=? ?b)%nat] => destruct (Nat.leb_spec a b)
  | |- context [(?a <? ?b)%nat] => destruct (Nat.ltb_spec a b)
  end; simpl; subst; try reflexivity; try lia; try congruence.

Lemma set2_eq (v : View2) (i j : nat) (x : double) : set2 v i j x i j = x.
Proof. unfold set2. rewrite !Nat.eqb_refl. reflexivity. Qed.

Lemma set2_neq (v : View2) (i j i' j' : nat) (x : double) :
  i' <> i \/ j' <> j -> set2 v i j x i' j' = v i' j'.
Proof. unfold set2. intros [H | H]; nat_cases. Qed.

Lemma for_loop_ext {A : Type} (body1 body2 : nat -> A -> A) :
  forall count i a,
    (forall k x, i <= k < i + count -> body1 k x = body2 k x)%nat ->
    for_loop count i body1 a = for_loop count i body2 a.
Proof.
  induction count as [|count IH]; intros i a H; simpl; [reflexivity|].
  rewrite (H i a) by lia. apply IH. intros k x Hk. apply H. lia.
Qed.

(** A loop whose every iteration rewrites the one cell [(p, dof)]. *)
Lemma cell_loop (p dof : nat) (h : nat -> double -> double)
    (body : nat -> View2 -> View2) :
  (forall k pv r j,
      body k pv r j =
      if (r =? p)%nat && (j =? dof)%nat then h k (pv p dof) else pv r j) ->
  forall count i pv r j,
    for_loop count i body pv r j =
    if (r =? p)%nat && (j =? dof)%nat
    then for_loop count i h (pv p dof) else pv r j.
Proof.
  intros Hb. induction count as [|count IH]; intros i pv r j; simpl.
  - nat_cases.
  - rewrite IH, !Hb, !Nat.eqb_refl. simpl.
    destruct ((r =? p)%nat && (j =? dof)%nat); reflexivity.
Qed.

(** A loop whose iteration [k] rewrites the cell [(k, dof)]. *)
Lemma rows_loop (dof : nat) (g : nat -> double -> double)
    (body : nat -> View2 -> View2) :
  (forall k pv r j,
      body k pv r j =
      if (r =? k)%nat && (j =? dof)%nat then g k (pv k dof) else pv r j) ->
  forall count i pv r j,
    for_loop count i body pv r j =
    if (i <=? r)%nat && (r <? i + count)%nat && (j =? dof)%nat
    then g r (pv r dof) else pv r j.
Proof.
  intros Hb. induction count as [|count IH]; intros i pv r j; simpl.
  - nat_cases.
  - rewrite IH, !Hb. nat_cases.
Qed.

(** ** The kernel, unit by unit *)

Section KernelFacts.

Variable K : Constants.

Lemma accumulate_properties_at (use_table : bool) (tables : TablesView)
    (polynomials : View4) (state_view : View2) (material_id dof : nat)
    (T : double) (first : nat) (pv : View2) (r j : nat) :
  accumulate_properties K use_table tables polynomials state_view
    material_id dof T first pv r j =
  if (first <=? r)%nat && (r <? g_n_thermal_state_properties K)%nat
     && (j =? dof)%nat
  then blended_property K use_table tables polynomials
         (fun state => state_view state dof) material_id r T (pv r dof)
  else pv r j.
Proof.
  unfold accumulate_properties, blended_property, for_range.
  destruct use_table.
  - rewrite (rows_loop dof
      (fun property x =>
         for_loop (g_n_material_states K - 0) 0
           (fun state acc =>
              acc + state_view state dof *
                    compute_property_from_table tables material_id state
                      property T) x)).
    + nat_cases.
    + intros k pv' r' j'.
      rewrite (cell_loop k dof
        (fun state acc =>
           acc + state_view state dof *
                 compute_property_from_table tables material_id state k T)).
      * reflexivity.
      * intros s pv'' r'' j''. unfold set2. reflexivity.
  - rewrite (rows_loop dof
      (fun property x =>
         for_loop (g_n_material_states K - 0) 0
           (fun state acc =>
              for_loop (polynomial_order K + 1 - 0) 0
                (fun i acc =>
                   acc + state_view state dof *
                         polynomials material_id state property i *
                         std_pow T i) acc) x)).
    + nat_cases.
    + intros k pv' r' j'.
      rewrite (cell_loop k dof
        (fun state acc =>
           for_loop (polynomial_order K + 1 - 0) 0
             (fun i acc =>
                acc + state_view state dof *
                      polynomials material_id state k i * std_pow T i) acc)).
      * reflexivity.
      * intros s pv'' r'' j''.
        rewrite (cell_loop k dof
          (fun i acc =>
             acc + state_view s dof * polynomials material_id s k i *
                   std_pow T i)).
        -- reflexivity.
        -- intros i pv3 r3 j3. unfold set2. reflexivity.
Qed.

Lemma mushy_zone_correction_at (properties state_view : View2)
    (material_id dof : nat) (liquid_ratio solidus liquidus : double)
    (pv : View2) (r j : nat) :
  mushy_zone_correction K properties state_view material_id dof liquid_ratio
    solidus liquidus pv r j =
  if in_mushy_zone liquid_ratio && (r =? specific_heat_prop K)%nat
     && (j =? dof)%nat
  then latent_heat_sum K (fun state => state_view state dof)
         (properties material_id (latent_heat_prop K)) solidus liquidus
         (pv r dof)
  else pv r j.
Proof.
  unfold mushy_zone_correction, in_mushy_zone, latent_heat_sum, for_range.
  destruct ((liquid_ratio >? Fin 0) && (liquid_ratio <? Fin 1)); simpl;
    [|reflexivity].
  rewrite (cell_loop (specific_heat_prop K) dof
    (fun state acc =>
       acc + state_view state dof *
             properties material_id (latent_heat_prop K) /
             (liquidus - solidus))).
  - nat_cases.
  - intros s pv' r' j'. unfold set2. reflexivity.
Qed.

Lemma blended_property_ext (use_table : bool) (tables : TablesView)
    (polynomials : View4) (f1 f2 : nat -> double) (material_id p : nat)
    (T init : double) :
  (forall s, f1 s = f2 s) ->
  blended_property K use_table tables polynomials f1 material_id p T init =
  blended_property K use_table tables polynomials f2 material_id p T init.
Proof.
  intro H. unfold blended_property, for_range. destruct use_table.
  - apply for_loop_ext. intros k x _. rewrite H. reflexivity.
  - apply for_loop_ext. intros k x _.
    apply for_loop_ext. intros i y _. rewrite H. reflexivity.
Qed.

Lemma latent_heat_sum_ext (f1 f2 : nat -> double)
    (latent_heat solidus liquidus init : double) :
  (forall s, f1 s = f2 s) ->
  latent_heat_sum K f1 latent_heat solidus liquidus init =
  latent_heat_sum K f2 latent_heat solidus liquidus init.
Proof.
  intro H. unfold latent_heat_sum, for_range.
  apply for_loop_ext. intros k x _. rewrite H. reflexivity.
Qed.

Lemma unit_property_values_ext (use_table : bool) (tables : TablesView)
    (polynomials : View4) (properties : View2) (f1 f2 : nat -> double)
    (material_id : nat) (T : double) (first : nat) (mushy : bool)
    (init1 init2 : nat -> double) (property : nat) :
  (forall s, f1 s = f2 s) -> (forall p, init1 p = init2 p) ->
  unit_property_values K use_table tables polynomials properties f1
    material_id T first mushy init1 property =
  unit_property_values K use_table tables polynomials properties f2
    material_id T first mushy init2 property.
Proof.
  intros Hf Hi. unfold unit_property_values.
  rewrite !Hi.
  rewrite !(blended_property_ext use_table tables polynomials f1 f2) by exact Hf.
  rewrite !(latent_heat_sum_ext f1 f2) by exact Hf.
  reflexivity.
Qed.

Lemma unit_fractions_ext (p1 p2 : nat -> double) (T solidus liquidus : double)
    (state : nat) :
  (forall s, p1 s = p2 s) ->
  unit_fractions K p1 T solidus liquidus state =
  unit_fractions K p2 T solidus liquidus state.
Proof. intro H. unfold unit_fractions. rewrite !H. reflexivity. Qed.

(** The state view after the kernel has run for the index [i]. *)
Lemma update_kernel_state (material_ids_view mp_dofs_view : View1 nat)
    (temperature_average_local : View1 double) (polynomials : View4)
    (properties : View2) (tables : TablesView) (use_table : bool) (i : nat)
    (state_view pv : View2) (r j : nat) :
  fst (update_kernel K material_ids_view mp_dofs_view
         temperature_average_local polynomials properties tables use_table i
         (state_view, pv)) r j =
  if (j =? mp_dofs_view i)%nat
  then unit_fractions K (fun state => state_view state (mp_dofs_view i))
         (temperature_average_local (mp_dofs_view i))
         (properties (material_ids_view i) (prop_solidus K))
         (properties (material_ids_view i) (prop_liquidus K)) r
  else state_view r j.
Proof.
  unfold update_kernel, unit_fractions. simpl. unfold set2. nat_cases.
Qed.

(** The property-value view after the kernel has run for the index
    [i]. *)
Lemma update_kernel_property_values
    (material_ids_view mp_dofs_view : View1 nat)
    (temperature_average_local : View1 double) (polynomials : View4)
    (properties : View2) (tables : TablesView) (use_table : bool) (i : nat)
    (state_view pv : View2) (r j : nat) :
  let dof := mp_dofs_view i in
  let material_id := material_ids_view i in
  let T := temperature_average_local dof in
  let solidus := properties material_id (prop_solidus K) in
  let liquidus := properties material_id (prop_liquidus K) in
  snd (update_kernel K material_ids_view mp_dofs_view
         temperature_average_local polynomials properties tables use_table i
         (state_view, pv)) r j =
  if (j =? dof)%nat
  then unit_property_values K use_table tables polynomials properties
         (unit_fractions K (fun state => state_view state dof) T solidus
            liquidus)
         material_id T 0
         (in_mushy_zone (liquid_ratio_of T solidus liquidus))
         (fun p => pv p dof) r
  else pv r j.
Proof.
  intros dof material_id T solidus liquidus.
  unfold update_kernel. simpl. fold dof material_id T solidus liquidus.
  set (lr := liquid_ratio_of T solidus liquidus).
  set (pr := std_min (Fin 1 - lr) (state_view (powder K) dof)).
  set (sr := std_max (Fin 1 - lr - pr) (Fin 0)).
  set (sv := set2 (set2 (set2 state_view (liquid K) dof lr) (powder K) dof pr)
               (solid K) dof sr).
  assert (Hsv : forall s,
             sv s dof =
             unit_fractions K (fun state => state_view state dof) T solidus
               liquidus s).
  { intro s. unfold sv, unit_fractions, set2. fold lr pr sr. nat_cases. }
  unfold radiation_coefficient, unit_property_values.
  fold solidus liquidus.
  unfold set2 at 1.
  rewrite !mushy_zone_correction_at, !accumulate_properties_at.
  rewrite !(blended_property_ext use_table tables polynomials _ _ _ _ _ _ Hsv).
  rewrite !(latent_heat_sum_ext _ _ _ _ _ _ Hsv).
  rewrite !Nat.eqb_refl, !andb_true_r.
  fold lr.
  destruct (Nat.eqb_spec j dof) as [->|Hj].
  - rewrite !andb_true_r. simpl.
    destruct (Nat.eqb_spec r (radiation_heat_transfer_coef_prop K)); simpl;
      reflexivity.
  - rewrite !andb_false_r. simpl. reflexivity.
Qed.

End KernelFacts.

(** ** From the kernel to [update] *)

Section UpdateFacts.

Variable K : Constants.
Variables material_ids_view mp_dofs_view : View1 nat.
Variable temperature_average_local : View1 double.
Variable polynomials : View4.
Variable properties : View2.
Variable tables : TablesView.
Variable use_table : bool.

Let step := update_kernel K material_ids_view mp_dofs_view
              temperature_average_local polynomials properties tables
              use_table.

(** The iterations for other degrees of freedom leave a column alone. *)
Lemma for_loop_kernel_frame :
  forall count i0 (sv pv : View2) d,
    (forall k, (i0 <= k < i0 + count)%nat -> mp_dofs_view k <> d) ->
    forall r,
      fst (for_loop count i0 step (sv, pv)) r d = sv r d /\
      snd (for_loop count i0 step (sv, pv)) r d = pv r d.
Proof.
  induction count as [|count IH]; intros i0 sv pv d Hd r.
  - split; reflexivity.
  - change (for_loop (S count) i0 step (sv, pv))
      with (for_loop count (S i0) step (step i0 (sv, pv))).
    destruct (step i0 (sv, pv)) as [sv1 pv1] eqn:E.
    destruct (IH (S i0) sv1 pv1 d) with (r := r) as [H1 H2].
    { intros k Hk. apply Hd. lia. }
    rewrite H1, H2.
    assert (Hne : mp_dofs_view i0 <> d) by (apply Hd; lia).
    replace (sv1 r d) with (fst (step i0 (sv, pv)) r d)
      by (rewrite E; reflexivity).
    replace (pv1 r d) with (snd (step i0 (sv, pv)) r d)
      by (rewrite E; reflexivity).
    unfold step. rewrite update_kernel_state.
    pose proof (update_kernel_property_values K material_ids_view mp_dofs_view
                  temperature_average_local polynomials properties tables
                  use_table i0 sv pv r d) as Hp.
    cbv zeta in Hp. rewrite Hp.
    destruct (Nat.eqb_spec d (mp_dofs_view i0)); [congruence|].
    split; reflexivity.
Qed.

(** With pairwise distinct degrees of freedom, the column of the index
    [k] after the loop is what the kernel computes for [k] from the
    initial views. *)
Lemma for_loop_kernel_at :
  forall count i0 (sv pv : View2),
    (forall a b, (i0 <= a < b)%nat -> (b < i0 + count)%nat ->
                 mp_dofs_view a <> mp_dofs_view b) ->
    forall k, (i0 <= k < i0 + count)%nat ->
    forall r,
      let dof := mp_dofs_view k in
      let T := temperature_average_local dof in
      let solidus := properties (material_ids_view k) (prop_solidus K) in
      let liquidus := properties (material_ids_view k) (prop_liquidus K) in
      let fraction :=
        unit_fractions K (fun state => sv state dof) T solidus liquidus in
      fst (for_loop count i0 step (sv, pv)) r dof = fraction r /\
      snd (for_loop count i0 step (sv, pv)) r dof =
      unit_property_values K use_table tables polynomials properties fraction
        (material_ids_view k) T 0
        (in_mushy_zone (liquid_ratio_of T solidus liquidus))
        (fun p => pv p dof) r.
Proof.
  induction count as [|count IH]; intros i0 sv pv Hd k Hk r; [lia|].
  change (for_loop (S count) i0 step (sv, pv))
    with (for_loop count (S i0) step (step i0 (sv, pv))).
  destruct (step i0 (sv, pv)) as [sv1 pv1] eqn:E.
  assert (Hs : forall r d, sv1 r d = fst (step i0 (sv, pv)) r d)
    by (intros; rewrite E; reflexivity).
  assert (Hp : forall r d, pv1 r d = snd (step i0 (sv, pv)) r d)
    by (intros; rewrite E; reflexivity).
  cbv zeta.
  destruct (Nat.eq_dec k i0) as [->|Hne].
  - assert (Hfr0 : forall j, (S i0 <= j < S i0 + count)%nat ->
                       mp_dofs_view j <> mp_dofs_view i0).
    { intros j Hj Heq. apply (Hd i0 j); [lia|lia|]. symmetry. exact Heq. }
    destruct (for_loop_kernel_frame count (S i0) sv1 pv1 _ Hfr0 r) as [H1 H2].
    rewrite H1, H2, Hs, Hp. unfold step.
    rewrite update_kernel_state.
    pose proof (update_kernel_property_values K material_ids_view mp_dofs_view
                  temperature_average_local polynomials properties tables
                  use_table i0 sv pv r (mp_dofs_view i0)) as Hpv.
    cbv zeta in Hpv. rewrite Hpv. rewrite !Nat.eqb_refl. split; reflexivity.
  - destruct (IH (S i0) sv1 pv1) with (k := k) (r := r) as [H1 H2].
    { intros a b Ha Hb. apply Hd; lia. }
    { lia. }
    rewrite H1, H2.
    assert (Hcol : mp_dofs_view k <> mp_dofs_view i0).
    { intro Heq. apply (Hd i0 k); [lia|lia|]. symmetry. exact Heq. }
    assert (Hsv : forall s, sv1 s (mp_dofs_view k) = sv s (mp_dofs_view k)).
    { intro s. rewrite Hs. unfold step. rewrite update_kernel_state.
      destruct (Nat.eqb_spec (mp_dofs_view k) (mp_dofs_view i0));
        [congruence | reflexivity]. }
    assert (Hpv : forall p, pv1 p (mp_dofs_view k) = pv p (mp_dofs_view k)).
    { intro p. rewrite Hp. unfold step.
      pose proof (update_kernel_property_values K material_ids_view
                    mp_dofs_view temperature_average_local polynomials
                    properties tables use_table i0 sv pv p (mp_dofs_view k))
        as Hq.
      cbv zeta in Hq. rewrite Hq.
      destruct (Nat.eqb_spec (mp_dofs_view k) (mp_dofs_view i0));
        [congruence | reflexivity]. }
    assert (Hfr : forall s,
               unit_fractions K (fun state => sv1 state (mp_dofs_view k))
                 (temperature_average_local (mp_dofs_view k))
                 (properties (material_ids_view k) (prop_solidus K))
                 (properties (material_ids_view k) (prop_liquidus K)) s =
               unit_fractions K (fun state => sv state (mp_dofs_view k))
                 (temperature_average_local (mp_dofs_view k))
                 (properties (material_ids_view k) (prop_solidus K))
                 (properties (material_ids_view k) (prop_liquidus K)) s).
    { intro s. apply unit_fractions_ext. exact Hsv. }
    split.
    + apply Hfr.
    + apply unit_property_values_ext; [exact Hfr | exact Hpv].
Qed.

End UpdateFacts.

Lemma nth_map_nth_error {A : Type} (f : A -> nat) (l : list A) (k : nat)
    (x : A) :
  nth_error l k = Some x -> nth k (map f l) 0%nat = f x.
Proof.
  revert k. induction l as [|a l IH]; intros [|k] H; simpl in *;
    try discriminate.
  - congruence.
  - apply IH. exact H.
Qed.

(** [update], unit by unit: for the [k]-th locally owned cell, the
    state column and the property column after the call are the ones of
    the per-unit algorithm, run on the state before the call and on a
    zeroed property column. *)
Lemma update_at_cell (K : Constants) (mp : MaterialProperty)
    (cells : list Cell) (temperature_average : View1 double) (k : nat)
    (cell : Cell) :
  NoDup (mp_dofs_of mp cells) ->
  nth_error cells k = Some cell ->
  let dof := _dofs_map mp (cell_mp_dof cell) in
  let T := temperature_average dof in
  let solidus := _properties mp (cell_material_id cell) (prop_solidus K) in
  let liquidus := _properties mp (cell_material_id cell) (prop_liquidus K) in
  let fraction :=
    unit_fractions K (fun state => _state mp state dof) T solidus liquidus in
  forall r,
    _state (update K mp cells temperature_average) r dof = fraction r /\
    _property_values (update K mp cells temperature_average) r dof =
    unit_property_values K (_use_table mp) (_state_property_tables mp)
      (_state_property_polynomials mp) (_properties mp) fraction
      (cell_material_id cell) T 0
      (in_mushy_zone (liquid_ratio_of T solidus liquidus))
      (fun _ => Fin 0) r.
Proof.
  intros Hnd Hk dof T solidus liquidus fraction r.
  assert (Hlen : (k < List.length cells)%nat).
  { apply nth_error_Some. rewrite Hk. discriminate. }
  assert (Hdof : nth k (mp_dofs_of mp cells) 0%nat = dof)
    by (exact (nth_map_nth_error
                 (fun cell => _dofs_map mp (cell_mp_dof cell)) cells k cell Hk)).
  assert (Hmat : nth k (map cell_material_id cells) 0%nat
                 = cell_material_id cell)
    by (apply nth_map_nth_error; exact Hk).
  unfold update, for_each, for_range. simpl.
  fold (mp_dofs_of mp cells).
  rewrite Nat.sub_0_r, length_map.
  pose proof (for_loop_kernel_at K
                (fun i => nth i (map cell_material_id cells) 0%nat)
                (fun i => nth i (mp_dofs_of mp cells) 0%nat)
                temperature_average (_state_property_polynomials mp)
                (_properties mp) (_state_property_tables mp) (_use_table mp)
                (List.length cells) 0 (_state mp) zero2) as H.
  simpl in H. specialize (H).
  assert (Hdist : forall a b, (0 <= a < b)%nat -> (b < List.length cells)%nat ->
                    nth a (mp_dofs_of mp cells) 0%nat <>
                    nth b (mp_dofs_of mp cells) 0%nat).
  { intros a b Ha Hb Heq.
    assert (a = b); [|lia].
    apply (proj1 (NoDup_nth (mp_dofs_of mp cells) 0%nat) Hnd);
      unfold mp_dofs_of; rewrite ?length_map; try lia. exact Heq. }
  specialize (H Hdist k (conj (Nat.le_0_l k) Hlen) r).
  rewrite Hdof, Hmat in H. exact H.
Qed.

(** ** The ratio of liquid *)

Lemma enums_ok_elim (K : Constants) :
  enums_ok K = true ->
  (liquid K <> powder K /\ liquid K <> solid K /\ powder K <> solid K) /\
  (liquid K < g_n_material_states K /\ powder K < g_n_material_states K /\
   solid K < g_n_material_states K)%nat /\
  (specific_heat_prop K <> emissivity_prop K /\
   specific_heat_prop K <> radiation_heat_transfer_coef_prop K /\
   emissivity_prop K <> radiation_heat_transfer_coef_prop K) /\
  (specific_heat_prop K < g_n_thermal_state_properties K /\
   emissivity_prop K < g_n_thermal_state_properties K /\
   radiation_heat_transfer_coef_prop K < g_n_thermal_state_properties K)%nat.
Proof.
  unfold enums_ok. rewrite !andb_true_iff, !negb_true_iff, !Nat.eqb_neq,
    !Nat.ltb_lt. tauto.
Qed.

Lemma unit_fractions_liquid (K : Constants) (previous : nat -> double)
    (T solidus liquidus : double) :
  enums_ok K = true ->
  unit_fractions K previous T solidus liquidus (liquid K) =
  liquid_ratio_of T solidus liquidus.
Proof.
  intro H. apply enums_ok_elim in H. unfold unit_fractions. nat_cases; tauto.
Qed.

Lemma unit_fractions_powder (K : Constants) (previous : nat -> double)
    (T solidus liquidus : double) :
  enums_ok K = true ->
  unit_fractions K previous T solidus liquidus (powder K) =
  std_min (Fin 1 - liquid_ratio_of T solidus liquidus) (previous (powder K)).
Proof.
  intro H. apply enums_ok_elim in H. unfold unit_fractions. nat_cases; tauto.
Qed.

Lemma unit_fractions_solid (K : Constants) (previous : nat -> double)
    (T solidus liquidus : double) :
  unit_fractions K previous T solidus liquidus (solid K) =
  let liquid_ratio := liquid_ratio_of T solidus liquidus in
  std_max (Fin 1 - liquid_ratio -
           std_min (Fin 1 - liquid_ratio) (previous (powder K))) (Fin 0).
Proof. unfold unit_fractions. nat_cases. Qed.

Lemma liquid_ratio_spec_bounds (T Ts Tl : Q) :
  Ts < Tl -> 0 <= liquid_ratio_spec T Ts Tl <= 1.
Proof.
  intro H. unfold liquid_ratio_spec.
  destruct (Qle_bool T Ts) eqn:E1; [lra|].
  destruct (Qle_bool Tl T) eqn:E2; [lra|].
  assert (H1 : ~ T <= Ts) by (rewrite <- Qle_bool_iff; congruence).
  assert (H2 : ~ Tl <= T) by (rewrite <- Qle_bool_iff; congruence).
  split.
  - apply Qle_shift_div_l; lra.
  - apply Qle_shift_div_r; lra.
Qed.

(** On finite values with [Ts < Tl] the strict branches of the kernel
    compute the ratio of the specification. *)
Lemma liquid_ratio_of_finite (T Ts Tl : Q) :
  Ts < Tl ->
  exists l : Q,
    liquid_ratio_of (Fin T) (Fin Ts) (Fin Tl) = Fin l /\
    l == liquid_ratio_spec T Ts Tl.
Proof.
  intro H. unfold liquid_ratio_of, liquid_ratio_spec, dgt.
  destruct (Fin T <? Fin Ts) eqn:E1.
  - apply dlt_Fin in E1. exists 0%Q. split; [reflexivity|].
    destruct (Qle_bool T Ts) eqn:E; [reflexivity|].
    exfalso. assert (T <= Ts) by lra. apply Qle_bool_iff in H0. congruence.
  - apply dlt_Fin_false in E1.
    destruct (Fin Tl <? Fin T) eqn:E2.
    + apply dlt_Fin in E2. exists 1%Q. split; [reflexivity|].
      destruct (Qle_bool T Ts) eqn:E.
      * apply Qle_bool_iff in E. lra.
      * destruct (Qle_bool Tl T) eqn:E'; [reflexivity|].
        exfalso. assert (Tl <= T) by lra. apply Qle_bool_iff in H0. congruence.
    + apply dlt_Fin_false in E2.
      exists ((T + - Ts) / (Tl + - Ts))%Q. split.
      * unfold dsub. simpl dopp. simpl dadd. apply ddiv_Fin. lra.
      * destruct (Qle_bool T Ts) eqn:E.
        { apply Qle_bool_iff in E.
          assert (Hz : T + - Ts == 0) by lra.
          rewrite Hz. unfold Qdiv. ring. }
        destruct (Qle_bool Tl T) eqn:E'.
        { apply Qle_bool_iff in E'.
          assert (Hz : T + - Ts == Tl + - Ts) by lra.
          rewrite Hz. field. lra. }
        reflexivity.
Qed.

(** C1.  For every locally owned cell whose material has a solidus
    strictly below its liquidus, [update] sets the liquid ratio of the
    cell from its averaged temperature [T] to 0 if [T <= Ts], to 1 if
    [T >= Tl] and to [(T - Ts) / (Tl - Ts)] otherwise; in particular
    the result is 0 at [T = Ts] and 1 at [T = Tl], although the kernel
    compares strictly. *)
Theorem update_liquid_ratio (K : Constants) (mp : MaterialProperty)
    (cells : list Cell) (temperature_average : View1 double) (k : nat)
    (cell : Cell) (T Ts Tl : Q) :
  enums_ok K = true ->
  NoDup (mp_dofs_of mp cells) ->
  nth_error cells k = Some cell ->
  _properties mp (cell_material_id cell) (prop_solidus K) = Fin Ts ->
  _properties mp (cell_material_id cell) (prop_liquidus K) = Fin Tl ->
  temperature_average (_dofs_map mp (cell_mp_dof cell)) = Fin T ->
  Ts < Tl ->
  let liquid_ratio :=
    _state (update K mp cells temperature_average) (liquid K)
      (_dofs_map mp (cell_mp_dof cell)) in
  liquid_ratio =~= Fin (liquid_ratio_spec T Ts Tl) /\
  (T <= Ts -> liquid_ratio =~= Fin 0) /\
  (Tl <= T -> liquid_ratio =~= Fin 1) /\
  (Ts < T < Tl -> liquid_ratio =~= Fin ((T - Ts) / (Tl - Ts))).
Proof.
  intros Hok Hnd Hk HTs HTl HT Hlt liquid_ratio.
  destruct (update_at_cell K mp cells temperature_average k cell Hnd Hk
              (liquid K))
    as [Hs _].
  assert (Hmain : liquid_ratio =~= Fin (liquid_ratio_spec T Ts Tl)).
  { unfold liquid_ratio. rewrite Hs, unit_fractions_liquid by exact Hok.
    rewrite HTs, HTl, HT.
    destruct (liquid_ratio_of_finite T Ts Tl Hlt) as [l [El Hl]].
    rewrite El. exact Hl. }
  split; [exact Hmain|].
  repeat split; intro Hc;
    (eapply deq_trans; [exact Hmain|]); simpl; unfold liquid_ratio_spec.
  - destruct (Qle_bool T Ts) eqn:E; [reflexivity|].
    apply Qle_bool_iff in Hc. congruence.
  - destruct (Qle_bool T Ts) eqn:E.
    + apply Qle_bool_iff in E. lra.
    + destruct (Qle_bool Tl T) eqn:E'; [reflexivity|].
      apply Qle_bool_iff in Hc. congruence.
  - destruct (Qle_bool T Ts) eqn:E.
    + apply Qle_bool_iff in E. lra.
    + destruct (Qle_bool Tl T) eqn:E'; [|reflexivity].
      apply Qle_bool_iff in E'. lra.
Qed.

Lemma sample_cells_NoDup (properties : View2) (user_index : nat -> nat) :
  NoDup (mp_dofs_of (sample_material_property properties user_index)
           sample_cells).
Proof.
  unfold mp_dofs_of. simpl.
  constructor; [simpl; intros [H | []]; discriminate|].
  constructor; [intros []|]. constructor.
Qed.

Lemma update_liquid_ratio_witness :
  (1000 < 1100)%Q /\
  _state (update sample_constants
            (sample_material_property sample_properties (fun _ => 0%nat))
            sample_cells (fun _ => Fin 1050))
    (liquid sample_constants) 0%nat =~= Fin (1 # 2).
Proof.
  split; [reflexivity|].
  refine (deq_trans _ _ _
            (proj1 (update_liquid_ratio sample_constants
                      (sample_material_property sample_properties
                         (fun _ => 0%nat))
                      sample_cells (fun _ => Fin 1050) 0
                      {| cell_material_id := 0; cell_mp_dof := 0 |}
                      1050 1000 1100 eq_refl
                      (sample_cells_NoDup _ _) eq_refl eq_refl eq_refl
                      eq_refl _)) _).
  - reflexivity.
  - vm_compute. reflexivity.
Defined.

(** ** Solidus equal to liquidus *)

(** Away from the common value the strict comparisons decide. *)
Lemma liquid_ratio_of_coincident_off (T c : Q) :
  (T < c -> liquid_ratio_of (Fin T) (Fin c) (Fin c) = Fin 0) /\
  (c < T -> liquid_ratio_of (Fin T) (Fin c) (Fin c) = Fin 1).
Proof.
  unfold liquid_ratio_of, dgt. split; intro H.
  - apply dlt_Fin in H. rewrite H. reflexivity.
  - destruct (Fin T <? Fin c) eqn:E.
    + apply dlt_Fin in E. lra.
    + apply dlt_Fin in H. rewrite H. reflexivity.
Qed.

(** At the common value neither comparison holds and the quotient is
    [0 / 0]. *)
Lemma liquid_ratio_of_coincident (c : Q) :
  liquid_ratio_of (Fin c) (Fin c) (Fin c) = NaN.
Proof.
  unfold liquid_ratio_of, dgt.
  assert (E : (Fin c <? Fin c) = false) by (apply dlt_Fin_false; lra).
  rewrite E. unfold dsub. simpl dopp. simpl dadd.
  apply ddiv_zero_zero; lra.
Qed.

(** C2.  The kernel does not guard the case of a material whose solidus
    equals its liquidus: for a cell whose averaged temperature is that
    common value, [update] evaluates [(T - Ts) / (Tl - Ts)] as [0 / 0],
    and the three ratios it writes are NaN, neither 0 nor 1. *)
Theorem update_coincident_solidus_liquidus (K : Constants)
    (mp : MaterialProperty) (cells : list Cell)
    (temperature_average : View1 double) (k : nat) (cell : Cell) (c : Q) :
  enums_ok K = true ->
  NoDup (mp_dofs_of mp cells) ->
  nth_error cells k = Some cell ->
  _properties mp (cell_material_id cell) (prop_solidus K) = Fin c ->
  _properties mp (cell_material_id cell) (prop_liquidus K) = Fin c ->
  temperature_average (_dofs_map mp (cell_mp_dof cell)) = Fin c ->
  let dof := _dofs_map mp (cell_mp_dof cell) in
  let mp' := update K mp cells temperature_average in
  _state mp' (liquid K) dof = NaN /\
  _state mp' (powder K) dof = NaN /\
  _state mp' (solid K) dof = NaN.
Proof.
  intros Hok Hnd Hk HTs HTl HT. cbv zeta.
  pose proof (update_at_cell K mp cells temperature_average k cell Hnd Hk)
    as H.
  cbv zeta in H. rewrite HTs, HTl, HT in H.
  rewrite (proj1 (H (liquid K))), (proj1 (H (powder K))),
    (proj1 (H (solid K))).
  rewrite unit_fractions_liquid, unit_fractions_powder, unit_fractions_solid
    by exact Hok.
  cbv zeta. rewrite liquid_ratio_of_coincident.
  unfold std_min, std_max. simpl dsub. rewrite dlt_NaN_r. simpl.
  repeat split; reflexivity.
Qed.

Lemma update_coincident_solidus_liquidus_witness :
  let mp' :=
    update sample_constants
      (sample_material_property degenerate_properties (fun _ => 1%nat))
      sample_cells (fun _ => Fin 1000) in
  _state mp' (liquid sample_constants) 0%nat = NaN /\
  _state mp' (powder sample_constants) 0%nat = NaN /\
  _state mp' (solid sample_constants) 0%nat = NaN.
Proof.
  exact (update_coincident_solidus_liquidus sample_constants
           (sample_material_property degenerate_properties (fun _ => 1%nat))
           sample_cells (fun _ => Fin 1000) 0
           {| cell_material_id := 0; cell_mp_dof := 0 |} 1000
           eq_refl (sample_cells_NoDup _ _) eq_refl eq_refl eq_refl eq_refl).
Defined.

(** ** The ratio of powder *)

(** As long as the liquid ratio and the previous powder ratio are
    numbers, the new powder ratio is a number that does not exceed the
    previous one. *)
Lemma powder_ratio_non_increasing (l p : Q) :
  exists p' : Q,
    std_min (Fin 1 - Fin l) (Fin p) = Fin p' /\ p' <= p /\ p' <= 1 - l /\
    (p' == p \/ p' == 1 - l).
Proof.
  unfold std_min, dsub. simpl dopp. simpl dadd.
  destruct (Fin p <? Fin (1 + - l)) eqn:E.
  - apply dlt_Fin in E. exists p. split; [reflexivity|].
    split; [lra|]. split; [lra|]. left; reflexivity.
  - apply dlt_Fin_false in E. exists (1 + - l)%Q. split; [reflexivity|].
    split; [lra|]. split; [lra|]. right; lra.
Qed.

(** The liquid ratio is a number unless the averaged temperature, the
    solidus and the liquidus all coincide. *)
Lemma liquid_ratio_of_number (T Ts Tl : Q) :
  ~ (Ts == Tl /\ T == Ts) ->
  exists l : Q, liquid_ratio_of (Fin T) (Fin Ts) (Fin Tl) = Fin l.
Proof.
  intro H. unfold liquid_ratio_of, dgt.
  destruct (Fin T <? Fin Ts) eqn:E1; [exists 0%Q; reflexivity|].
  destruct (Fin Tl <? Fin T) eqn:E2; [exists 1%Q; reflexivity|].
  apply dlt_Fin_false in E1. apply dlt_Fin_false in E2.
  rewrite !dsub_Fin. exists ((T - Ts) / (Tl - Ts))%Q.
  apply ddiv_Fin. intro Hz. apply H. split; lra.
Qed.

(** Outside of that case, an update does not increase the powder ratio
    of a locally owned cell. *)
Lemma update_powder_non_increasing (K : Constants) (mp : MaterialProperty)
    (cells : list Cell) (temperature_average : View1 double) (k : nat)
    (cell : Cell) (T Ts Tl p : Q) :
  enums_ok K = true ->
  NoDup (mp_dofs_of mp cells) ->
  nth_error cells k = Some cell ->
  _properties mp (cell_material_id cell) (prop_solidus K) = Fin Ts ->
  _properties mp (cell_material_id cell) (prop_liquidus K) = Fin Tl ->
  temperature_average (_dofs_map mp (cell_mp_dof cell)) = Fin T ->
  _state mp (powder K) (_dofs_map mp (cell_mp_dof cell)) = Fin p ->
  ~ (Ts == Tl /\ T == Ts) ->
  exists p' : Q,
    _state (update K mp cells temperature_average) (powder K)
      (_dofs_map mp (cell_mp_dof cell)) = Fin p' /\
    p' <= p.
Proof.
  intros Hok Hnd Hk HTs HTl HT Hp Hnd'.
  pose proof (update_at_cell K mp cells temperature_average k cell Hnd Hk)
    as H.
  cbv zeta in H. rewrite HTs, HTl, HT in H.
  rewrite (proj1 (H (powder K))), unit_fractions_powder by exact Hok.
  rewrite Hp.
  destruct (liquid_ratio_of_number T Ts Tl Hnd') as [l El]. rewrite El.
  destruct (powder_ratio_non_increasing l p) as (p' & Ep & Hle & _).
  exists p'. split; assumption.
Qed.

(** C3.  The powder ratio can increase across successive updates.  A
    solid cell (powder ratio 0) of a material with solidus = liquidus =
    1000 is updated at the averaged temperature 1000 and then at 900:
    the first update writes NaN into the three ratios, and the second
    one computes [std::min(1., NaN)], which is 1: the cell is now all
    powder. *)
Theorem update_sequence_creates_powder :
  let mp0 := sample_material_property degenerate_properties (fun _ => 1%nat) in
  let powder_after temperatures :=
    _state (update_sequence sample_constants mp0 sample_cells temperatures)
      (powder sample_constants) 0%nat in
  powder_after [] = Fin 0 /\
  powder_after [fun _ => Fin 1000] = NaN /\
  powder_after [fun _ => Fin 1000; fun _ => Fin 900] =~= Fin 1 /\
  ~ (exists p0 p2 : Q,
        powder_after [] = Fin p0 /\
        powder_after [fun _ => Fin 1000; fun _ => Fin 900] = Fin p2 /\
        p2 <= p0).
Proof.
  cbv zeta.
  assert (H0 : _state (update_sequence sample_constants
                  (sample_material_property degenerate_properties
                     (fun _ => 1%nat)) sample_cells [])
                 (powder sample_constants) 0%nat = Fin 0) by reflexivity.
  assert (H2 : _state (update_sequence sample_constants
                  (sample_material_property degenerate_properties
                     (fun _ => 1%nat)) sample_cells
                  [fun _ => Fin 1000; fun _ => Fin 900])
                 (powder sample_constants) 0%nat = Fin (1 + - 0)) by reflexivity.
  split; [exact H0|]. split; [reflexivity|]. split.
  - rewrite H2. simpl. lra.
  - intros (p0 & p2 & E0 & E2 & Hle).
    rewrite H0 in E0. rewrite H2 in E2.
    injection E0 as <-. injection E2 as <-. lra.
Qed.

(** ** The property values of a unit *)

Lemma in_mushy_zone_iff (liquid_ratio : double) :
  in_mushy_zone liquid_ratio = true <->
  exists q : Q, liquid_ratio = Fin q /\ 0 < q < 1.
Proof.
  unfold in_mushy_zone, dgt. rewrite andb_true_iff. split.
  - intros [H0 H1]. destruct liquid_ratio as [q| | |]; try discriminate.
    exists q. split; [reflexivity|].
    apply dlt_Fin in H0. apply dlt_Fin in H1. split; assumption.
  - intros (q & -> & H0 & H1). split; apply dlt_Fin; assumption.
Qed.

Lemma in_mushy_zone_boundary (liquid_ratio : double) :
  liquid_ratio =~= Fin 0 \/ liquid_ratio =~= Fin 1 ->
  in_mushy_zone liquid_ratio = false.
Proof.
  intros H. destruct (in_mushy_zone liquid_ratio) eqn:E; [|reflexivity].
  apply in_mushy_zone_iff in E. destruct E as (q & -> & H0 & H1).
  simpl in H. destruct H as [H | H]; lra.
Qed.

(** The property column of a cell after [update], in terms of the state
    column after [update]. *)
Lemma update_property_values_at_cell (K : Constants) (mp : MaterialProperty)
    (cells : list Cell) (temperature_average : View1 double) (k : nat)
    (cell : Cell) :
  enums_ok K = true ->
  NoDup (mp_dofs_of mp cells) ->
  nth_error cells k = Some cell ->
  let dof := _dofs_map mp (cell_mp_dof cell) in
  let mp' := update K mp cells temperature_average in
  forall property,
    _property_values mp' property dof =
    unit_property_values K (_use_table mp) (_state_property_tables mp)
      (_state_property_polynomials mp) (_properties mp)
      (fun state => _state mp' state dof)
      (cell_material_id cell) (temperature_average dof) 0
      (in_mushy_zone (_state mp' (liquid K) dof))
      (fun _ => Fin 0) property.
Proof.
  intros Hok Hnd Hk dof mp' property.
  pose proof (update_at_cell K mp cells temperature_average k cell Hnd Hk)
    as H.
  cbv zeta in H. fold dof in H. fold mp' in H.
  rewrite (proj2 (H property)).
  rewrite (proj1 (H (liquid K))), unit_fractions_liquid by exact Hok.
  apply unit_property_values_ext; [|reflexivity].
  intro s. symmetry. apply (proj1 (H s)).
Qed.

(** C6.  The latent-heat correction is applied exactly when the liquid
    ratio is strictly between 0 and 1: the specific-heat value of the
    cell is then the blended value plus the sum over the material
    states of [fraction * latent_heat / (liquidus - solidus)]; in every
    other case, in particular at a liquid ratio equal to 0 or to 1, it
    is the blended value and nothing is added. *)
Theorem update_mushy_zone_correction (K : Constants) (mp : MaterialProperty)
    (cells : list Cell) (temperature_average : View1 double) (k : nat)
    (cell : Cell) :
  enums_ok K = true ->
  NoDup (mp_dofs_of mp cells) ->
  nth_error cells k = Some cell ->
  let dof := _dofs_map mp (cell_mp_dof cell) in
  let material_id := cell_material_id cell in
  let mp' := update K mp cells temperature_average in
  let fraction := fun state => _state mp' state dof in
  let liquid_ratio := _state mp' (liquid K) dof in
  let latent_heat := _properties mp material_id (latent_heat_prop K) in
  let solidus := _properties mp material_id (prop_solidus K) in
  let liquidus := _properties mp material_id (prop_liquidus K) in
  let blended :=
    blended_property K (_use_table mp) (_state_property_tables mp)
      (_state_property_polynomials mp) fraction material_id
      (specific_heat_prop K) (temperature_average dof) (Fin 0) in
  let specific_heat := _property_values mp' (specific_heat_prop K) dof in
  ((exists q : Q, liquid_ratio = Fin q /\ 0 < q < 1) ->
   specific_heat =
   latent_heat_sum K fraction latent_heat solidus liquidus blended) /\
  (~ (exists q : Q, liquid_ratio = Fin q /\ 0 < q < 1) ->
   specific_heat = blended) /\
  (liquid_ratio =~= Fin 0 \/ liquid_ratio =~= Fin 1 ->
   specific_heat = blended) /\
  (g_n_material_states K = 3%nat ->
   latent_heat_sum K fraction latent_heat solidus liquidus blended =
   blended + fraction 0%nat * latent_heat / (liquidus - solidus)
           + fraction 1%nat * latent_heat / (liquidus - solidus)
           + fraction 2%nat * latent_heat / (liquidus - solidus)).
Proof.
  intros Hok Hnd Hk dof material_id mp' fraction liquid_ratio latent_heat
    solidus liquidus blended specific_heat.
  pose proof (update_property_values_at_cell K mp cells temperature_average k
                cell Hok Hnd Hk (specific_heat_prop K)) as H.
  cbv zeta in H.
  fold dof mp' in H. fold specific_heat liquid_ratio in H.
  unfold unit_property_values in H.
  destruct (enums_ok_elim K Hok) as (_ & _ & (_ & Hsr & _) & (Hsn & _ & _)).
  apply Nat.eqb_neq in Hsr. rewrite Hsr in H.
  rewrite Nat.eqb_refl, andb_true_r in H.
  apply Nat.ltb_lt in Hsn. rewrite Hsn in H. simpl in H.
  fold material_id fraction blended latent_heat solidus liquidus in H.
  repeat split.
  - intro Hq. apply in_mushy_zone_iff in Hq. rewrite Hq in H. exact H.
  - intro Hq. destruct (in_mushy_zone liquid_ratio) eqn:E.
    + apply in_mushy_zone_iff in E. contradiction.
    + exact H.
  - intro Hq. apply in_mushy_zone_boundary in Hq. rewrite Hq in H. exact H.
  - intro H3. unfold latent_heat_sum. rewrite H3. reflexivity.
Qed.

Lemma update_mushy_zone_correction_witness :
  let mp' :=
    update sample_constants
      (sample_material_property sample_properties (fun _ => 0%nat))
      sample_cells (fun _ => Fin 1050) in
  _state mp' (liquid sample_constants) 0%nat =~= Fin (1 # 2) /\
  _property_values mp' (specific_heat_prop sample_constants) 0%nat
  =~= Fin 25.
Proof.
  split; [vm_compute; reflexivity|].
  eapply deq_trans.
  - apply deq_of_eq.
    apply (proj1 (update_mushy_zone_correction sample_constants
                    (sample_material_property sample_properties
                       (fun _ => 0%nat))
                    sample_cells (fun _ => Fin 1050) 0
                    {| cell_material_id := 0; cell_mp_dof := 0 |}
                    eq_refl (sample_cells_NoDup _ _) eq_refl)).
    eexists. split; [reflexivity|]. split; reflexivity.
  - vm_compute. reflexivity.
Defined.

(** C8.  After [update], the radiation heat transfer coefficient of a
    locally owned cell is
    [emissivity * stefan_boltzmann * (T + T_infty) * (T^2 + T_infty^2)],
    where [emissivity] is the value blended over the material states by
    the accumulation step (and stored as the emissivity of the cell),
    [T] the averaged temperature of the cell and [T_infty] the ambient
    temperature of its material.  The coefficient is assigned: neither
    the previous contents of the block nor the curve stored under the
    index of the coefficient contribute to it. *)
Theorem update_radiation_heat_transfer_coef (K : Constants)
    (mp : MaterialProperty) (cells : list Cell)
    (temperature_average : View1 double) (k : nat) (cell : Cell) :
  enums_ok K = true ->
  NoDup (mp_dofs_of mp cells) ->
  nth_error cells k = Some cell ->
  let dof := _dofs_map mp (cell_mp_dof cell) in
  let material_id := cell_material_id cell in
  let mp' := update K mp cells temperature_average in
  let fraction := fun state => _state mp' state dof in
  let T := temperature_average dof in
  let T_infty :=
    _properties mp material_id (radiation_temperature_infty_prop K) in
  let emissivity :=
    blended_property K (_use_table mp) (_state_property_tables mp)
      (_state_property_polynomials mp) fraction material_id
      (emissivity_prop K) T (Fin 0) in
  _property_values mp' (emissivity_prop K) dof = emissivity /\
  _property_values mp' (radiation_heat_transfer_coef_prop K) dof =
  emissivity * stefan_boltzmann K * (T + T_infty) *
  (T * T + T_infty * T_infty).
Proof.
  intros Hok Hnd Hk dof material_id mp' fraction T T_infty emissivity.
  pose proof (update_property_values_at_cell K mp cells temperature_average k
                cell Hok Hnd Hk) as H.
  cbv zeta in H. fold dof mp' in H.
  destruct (enums_ok_elim K Hok) as (_ & _ & (Hse & _ & Her) & (_ & Hen & _)).
  assert (E1 : (emissivity_prop K =? radiation_heat_transfer_coef_prop K)%nat
               = false) by (apply Nat.eqb_neq; exact Her).
  assert (E2 : (emissivity_prop K =? specific_heat_prop K)%nat = false)
    by (apply Nat.eqb_neq; intro; apply Hse; symmetry; assumption).
  assert (E3 : (emissivity_prop K <? g_n_thermal_state_properties K)%nat
               = true) by (apply Nat.ltb_lt; exact Hen).
  split.
  - rewrite H. unfold unit_property_values.
    rewrite E1, E2, E3, andb_false_r. reflexivity.
  - rewrite H. unfold unit_property_values.
    rewrite Nat.eqb_refl, E2, E3, andb_false_r. reflexivity.
Qed.

Lemma update_radiation_heat_transfer_coef_witness :
  let mp' :=
    update sample_constants
      (sample_material_property sample_properties (fun _ => 0%nat))
      sample_cells (fun _ => Fin 1050) in
  _property_values mp'
    (radiation_heat_transfer_coef_prop sample_constants) 0%nat
  =~= Fin (20 * (5670374419 # 100000000000000000) * (1050 + 300) *
           (1050 * 1050 + 300 * 300)).
Proof.
  eapply deq_trans.
  - apply deq_of_eq.
    apply (proj2 (update_radiation_heat_transfer_coef sample_constants
                    (sample_material_property sample_properties
                       (fun _ => 0%nat))
                    sample_cells (fun _ => Fin 1050) 0
                    {| cell_material_id := 0; cell_mp_dof := 0 |}
                    eq_refl (sample_cells_NoDup _ _) eq_refl)).
  - vm_compute. reflexivity.
Defined.

(** The scenario of the specification: emissivity 0.8, [T = 1000],
    [T_infty = 300]. *)
Lemma radiation_coefficient_scenario (K : Constants) (sigma : Q) :
  stefan_boltzmann K = Fin sigma ->
  radiation_coefficient K (fun _ _ => Fin 300) 0 0 (Fin 1000)
    (fun _ _ => Fin (8 # 10)) (radiation_heat_transfer_coef_prop K) 0%nat
  =~= Fin ((8 # 10) * sigma * 1300 * 1090000).
Proof.
  intro H. unfold radiation_coefficient. rewrite set2_eq, H. simpl. ring.
Qed.

(** ** The boundary entry point *)

Lemma fold_left_invariant {A B : Type} (P : A -> Prop) (f : A -> B -> A)
    (l : list B) :
  forall a, P a -> (forall a x, In x l -> P a -> P (f a x)) ->
            P (fold_left f l a).
Proof.
  induction l as [|x l IH]; intros a Ha Hf; simpl; [exact Ha|].
  apply IH.
  - apply Hf; [left; reflexivity | exact Ha].
  - intros a' x' Hin. apply Hf. right. exact Hin.
Qed.

(** C10.  [update_boundary_material_properties] leaves the state block
    as it is, and it zeroes the whole property block before it
    accumulates the properties of index 3 and above and derives the
    radiation coefficient: after the call the property values of index
    0, 1 and 2 are 0 for every unit, and so is every value of a unit
    that is not locally owned.  The enumerator of the radiation
    coefficient, declared in [types.hh], is assumed to be at least 3. *)
Theorem update_boundary_material_properties_frame (K : Constants)
    (mp : MaterialProperty) (cells : list Cell)
    (temperature_average : View1 double) :
  (3 <= radiation_heat_transfer_coef_prop K)%nat ->
  let mp' := update_boundary_material_properties K mp cells
               temperature_average in
  _state mp' = _state mp /\
  (forall property dof,
      (property < 3)%nat -> _property_values mp' property dof = Fin 0) /\
  (forall property dof,
      ~ In dof (mp_dofs_of mp cells) ->
      _property_values mp' property dof = Fin 0).
Proof.
  intros Hrad mp'. split; [reflexivity|].
  unfold mp', update_boundary_material_properties. simpl.
  apply (fold_left_invariant
           (fun pv : View2 =>
              (forall property dof, (property < 3)%nat ->
                                    pv property dof = Fin 0) /\
              (forall property dof, ~ In dof (mp_dofs_of mp cells) ->
                                    pv property dof = Fin 0))).
  - split; intros; reflexivity.
  - intros pv cell Hin [H1 H2]. unfold radiation_coefficient, set2.
    split; intros property dof Hp.
    + destruct (Nat.eqb_spec property (radiation_heat_transfer_coef_prop K));
        [lia|]. simpl.
      rewrite accumulate_properties_at.
      destruct (Nat.leb_spec 3 property); [lia|]. simpl.
      apply H1. exact Hp.
    + assert (Hne : dof <> _dofs_map mp (cell_mp_dof cell)).
      { intros ->. apply Hp. unfold mp_dofs_of.
        apply (in_map (fun cell => _dofs_map mp (cell_mp_dof cell))).
        exact Hin. }
      apply Nat.eqb_neq in Hne. rewrite Hne, !andb_false_r.
      rewrite accumulate_properties_at, Hne, !andb_false_r.
      apply H2. exact Hp.
Qed.

Lemma update_boundary_material_properties_frame_witness :
  (3 <= radiation_heat_transfer_coef_prop sample_constants)%nat /\
  let mp :=
    update sample_constants
      (sample_material_property sample_properties (fun _ => 0%nat))
      sample_cells (fun _ => Fin 1050) in
  let mp' :=
    update_boundary_material_properties sample_constants mp sample_cells
      (fun _ => Fin 1050) in
  _property_values mp (specific_heat_prop sample_constants) 0%nat =~= Fin 25 /\
  _property_values mp' (specific_heat_prop sample_constants) 0%nat = Fin 0 /\
  _state mp' = _state mp.
Proof.
  assert (H3 : (3 <= radiation_heat_transfer_coef_prop sample_constants)%nat)
    by (simpl; lia).
  split; [exact H3|]. cbv zeta.
  split; [vm_compute; reflexivity|].
  pose proof (update_boundary_material_properties_frame sample_constants
                (update sample_constants
                   (sample_material_property sample_properties
                      (fun _ => 0%nat))
                   sample_cells (fun _ => Fin 1050))
                sample_cells (fun _ => Fin 1050) H3) as H.
  cbv zeta in H. destruct H as (Hs & Hp & _).
  split; [|exact Hs].
  apply Hp. simpl. lia.
Defined.

(** ** The table evaluator *)

Section TableFacts.

Variable bp : nat -> double.
Variable T : double.

Lemma scan_table_bounds :
  forall count i, (i <= scan_table bp T count i <= i + count)%nat.
Proof.
  induction count as [|count IH]; intros i; simpl; [lia|].
  destruct (T <? bp i); [lia|]. specialize (IH (S i)). lia.
Qed.

(** The scan returns the first index whose breakpoint is above [T]. *)
Lemma scan_table_first :
  forall count i n,
    (forall j, (i <= j < n)%nat -> (T <? bp j) = false) ->
    (T <? bp n) = true -> (i <= n < i + count)%nat ->
    scan_table bp T count i = n.
Proof.
  induction count as [|count IH]; intros i n Hbelow Hn Hrange; simpl; [lia|].
  destruct (Nat.eq_dec i n) as [->|Hne].
  - rewrite Hn. reflexivity.
  - rewrite (Hbelow i) by lia. apply IH; [|exact Hn|lia].
    intros j Hj. apply Hbelow. lia.
Qed.

Lemma find_scan_table :
  forall count i,
    find (fun i => T <? bp i) (seq i count) =
    if (scan_table bp T count i <? i + count)%nat
    then Some (scan_table bp T count i) else None.
Proof.
  induction count as [|count IH]; intros i; simpl.
  - nat_cases.
  - destruct (T <? bp i).
    + nat_cases.
    + rewrite IH. rewrite Nat.add_succ_r. reflexivity.
Qed.

End TableFacts.

(** The evaluator is the one of the specification. *)
Lemma compute_property_from_table_refines (tv : TablesView)
    (material_id material_state property : nat) (T : double) :
  compute_property_from_table tv material_id material_state property T =
  table_evaluator_spec (tv material_id material_state property) (extent3 tv) T.
Proof.
  unfold compute_property_from_table, table_evaluator_spec, first_index_above.
  destruct (T <=? tv material_id material_state property 0%nat 0%nat);
    [reflexivity|].
  rewrite find_scan_table. simpl.
  pose proof (scan_table_bounds
                (fun i => tv material_id material_state property i 0%nat) T
                (extent3 tv) 0) as Hb.
  simpl in Hb.
  set (i := scan_table _ T (extent3 tv) 0) in *.
  destruct (Nat.ltb_spec i (extent3 tv)).
  - destruct (Nat.leb_spec (extent3 tv - 1) i);
      destruct (Nat.eqb_spec i (extent3 tv - 1)); try lia; reflexivity.
  - destruct (Nat.leb_spec (extent3 tv - 1) i); [reflexivity|lia].
Qed.

Section Breakpoints.

Variable tv : TablesView.
Variables material_id material_state property : nat.
Variables b v : nat -> Q.
Variable k : nat.

Let view := tv material_id material_state property.

(** The entries up to [k + 1] are finite, with strictly ascending
    breakpoints. *)
Hypothesis Hfinite :
  forall i, (i <= k + 1)%nat ->
            view i 0%nat = Fin (b i) /\ view i 1%nat = Fin (v i).
Hypothesis Hascending : forall i, (i <= k)%nat -> b i < b (S i).
Hypothesis Hk : (1 <= k)%nat.

Lemma breakpoint_at (i : nat) : (i <= k + 1)%nat -> view i 0%nat = Fin (b i).
Proof. intro H. apply (proj1 (Hfinite i H)). Qed.

Lemma value_at (i : nat) : (i <= k + 1)%nat -> view i 1%nat = Fin (v i).
Proof. intro H. apply (proj2 (Hfinite i H)). Qed.

Lemma breakpoints_increasing :
  forall j i, (i < j)%nat -> (j <= k + 1)%nat -> b i < b j.
Proof.
  induction j as [|j IH]; intros i Hij Hj; [lia|].
  destruct (Nat.eq_dec i j) as [->|Hne].
  - apply Hascending. lia.
  - apply Qlt_trans with (b j).
    + apply IH; lia.
    + apply Hascending. lia.
Qed.

Lemma scan_at_breakpoint :
  (k + 1 < extent3 tv)%nat ->
  scan_table (fun i => view i 0%nat) (Fin (b k)) (extent3 tv) 0 = (k + 1)%nat.
Proof.
  intro Hsize. apply scan_table_first.
  - intros j Hj. rewrite breakpoint_at by lia.
    apply dlt_Fin_false.
    destruct (Nat.eq_dec j k) as [->|Hne]; [lra|].
    apply Qlt_le_weak. apply breakpoints_increasing; lia.
  - rewrite breakpoint_at by lia.
    apply dlt_Fin. apply breakpoints_increasing; lia.
  - lia.
Qed.

Lemma not_left_clamped :
  (Fin (b k) <=? view 0%nat 0%nat) = false.
Proof.
  rewrite breakpoint_at by lia.
  destruct (Fin (b k) <=? Fin (b 0%nat)) eqn:E; [|reflexivity].
  apply dle_Fin in E.
  assert (b 0%nat < b k) by (apply breakpoints_increasing; lia). lra.
Qed.

(** At a breakpoint whose successor is not the last index, the segment
    that starts there is interpolated at its left end. *)
Lemma evaluate_at_interior_breakpoint :
  (k + 1 < extent3 tv - 1)%nat ->
  compute_property_from_table tv material_id material_state property
    (Fin (b k)) =~= Fin (v k).
Proof.
  intro Hsize. unfold compute_property_from_table. cbv zeta.
  change (tv material_id material_state property) with view.
  rewrite not_left_clamped, !scan_at_breakpoint by lia.
  destruct (Nat.leb_spec (extent3 tv - 1) (k + 1)); [lia|].
  cbv beta iota zeta.
  replace (k + 1 - 1)%nat with k by lia.
  rewrite !breakpoint_at, !value_at by lia.
  assert (Hlt : b k < b (k + 1)%nat) by (apply breakpoints_increasing; lia).
  rewrite !dsub_Fin, dmul_Fin, ddiv_Fin, dadd_Fin by lra.
  simpl. field. lra.
Qed.

(** At the breakpoint before the last index, the right clamp returns the
    last value. *)
Lemma evaluate_at_last_interior_breakpoint :
  (k + 1 = extent3 tv - 1)%nat ->
  compute_property_from_table tv material_id material_state property
    (Fin (b k)) = Fin (v (k + 1)%nat).
Proof.
  intro Hsize. unfold compute_property_from_table. cbv zeta.
  change (tv material_id material_state property) with view.
  rewrite not_left_clamped, !scan_at_breakpoint by lia.
  destruct (Nat.leb_spec (extent3 tv - 1) (k + 1)); [|lia].
  cbv beta iota zeta.
  rewrite <- Hsize. apply value_at. lia.
Qed.

End Breakpoints.

(** The table ["0,10;100,20;200,20"] in a block of any capacity. *)
Lemma evaluate_scenario_table (tv : TablesView)
    (material_id material_state property : nat) :
  let view := tv material_id material_state property in
  (3 <= extent3 tv)%nat ->
  view 0%nat 0%nat = Fin 0 -> view 0%nat 1%nat = Fin 10 ->
  view 1%nat 0%nat = Fin 100 -> view 1%nat 1%nat = Fin 20 ->
  view 2%nat 0%nat = Fin 200 -> view 2%nat 1%nat = Fin 20 ->
  compute_property_from_table tv material_id material_state property (Fin 150)
  =~= Fin 20 /\
  compute_property_from_table tv material_id material_state property (Fin 50)
  =~= Fin 15.
Proof.
  intros view Hsize H00 H01 H10 H11 H20 H21.
  unfold compute_property_from_table. cbv zeta.
  change (tv material_id material_state property) with view.
  destruct (extent3 tv) as [|[|[|n]]] eqn:E; try lia.
  rewrite H00.
  change (Fin 150 <=? Fin 0) with false. change (Fin 50 <=? Fin 0) with false.
  cbv beta iota.
  unfold scan_table. rewrite H00, H10, H20.
  change (Fin 150 <? Fin 0) with false. change (Fin 150 <? Fin 100) with false.
  change (Fin 150 <? Fin 200) with true.
  change (Fin 50 <? Fin 0) with false. change (Fin 50 <? Fin 100) with true.
  cbv beta iota.
  change (2 - 1)%nat with 1%nat. change (1 - 1)%nat with 0%nat.
  change (S (S (S n)) - 1)%nat with (S (S n)).
  change (S (S n) <=? 1)%nat with false.
  rewrite H00, H01, H10, H11, H20, H21.
  split.
  - destruct n as [|n].
    + change (2 <=? 2)%nat with true. cbv beta iota. rewrite H21. reflexivity.
    + change (S (S (S n)) <=? 2)%nat with false. vm_compute. reflexivity.
  - vm_compute. reflexivity.
Qed.

(** C5 (amended).  [compute_property_from_table] is the evaluator of the
    specification: left clamp at the first breakpoint, scan for the
    first breakpoint above [T], last value if there is none or if it is
    the last index, interpolation on the segment that ends there
    otherwise.  For strictly ascending breakpoints, evaluating at an
    interior breakpoint returns the value of that breakpoint when the
    next index is not the last one; at the breakpoint before the last
    index the right clamp returns the last value.  For the table
    ["0,10;100,20;200,20"] the evaluation returns 20 at [T = 150] and
    15 at [T = 50]. *)
Theorem compute_property_from_table_correct :
  (forall (tv : TablesView) (material_id material_state property : nat)
          (T : double),
      compute_property_from_table tv material_id material_state property T =
      table_evaluator_spec (tv material_id material_state property)
        (extent3 tv) T) /\
  (forall (tv : TablesView) (material_id material_state property : nat)
          (b v : nat -> Q) (k : nat),
      (forall i, (i <= k + 1)%nat ->
                 tv material_id material_state property i 0%nat = Fin (b i) /\
                 tv material_id material_state property i 1%nat = Fin (v i)) ->
      (forall i, (i <= k)%nat -> b i < b (S i)) ->
      (1 <= k)%nat ->
      ((k + 1 < extent3 tv - 1)%nat ->
       compute_property_from_table tv material_id material_state property
         (Fin (b k)) =~= Fin (v k)) /\
      ((k + 1 = extent3 tv - 1)%nat ->
       compute_property_from_table tv material_id material_state property
         (Fin (b k)) = Fin (v (k + 1)%nat))) /\
  (compute_property_from_table sample_tables 0 0 0 (Fin 150) =~= Fin 20 /\
   compute_property_from_table sample_tables 0 0 0 (Fin 50) =~= Fin 15).
Proof.
  split; [exact compute_property_from_table_refines|]. split.
  - intros tv material_id material_state property b v k Hfin Hasc Hk. split.
    + apply evaluate_at_interior_breakpoint; assumption.
    + apply evaluate_at_last_interior_breakpoint; assumption.
  - apply evaluate_scenario_table; try reflexivity. simpl. lia.
Qed.

Lemma compute_property_from_table_correct_witness :
  compute_property_from_table sample_tables 0 0 0 (Fin 100) =~= Fin 20.
Proof.
  pose (b := fun i : nat =>
               match i with 0%nat => 0%Q | 1%nat => 100%Q | _ => 200%Q end).
  pose (v := fun i : nat => match i with 0%nat => 10%Q | _ => 20%Q end).
  refine (proj1 (proj1 (proj2 compute_property_from_table_correct)
                   sample_tables 0%nat 0%nat 0%nat b v 1%nat _ _ _) _).
  - intros [|[|[|i]]] Hi; try (simpl in Hi; lia); split; reflexivity.
  - intros [|[|i]] Hi; try (simpl in Hi; lia); reflexivity.
  - apply le_n.
  - vm_compute. reflexivity.
Defined.

(** The block is filled by four strictly ascending breakpoints; at the
    interior breakpoint 200, of value 30, the evaluator returns the
    last value, 40. *)
Lemma compute_property_from_table_counterexample :
  let view := full_tables 0%nat 0%nat 0%nat in
  extent3 full_tables = 4%nat /\
  (view 0%nat 0%nat <? view 1%nat 0%nat) = true /\
  (view 1%nat 0%nat <? view 2%nat 0%nat) = true /\
  (view 2%nat 0%nat <? view 3%nat 0%nat) = true /\
  view 2%nat 0%nat = Fin 200 /\ view 2%nat 1%nat = Fin 30 /\
  compute_property_from_table full_tables 0 0 0 (Fin 200) = Fin 40 /\
  ~ (compute_property_from_table full_tables 0 0 0 (view 2%nat 0%nat)
     =~= view 2%nat 1%nat).
Proof.
  cbv zeta. repeat split; try reflexivity.
  vm_compute. intro H. discriminate H.
Qed.

(** ** Reading a property *)

Section ReadProperty.

Variable K : Constants.
Variable stod : string -> option double.

Lemma fill_table_pairs_what (material_id state p : nat) :
  forall parsed_property i blocks what,
    fill_table_pairs K stod material_id state p parsed_property i blocks
    = Throw what ->
    what = "Error reading material property."%string \/ what = "stod"%string.
Proof.
  induction parsed_property as [|entry rest IH]; intros i blocks what H;
    simpl in H; [discriminate|].
  unfold ASSERT in H.
  destruct (List.length (split "," entry) =? 2)%nat.
  - destruct ((p <? g_n_thermal_state_properties K)%nat
              || (state =? solid K)%nat); [|eapply IH; exact H].
    destruct (stod (nth 0 (split "," entry) EmptyString));
      [|right; congruence].
    destruct (stod (nth 1 (split "," entry) EmptyString));
      [|right; congruence].
    eapply IH. exact H.
  - left. congruence.
Qed.

Lemma fill_polynomial_coefficients_what (material_id state p : nat) :
  forall parsed_property i blocks what,
    fill_polynomial_coefficients K stod material_id state p parsed_property i
      blocks = Throw what ->
    what = "stod"%string.
Proof.
  induction parsed_property as [|c rest IH]; intros i blocks what H;
    simpl in H; [discriminate|].
  destruct (stod c); [|congruence].
  eapply IH. exact H.
Qed.

(** A table is refused for its size exactly when it has more pairs than
    [table_size]. *)
Lemma read_table_capacity (material_id state p : nat) (property : string)
    (blocks : HostBlocks) :
  read_state_property K stod true material_id state p property blocks
  = Throw "Too many coefficients, increase the table size" <->
  (table_size K < List.length (split ";" (remove_spaces property)))%nat.
Proof.
  unfold read_state_property, ASSERT_THROW.
  destruct (Nat.leb_spec (List.length (split ";" (remove_spaces property)))
              (table_size K)) as [Hle | Hlt].
  - split; [|lia]. intro H.
    destruct (fill_table_pairs K stod material_id state p
                (split ";" (remove_spaces property)) 0 blocks) as [b|what]
      eqn:E; [discriminate|].
    apply fill_table_pairs_what in E. injection H as H.
    destruct E as [E | E]; rewrite E in H; discriminate.
  - split; [intros _; exact Hlt | reflexivity].
Qed.

(** A polynomial is refused for its size exactly when it has more
    coefficients than [polynomial_order]. *)
Lemma read_polynomial_capacity (material_id state p : nat) (property : string)
    (blocks : HostBlocks) :
  read_state_property K stod false material_id state p property blocks
  = Throw "Too many coefficients, increase the polynomial order" <->
  (polynomial_order K < List.length (split "," (remove_spaces property)))%nat.
Proof.
  unfold read_state_property, ASSERT_THROW.
  destruct (Nat.leb_spec (List.length (split "," (remove_spaces property)))
              (polynomial_order K)) as [Hle | Hlt].
  - split; [|lia]. intro H.
    apply fill_polynomial_coefficients_what in H. discriminate.
  - split; [intros _; exact Hlt | reflexivity].
Qed.

End ReadProperty.

Lemma remove_spaces_idempotent (s : string) :
  remove_spaces (remove_spaces s) = remove_spaces s.
Proof.
  induction s as [|c s IH]; simpl; [reflexivity|].
  destruct (isspace c) eqn:E; [exact IH|].
  simpl. rewrite E, IH. reflexivity.
Qed.

(** Blank characters do not count: a property is read as its
    space-free form. *)
Lemma read_state_property_ignores_spaces (K : Constants)
    (stod : string -> option double) (use_table : bool)
    (material_id state p : nat) (property : string) (blocks : HostBlocks) :
  read_state_property K stod use_table material_id state p
    (remove_spaces property) blocks =
  read_state_property K stod use_table material_id state p property blocks.
Proof.
  unfold read_state_property. rewrite remove_spaces_idempotent. reflexivity.
Qed.

(** C7.  The capacity check of the polynomial format is off by one.
    The coefficient blocks have [polynomial_order + 1] slots per curve
    and the kernel sums [polynomial_order + 1] terms, but a property
    with exactly [polynomial_order + 1] coefficients, which fills these
    slots, is refused with "Too many coefficients". *)
Theorem read_polynomial_rejects_full_order (K : Constants)
    (stod : string -> option double) (material_id state p : nat)
    (property : string) (blocks : HostBlocks) :
  List.length (split "," (remove_spaces property)) = (polynomial_order K + 1)%nat ->
  read_state_property K stod false material_id state p property blocks
  = Throw "Too many coefficients, increase the polynomial order".
Proof.
  intro H. apply read_polynomial_capacity. rewrite H. lia.
Qed.

Lemma read_polynomial_rejects_full_order_witness :
  List.length (split "," (remove_spaces "1, 2, 3, 4, 5"))
  = (polynomial_order sample_constants + 1)%nat /\
  read_state_property sample_constants stod_decimal false 0 0 0
    "1, 2, 3, 4, 5" (zero_blocks sample_constants)
  = Throw "Too many coefficients, increase the polynomial order".
Proof.
  split; [reflexivity|].
  apply (read_polynomial_rejects_full_order sample_constants stod_decimal
           0 0 0 "1, 2, 3, 4, 5" (zero_blocks sample_constants)).
  reflexivity.
Defined.

(** ** Activation of the mechanical cells *)

Lemma nth_error_map_some {A B : Type} (f : A -> B) (l : list A) (k : nat)
    (x : A) :
  nth_error l k = Some x -> nth_error (map f l) k = Some (f x).
Proof.
  revert k. induction l as [|a l IH]; intros [|k] H; simpl in *;
    try discriminate.
  - congruence.
  - apply IH. exact H.
Qed.

(** C9 (amended).  On every [setup_dofs] pass a locally owned cell gets
    the active FE index 0 exactly when its solid ratio exceeds 0.99 and
    its thermal cell is active (index 0); every other cell gets the
    index 1 when the thermal index is 0 or 1.  On the pass of the
    constructor the thermal cell is not consulted: the cell gets the
    index 0 exactly when its solid ratio exceeds 0.99, and 1
    otherwise. *)
Theorem active_fe_index_rule (cells : list MechanicalCell) (k : nat)
    (cell : MechanicalCell) :
  nth_error cells k = Some cell ->
  let solid_enough := solid_state_ratio cell >? Fin (99 # 100) in
  let thermal_active := (thermal_active_fe_index cell =? 0)%nat in
  (nth_error (active_fe_indices SetupDofs cells) k = Some 0%nat <->
   solid_enough = true /\ thermal_active = true) /\
  ((thermal_active_fe_index cell <= 1)%nat ->
   nth_error (active_fe_indices SetupDofs cells) k =
   Some (if solid_enough && thermal_active then 0%nat else 1%nat)) /\
  nth_error (active_fe_indices Construction cells) k =
  Some (if solid_enough then 0%nat else 1%nat).
Proof.
  intros Hk solid_enough thermal_active.
  unfold active_fe_indices, setup_dofs_active_fe_indices,
    constructor_active_fe_indices.
  erewrite !nth_error_map_some by exact Hk.
  fold solid_enough. unfold thermal_active.
  destruct solid_enough; simpl.
  - repeat split.
    + injection H as ->. reflexivity.
    + intros [_ H]. apply Nat.eqb_eq in H. rewrite H. reflexivity.
    + intro Hle. destruct (thermal_active_fe_index cell) as [|[|n]];
        try reflexivity. lia.
  - repeat split; try discriminate.
    intros [H _]. discriminate.
Qed.

Lemma active_fe_index_rule_witness :
  let cells :=
    [ {| solid_state_ratio := Fin 1; thermal_active_fe_index := 0 |};
      {| solid_state_ratio := Fin 1; thermal_active_fe_index := 1 |};
      {| solid_state_ratio := Fin (1 # 2); thermal_active_fe_index := 0 |} ] in
  active_fe_indices SetupDofs cells = [0; 1; 1]%nat /\
  nth_error (active_fe_indices Construction cells) 1 = Some 0%nat.
Proof.
  split; [reflexivity|].
  exact (proj2 (proj2 (active_fe_index_rule
                         [ {| solid_state_ratio := Fin 1;
                              thermal_active_fe_index := 0 |};
                           {| solid_state_ratio := Fin 1;
                              thermal_active_fe_index := 1 |};
                           {| solid_state_ratio := Fin (1 # 2);
                              thermal_active_fe_index := 0 |} ] 1
                         {| solid_state_ratio := Fin 1;
                            thermal_active_fe_index := 1 |} eq_refl))).
Defined.

(** A solid cell whose thermal cell is inactive: the constructor gives
    it the index 0, where the rule "solid ratio above 0.99 and thermal
    cell active, otherwise FE_Nothing" asks for 1. *)
Lemma active_fe_index_counterexample :
  let cell := {| solid_state_ratio := Fin 1; thermal_active_fe_index := 1 |} in
  (solid_state_ratio cell >? Fin (99 # 100)) = true /\
  (thermal_active_fe_index cell =? 0)%nat = false /\
  active_fe_indices Construction [cell] = [0%nat] /\
  active_fe_indices Construction [cell] <>
  [if (solid_state_ratio cell >? Fin (99 # 100))
      && (thermal_active_fe_index cell =? 0)%nat
   then 0%nat else 1%nat].
Proof.
  cbv zeta. repeat split; try reflexivity. simpl. discriminate.
Qed.

(* ================================================================== *)
(** * Further properties of the code *)

(** ** Rounding to binary64 *)

Section Rounding.

Local Open Scope Q_scope.

Lemma two_pow_pos (z : Z) : 0 < 2 ^ z.
Proof. apply Qpower_0_lt. lra. Qed.

Lemma two_pow_Z (n : Z) : (0 <= n)%Z -> 2 ^ n == inject_Z (2 ^ n).
Proof. intro H. symmetry. apply (Zpower_Qpower 2 n H). Qed.

Lemma two_pow_le (n m : Z) : (n <= m)%Z -> 2 ^ n <= 2 ^ m.
Proof. intro H. apply Qpower_le_compat_l; [exact H | lra]. Qed.

Lemma two_pow_lt (n m : Z) : (n < m)%Z -> 2 ^ n < 2 ^ m.
Proof. intro H. apply Qpower_lt_compat_l; [exact H | lra]. Qed.

Lemma Qlog2_spec (a : Q) :
  0 < a -> 2 ^ Qlog2 a <= a /\ a < 2 ^ (Qlog2 a + 1).
Proof.
  intro Ha. destruct a as [n d].
  assert (Hn : (0 < n)%Z).
  { unfold Qlt in Ha. simpl in Ha. lia. }
  unfold Qlog2. cbn [Qnum Qden].
  set (ln := Z.log2 n). set (ld := Z.log2 (Z.pos d)).
  destruct (Z.log2_spec n Hn) as [Hn1 Hn2]. fold ln in Hn1, Hn2.
  destruct (Z.log2_spec (Z.pos d) (Pos2Z.is_pos d)) as [Hd1 Hd2].
  fold ld in Hd1, Hd2.
  assert (Hln : (0 <= ln)%Z) by apply Z.log2_nonneg.
  assert (Hld : (0 <= ld)%Z) by apply Z.log2_nonneg.
  set (N := inject_Z n). set (D := inject_Z (Z.pos d)).
  assert (HaD : (n # d) * D == N).
  { unfold N, D. rewrite (Qmake_Qdiv n d). field.
    unfold Qeq. simpl. lia. }
  assert (HD : 0 < D) by (unfold D, Qlt; simpl; lia).
  assert (QN1 : 2 ^ ln <= N).
  { rewrite two_pow_Z by lia. unfold N. rewrite <- Zle_Qle. exact Hn1. }
  assert (QN2 : N < 2 ^ (ln + 1)).
  { rewrite two_pow_Z by lia. unfold N. rewrite <- Zlt_Qlt. exact Hn2. }
  assert (QD1 : 2 ^ ld <= D).
  { rewrite two_pow_Z by lia. unfold D. rewrite <- Zle_Qle. exact Hd1. }
  assert (QD2 : D < 2 ^ (ld + 1)).
  { rewrite two_pow_Z by lia. unfold D. rewrite <- Zlt_Qlt. exact Hd2. }
  set (k := (ln - ld)%Z).
  assert (Hup : (n # d) < 2 ^ (k + 1)).
  { apply Qmult_lt_r with (z := D); [exact HD|]. rewrite HaD.
    apply Qlt_le_trans with (1 := QN2).
    assert (E : 2 ^ (ln + 1) == 2 ^ (k + 1) * 2 ^ ld).
    { rewrite <- Qpower_plus by lra.
      replace (k + 1 + ld)%Z with (ln + 1)%Z by (unfold k; lia). reflexivity. }
    rewrite E.
    apply Qmult_le_l; [apply two_pow_pos | exact QD1]. }
  assert (Hlo : 2 ^ (k - 1) < (n # d)).
  { apply Qmult_lt_r with (z := D); [exact HD|]. rewrite HaD.
    apply Qlt_le_trans with (2 := QN1).
    assert (E : 2 ^ ln == 2 ^ (k - 1) * 2 ^ (ld + 1)).
    { rewrite <- Qpower_plus by lra.
      replace (k - 1 + (ld + 1))%Z with ln by (unfold k; lia). reflexivity. }
    rewrite E.
    apply Qmult_lt_l; [apply two_pow_pos | exact QD2]. }
  destruct (Qle_bool (2 ^ k) (n # d)) eqn:E.
  - apply Qle_bool_iff in E. split; assumption.
  - split; [apply Qlt_le_weak; exact Hlo|].
    replace (k - 1 + 1)%Z with k by lia.
    apply Qnot_le_lt. intro H. apply Qle_bool_iff in H. congruence.
Qed.

Lemma Qlog2_mono (a b : Q) : 0 < a -> a <= b -> (Qlog2 a <= Qlog2 b)%Z.
Proof.
  intros Ha Hab.
  destruct (Qlog2_spec a Ha) as [A1 _].
  destruct (Qlog2_spec b) as [_ B2]; [lra|].
  assert (H : 2 ^ Qlog2 a < 2 ^ (Qlog2 b + 1)) by lra.
  apply Qpower_lt_compat_l_inv in H; [lia | lra].
Qed.

Lemma Qlog2_lt (a : Q) (k : Z) : 0 < a -> a < 2 ^ k -> (Qlog2 a < k)%Z.
Proof.
  intros Ha H. destruct (Qlog2_spec a Ha) as [A1 _].
  assert (H' : 2 ^ Qlog2 a < 2 ^ k) by lra.
  apply Qpower_lt_compat_l_inv in H'; [lia | lra].
Qed.

Lemma Qlog2_ge (a : Q) (k : Z) : 2 ^ k <= a -> (k <= Qlog2 a)%Z.
Proof.
  intros H. assert (Ha : 0 < a) by (pose proof (two_pow_pos k); lra).
  destruct (Qlog2_spec a Ha) as [_ A2].
  assert (H' : 2 ^ k < 2 ^ (Qlog2 a + 1)) by lra.
  apply Qpower_lt_compat_l_inv in H'; [lia | lra].
Qed.

Lemma rne_bounds (m : Q) :
  m - (1 # 2) <= inject_Z (rne m) /\ inject_Z (rne m) <= m + (1 # 2).
Proof.
  unfold rne. cbv zeta.
  pose proof (Qfloor_le m) as H1. pose proof (Qlt_floor m) as H2.
  rewrite inject_Z_plus in H2. change (inject_Z 1) with 1 in H2.
  destruct (Qcompare (m - inject_Z (Qfloor m)) (1 # 2)) eqn:E.
  - apply Qeq_alt in E.
    destruct (Z.even (Qfloor m)).
    + split; lra.
    + rewrite inject_Z_plus. change (inject_Z 1) with 1. split; lra.
  - apply Qlt_alt in E. split; lra.
  - apply Qgt_alt in E. rewrite inject_Z_plus. change (inject_Z 1) with 1.
    split; lra.
Qed.

Lemma rne_comp (m1 m2 : Q) : m1 == m2 -> rne m1 = rne m2.
Proof.
  intro H. unfold rne. cbv zeta.
  rewrite (Qfloor_comp m1 m2 H).
  assert (E : Qcompare (m1 - inject_Z (Qfloor m2)) (1 # 2) =
              Qcompare (m2 - inject_Z (Qfloor m2)) (1 # 2)).
  { apply Qcompare_comp; [rewrite H; reflexivity | reflexivity]. }
  rewrite E. reflexivity.
Qed.

Lemma rne_Z (z : Z) : rne (inject_Z z) = z.
Proof.
  unfold rne. cbv zeta. rewrite Qfloor_Z.
  assert (E : Qcompare (inject_Z z - inject_Z z) (1 # 2) = Lt).
  { apply (proj1 (Qlt_alt _ _)). set (q := inject_Z z). lra. }
  rewrite E. reflexivity.
Qed.

Lemma rne_mono (m1 m2 : Q) : m1 <= m2 -> (rne m1 <= rne m2)%Z.
Proof.
  intro H.
  destruct (Z.le_gt_cases (rne m1) (rne m2)) as [L|G]; [exact L|].
  exfalso.
  destruct (rne_bounds m1) as [_ U1]. destruct (rne_bounds m2) as [L2 _].
  assert (G' : inject_Z (rne m2) + 1 <= inject_Z (rne m1)).
  { change 1 with (inject_Z 1). rewrite <- inject_Z_plus, <- Zle_Qle. lia. }
  assert (E : m1 == m2) by lra.
  apply rne_comp in E. lia.
Qed.

Lemma round_abs_eq (a : Q) :
  round_abs a = inject_Z (rne (a / 2 ^ expo a)) * 2 ^ expo a.
Proof. reflexivity. Qed.

Lemma round_abs_nonneg (a : Q) : 0 < a -> 0 <= round_abs a.
Proof.
  intro Ha. rewrite round_abs_eq.
  apply Qmult_le_0_compat; [|apply Qlt_le_weak, two_pow_pos].
  change 0 with (inject_Z 0). rewrite <- Zle_Qle.
  rewrite <- (rne_Z 0). apply rne_mono. change (inject_Z 0) with 0.
  apply Qle_shift_div_l; [apply two_pow_pos | lra].
Qed.

Lemma round_abs_error (a : Q) :
  0 < a ->
  - ((1 # 2) * 2 ^ expo a) <= round_abs a - a /\
  round_abs a - a <= (1 # 2) * 2 ^ expo a.
Proof.
  intro Ha. rewrite round_abs_eq.
  set (g := 2 ^ expo a). assert (Hg : 0 < g) by apply two_pow_pos.
  destruct (rne_bounds (a / g)) as [L U].
  set (r := inject_Z (rne (a / g))) in *.
  assert (E : a == (a / g) * g) by (field; lra).
  set (m := a / g) in *.
  assert (L' : (m - (1 # 2)) * g <= r * g)
    by (apply Qmult_le_compat_r; lra).
  assert (U' : r * g <= (m + (1 # 2)) * g)
    by (apply Qmult_le_compat_r; lra).
  clearbody m r g. split; lra.
Qed.

Lemma round_abs_le_pow (a : Q) (k : Z) :
  0 < a -> a <= 2 ^ k -> (expo a <= k)%Z -> round_abs a <= 2 ^ k.
Proof.
  intros Ha Hk He. rewrite round_abs_eq.
  set (e := expo a) in *. assert (Hg : 0 < 2 ^ e) by apply two_pow_pos.
  assert (E : 2 ^ k == inject_Z (2 ^ (k - e)) * 2 ^ e).
  { rewrite <- two_pow_Z by lia. rewrite <- Qpower_plus by lra.
    replace (k - e + e)%Z with k by lia. reflexivity. }
  rewrite E. apply Qmult_le_compat_r; [|lra].
  rewrite <- Zle_Qle. rewrite <- (rne_Z (2 ^ (k - e))). apply rne_mono.
  apply Qle_shift_div_r; [exact Hg|]. rewrite <- E. exact Hk.
Qed.

Lemma round_abs_ge_pow (b : Q) (k : Z) :
  2 ^ k <= b -> (expo b <= k)%Z -> 2 ^ k <= round_abs b.
Proof.
  intros Hk He. rewrite round_abs_eq.
  set (e := expo b) in *. assert (Hg : 0 < 2 ^ e) by apply two_pow_pos.
  assert (E : 2 ^ k == inject_Z (2 ^ (k - e)) * 2 ^ e).
  { rewrite <- two_pow_Z by lia. rewrite <- Qpower_plus by lra.
    replace (k - e + e)%Z with k by lia. reflexivity. }
  rewrite E. apply Qmult_le_compat_r; [|lra].
  rewrite <- Zle_Qle. rewrite <- (rne_Z (2 ^ (k - e))) at 1. apply rne_mono.
  apply Qle_shift_div_l; [exact Hg|]. rewrite <- E. exact Hk.
Qed.

Lemma round_abs_mono (a b : Q) :
  0 < a -> a <= b -> round_abs a <= round_abs b.
Proof.
  intros Ha Hab. assert (Hb : 0 < b) by lra.
  pose proof (Qlog2_mono a b Ha Hab) as Hlog.
  destruct (Z.eq_dec (expo a) (expo b)) as [E|NE].
  - rewrite !round_abs_eq, E.
    assert (Hg : 0 < 2 ^ expo b) by apply two_pow_pos.
    apply Qmult_le_compat_r; [|lra].
    rewrite <- Zle_Qle. apply rne_mono.
    apply Qmult_le_compat_r; [exact Hab|].
    apply Qlt_le_weak, Qinv_lt_0_compat, Hg.
  - assert (Hlt : (expo a < expo b)%Z) by (unfold expo in *; lia).
    assert (Eb : expo b = (Qlog2 b - 52)%Z) by (unfold expo in *; lia).
    assert (Hla : (Qlog2 a < Qlog2 b)%Z) by (unfold expo in *; lia).
    destruct (Qlog2_spec a Ha) as [_ A2]. destruct (Qlog2_spec b Hb) as [B1 _].
    assert (A3 : a <= 2 ^ Qlog2 b).
    { apply Qle_trans with (2 ^ (Qlog2 a + 1)); [lra|].
      apply two_pow_le. lia. }
    apply Qle_trans with (2 ^ Qlog2 b).
    + apply round_abs_le_pow; [exact Ha | exact A3 | lia].
    + apply round_abs_ge_pow; [exact B1 | lia].
Qed.

Lemma Qlog2_eq (a : Q) (k : Z) : 2 ^ k <= a -> a < 2 ^ (k + 1) -> Qlog2 a = k.
Proof.
  intros H1 H2. assert (Ha : 0 < a) by (pose proof (two_pow_pos k); lra).
  pose proof (Qlog2_ge a k H1). pose proof (Qlog2_lt a (k + 1) Ha H2). lia.
Qed.

Lemma round_abs_one (a : Q) : a == 1 -> round_abs a == 1.
Proof.
  intro H. rewrite round_abs_eq.
  assert (E : expo a = (-52)%Z).
  { unfold expo. rewrite (Qlog2_eq a 0); [reflexivity | |];
      rewrite H; [now vm_compute | reflexivity]. }
  rewrite E.
  rewrite (rne_comp (a / 2 ^ (-52)) (inject_Z (2 ^ 52))).
  - rewrite rne_Z. vm_compute. reflexivity.
  - rewrite H. vm_compute. reflexivity.
Qed.

Lemma round_abs_unit (a : Q) :
  0 < a -> a <= 1 ->
  0 <= round_abs a <= 1 /\
  - (2 ^ (-54)) <= round_abs a - a <= 2 ^ (-54).
Proof.
  intros Ha H1.
  assert (R1 : round_abs 1 == 1) by (apply round_abs_one; reflexivity).
  split.
  - split; [apply round_abs_nonneg; exact Ha|].
    rewrite <- R1. apply round_abs_mono; assumption.
  - destruct (Qlt_le_dec a 1) as [Hlt|Hge].
    + assert (Hl : (Qlog2 a < 0)%Z) by (apply Qlog2_lt; [exact Ha | exact Hlt]).
      assert (He : (expo a <= -53)%Z) by (unfold expo; lia).
      destruct (round_abs_error a Ha) as [L U].
      assert (Hp : 2 ^ expo a <= 2 ^ (-53)) by (apply two_pow_le; exact He).
      assert (E : (1 # 2) * 2 ^ (-53) == 2 ^ (-54)) by (vm_compute; reflexivity).
      split; lra.
    + assert (E : a == 1) by lra.
      pose proof (round_abs_one a E) as R.
      assert (P : 0 < 2 ^ (-54)) by apply two_pow_pos.
      split; lra.
Qed.

Lemma Qabs_pos_eq (x : Q) : 0 < x -> Qabs x = x.
Proof.
  destruct x as [n d]. unfold Qlt. simpl. intro H.
  unfold Qabs. f_equal. apply Z.abs_eq. lia.
Qed.

Lemma round64_pos (x : Q) :
  0 < x ->
  round64 x = if Qle_bool (2 ^ 1024) (round_abs x) then PInf
              else Fin (round_abs x).
Proof.
  intro Hx. unfold round64.
  assert (E0 : Qeq_bool x 0 = false).
  { destruct (Qeq_bool x 0) eqn:E; [|reflexivity].
    apply Qeq_bool_iff in E. lra. }
  assert (E1 : Qlt_bool 0 x = true) by (apply Qlt_bool_iff; exact Hx).
  rewrite E0, E1. cbv zeta. rewrite (Qabs_pos_eq x Hx). reflexivity.
Qed.

Lemma round64_zero (x : Q) : x == 0 -> round64 x = Fin 0.
Proof.
  intro H. unfold round64.
  assert (E : Qeq_bool x 0 = true) by (apply Qeq_bool_iff; exact H).
  rewrite E. reflexivity.
Qed.

Lemma round64_unit (x : Q) :
  0 <= x <= 1 ->
  exists r : Q,
    round64 x = Fin r /\ 0 <= r <= 1 /\
    - (2 ^ (-54)) <= r - x <= 2 ^ (-54).
Proof.
  intros [H0 H1].
  assert (P : 0 < 2 ^ (-54)) by apply two_pow_pos.
  destruct (Qlt_le_dec 0 x) as [Hpos|Hz].
  - destruct (round_abs_unit x Hpos H1) as [[A B] [C D]].
    exists (round_abs x). rewrite (round64_pos x Hpos).
    assert (E : Qle_bool (2 ^ 1024) (round_abs x) = false).
    { destruct (Qle_bool (2 ^ 1024) (round_abs x)) eqn:E; [|reflexivity].
      apply Qle_bool_iff in E.
      assert (1 < 2 ^ 1024) by (apply (Qpower_1_lt 2 1024); [lra | lia]).
      lra. }
    rewrite E. repeat split; assumption.
  - exists 0. rewrite round64_zero by lra. repeat split; lra.
Qed.

Lemma round64_mono (x y ry : Q) :
  0 <= x <= y -> round64 y = Fin ry ->
  exists rx : Q, round64 x = Fin rx /\ 0 <= rx <= ry.
Proof.
  intros [H0 Hxy] Hy.
  assert (Hry : 0 <= ry /\ (0 < y -> ry = round_abs y /\
                            Qle_bool (2 ^ 1024) (round_abs y) = false)).
  { destruct (Qlt_le_dec 0 y) as [Hpos|Hz].
    - rewrite (round64_pos y Hpos) in Hy.
      destruct (Qle_bool (2 ^ 1024) (round_abs y)) eqn:E; [discriminate|].
      injection Hy as <-. split; [apply round_abs_nonneg; exact Hpos|].
      intros _. split; reflexivity.
    - rewrite round64_zero in Hy by lra. injection Hy as <-.
      split; [lra | intro; lra]. }
  destruct Hry as [Hry0 Hry].
  destruct (Qlt_le_dec 0 x) as [Hpos|Hz].
  - destruct Hry as [-> E]; [lra|].
    pose proof (round_abs_mono x y Hpos Hxy) as M.
    exists (round_abs x). rewrite (round64_pos x Hpos).
    assert (E' : Qle_bool (2 ^ 1024) (round_abs x) = false).
    { destruct (Qle_bool (2 ^ 1024) (round_abs x)) eqn:E'; [|reflexivity].
      apply Qle_bool_iff in E'.
      assert (C : Qle_bool (2 ^ 1024) (round_abs y) = true)
        by (apply Qle_bool_iff; lra).
      congruence. }
    rewrite E'. split; [reflexivity|].
    split; [apply round_abs_nonneg; exact Hpos | exact M].
  - exists 0. rewrite round64_zero by lra. split; [reflexivity | lra].
Qed.

Lemma round64_int (n : Z) :
  (0 <= n < 2 ^ 53)%Z ->
  exists r : Q, round64 (inject_Z n) = Fin r /\ r == inject_Z n.
Proof.
  intros [H0 H1].
  destruct (Z.eq_dec n 0) as [->|Hne].
  { exists 0. rewrite round64_zero by reflexivity. split; reflexivity. }
  assert (Hpos : 0 < inject_Z n).
  { change 0 with (inject_Z 0). rewrite <- Zlt_Qlt. lia. }
  assert (Hlt : inject_Z n < 2 ^ 53).
  { rewrite (two_pow_Z 53) by lia. rewrite <- Zlt_Qlt. exact H1. }
  assert (Hl : (Qlog2 (inject_Z n) < 53)%Z) by (apply Qlog2_lt; assumption).
  assert (He : (expo (inject_Z n) <= 0)%Z) by (unfold expo; lia).
  assert (E : round_abs (inject_Z n) == inject_Z n).
  { rewrite round_abs_eq. set (e := expo (inject_Z n)) in *.
    assert (Hg : 0 < 2 ^ e) by apply two_pow_pos.
    assert (Em : inject_Z n / 2 ^ e == inject_Z (n * 2 ^ (- e))).
    { rewrite inject_Z_mult, <- two_pow_Z by lia.
      rewrite Qpower_opp. field. lra. }
    rewrite (rne_comp _ _ Em), rne_Z.
    rewrite inject_Z_mult, <- two_pow_Z by lia.
    rewrite Qpower_opp. field. lra. }
  exists (round_abs (inject_Z n)). rewrite (round64_pos _ Hpos).
  assert (E' : Qle_bool (2 ^ 1024) (round_abs (inject_Z n)) = false).
  { destruct (Qle_bool (2 ^ 1024) (round_abs (inject_Z n))) eqn:E';
      [|reflexivity].
    apply Qle_bool_iff in E'.
    assert (2 ^ 53 < 2 ^ 1024) by (apply two_pow_lt; lia).
    lra. }
  rewrite E'. split; [reflexivity | exact E].
Qed.

Lemma round64_neg_unit (x : Q) :
  -1 <= x -> x < 0 ->
  exists r : Q, round64 x = Fin r /\ -1 <= r <= 0.
Proof.
  intros H1 H0. unfold round64.
  assert (E0 : Qeq_bool x 0 = false).
  { destruct (Qeq_bool x 0) eqn:E; [|reflexivity].
    apply Qeq_bool_iff in E. lra. }
  assert (E1 : Qlt_bool 0 x = false) by (apply Qlt_bool_false_iff; lra).
  rewrite E0, E1. cbv zeta.
  assert (Ha : Qabs x == - x) by (apply Qabs_neg; lra).
  destruct (round_abs_unit (Qabs x)) as [[A B] _]; [lra | lra|].
  assert (E2 : Qle_bool (2 ^ 1024) (round_abs (Qabs x)) = false).
  { destruct (Qle_bool (2 ^ 1024) (round_abs (Qabs x))) eqn:E; [|reflexivity].
    apply Qle_bool_iff in E.
    assert (1 < 2 ^ 1024) by (apply (Qpower_1_lt 2 1024); [lra | lia]).
    lra. }
  rewrite E2. eexists. split; [reflexivity | lra].
Qed.

Lemma expo_le (a : Q) (k : Z) :
  0 < a -> a < 2 ^ (k + 1) -> (-1074 <= k)%Z -> (expo a <= k)%Z.
Proof.
  intros Ha H Hk. pose proof (Qlog2_lt a (k + 1) Ha H). unfold expo. lia.
Qed.

(** A difference between [2^-1074] and [2^1023] is rounded to a
    positive number. *)
Lemma round64_range (x : Q) :
  2 ^ (-1074) <= x <= 2 ^ 1023 ->
  exists d : Q, round64 x = Fin d /\ 0 < d.
Proof.
  intros [H1 H2].
  assert (P1 : 0 < 2 ^ (-1074)) by apply two_pow_pos.
  assert (Hx : 0 < x) by lra.
  assert (P2 : 2 ^ 1023 < 2 ^ 1024) by (apply two_pow_lt; lia).
  assert (U : round_abs x <= 2 ^ 1023).
  { apply round_abs_le_pow; [exact Hx | exact H2|].
    apply expo_le; [exact Hx | | lia].
    change (1023 + 1)%Z with 1024%Z. lra. }
  assert (L : 2 ^ (-1074) <= round_abs x).
  { apply Qle_trans with (round_abs (2 ^ (-1074))).
    - apply round_abs_ge_pow; [lra|].
      apply expo_le; [exact P1 | | lia].
      apply two_pow_lt. lia.
    - apply round_abs_mono; [exact P1 | exact H1]. }
  exists (round_abs x). rewrite (round64_pos x Hx).
  assert (E : Qle_bool (2 ^ 1024) (round_abs x) = false).
  { destruct (Qle_bool (2 ^ 1024) (round_abs x)) eqn:E; [|reflexivity].
    apply Qle_bool_iff in E. lra. }
  rewrite E. split; [reflexivity | lra].
Qed.

End Rounding.

(** ** Loops that write one column per iteration *)

Section ColumnLoop.

Variables St R V : Type.
Variable get : St -> R -> nat -> V.
Variable step : nat -> St -> St.
Variable key : nat -> nat.
Variable G : nat -> (R -> V) -> R -> V.

Hypothesis Hstep :
  forall i s r d,
    get (step i s) r d =
    if (d =? key i)%nat then G i (fun r' => get s r' (key i)) r
    else get s r d.
Hypothesis HG :
  forall i f g r, (forall r', f r' = g r') -> G i f r = G i g r.

Lemma column_loop_frame :
  forall count i0 s d,
    (forall k, (i0 <= k < i0 + count)%nat -> key k <> d) ->
    forall r, get (for_loop count i0 step s) r d = get s r d.
Proof.
  induction count as [|count IH]; intros i0 s d Hd r; simpl; [reflexivity|].
  rewrite IH by (intros k Hk; apply Hd; lia).
  rewrite Hstep.
  destruct (Nat.eqb_spec d (key i0)) as [E|E]; [|reflexivity].
  exfalso. apply (Hd i0); [lia | symmetry; exact E].
Qed.

Lemma column_loop_at :
  forall count i0 s,
    (forall a b, (i0 <= a < b)%nat -> (b < i0 + count)%nat ->
                 key a <> key b) ->
    forall k, (i0 <= k < i0 + count)%nat ->
    forall r,
      get (for_loop count i0 step s) r (key k) =
      G k (fun r' => get s r' (key k)) r.
Proof.
  induction count as [|count IH]; intros i0 s Hd k Hk r; simpl; [lia|].
  destruct (Nat.eq_dec k i0) as [->|Hne].
  - rewrite column_loop_frame.
    + rewrite Hstep, Nat.eqb_refl. reflexivity.
    + intros j Hj Heq. apply (Hd i0 j); [lia|lia|]. symmetry. exact Heq.
  - rewrite IH; [|intros a b Ha Hb; apply Hd; lia|lia].
    apply HG. intro r'. rewrite Hstep.
    destruct (Nat.eqb_spec (key k) (key i0)) as [E|E]; [|reflexivity].
    exfalso. apply (Hd i0 k); [lia|lia|]. symmetry. exact E.
Qed.

End ColumnLoop.

Lemma for_loop_shift {A : Type} (body : nat -> A -> A) :
  forall count i a,
    for_loop count (S i) body a = for_loop count i (fun j => body (S j)) a.
Proof.
  induction count as [|count IH]; intros i a; simpl; [reflexivity|].
  apply IH.
Qed.

(** A loop over the elements of a list, as a loop over their indices. *)
Lemma fold_left_as_for_loop {A B : Type} (f : A -> B -> A) (d : B) :
  forall l a,
    fold_left f l a =
    for_loop (List.length l) 0 (fun i a => f a (nth i l d)) a.
Proof.
  induction l as [|x l IH]; intros a; simpl; [reflexivity|].
  rewrite for_loop_shift. apply IH.
Qed.

Lemma NoDup_nth_distinct (l : list nat) :
  NoDup l ->
  forall a b, (a < b)%nat -> (b < List.length l)%nat ->
              nth a l 0%nat <> nth b l 0%nat.
Proof.
  intros Hnd a b Hab Hb Heq.
  assert (a = b); [|lia].
  apply (proj1 (NoDup_nth l 0%nat) Hnd); try lia; exact Heq.
Qed.

Lemma nth_map_default {A : Type} (f : A -> nat) (l : list A) (k : nat)
    (d : A) :
  (k < List.length l)%nat -> nth k (map f l) 0%nat = f (nth k l d).
Proof.
  revert k. induction l as [|a l IH]; intros [|k] H; simpl in *; try lia.
  apply IH. lia.
Qed.

Lemma map_seq_pointwise {A B : Type} (f : A -> B) (g : nat -> B) :
  forall l i0,
    (forall k c, nth_error l k = Some c -> f c = g (i0 + k)%nat) ->
    map f l = map g (seq i0 (List.length l)).
Proof.
  induction l as [|a l IH]; intros i0 H; simpl; [reflexivity|].
  f_equal.
  - rewrite (H 0%nat a eq_refl). f_equal. lia.
  - apply IH. intros k c Hk. rewrite (H (S k) c Hk). f_equal. lia.
Qed.

(** ** [reinit_dofs] *)

Lemma reinit_dofs_fold :
  forall (cells : list Cell) (i0 : nat) (m0 : DofsMap),
    let res :=
      fold_left (fun (acc : nat * DofsMap) cell =>
                   let (i, dofs_map) := acc in
                   (S i, dofs_map_assign dofs_map (cell_mp_dof cell) i))
                cells (i0, m0) in
    fst res = (i0 + List.length cells)%nat /\
    (forall key, ~ In key (map cell_mp_dof cells) -> snd res key = m0 key) /\
    (NoDup (map cell_mp_dof cells) ->
     forall k c, nth_error cells k = Some c ->
                 snd res (cell_mp_dof c) = Some (i0 + k)%nat).
Proof.
  induction cells as [|c0 cells IH]; intros i0 m0; simpl.
  - split; [lia|]. split; [reflexivity|].
    intros _ [|k] c H; discriminate.
  - destruct (IH (S i0) (dofs_map_assign m0 (cell_mp_dof c0) i0))
      as (H1 & H2 & H3).
    split; [rewrite H1; lia|]. split.
    + intros key Hkey. rewrite H2 by tauto.
      unfold dofs_map_assign.
      destruct (Nat.eqb_spec key (cell_mp_dof c0)); [|reflexivity].
      exfalso. apply Hkey. left. congruence.
    + intros Hnd [|k] c Hk; simpl in Hk.
      * injection Hk as <-. inversion Hnd as [|? ? Hnotin _]; subst.
        rewrite H2 by exact Hnotin.
        unfold dofs_map_assign. rewrite Nat.eqb_refl. f_equal. lia.
      * inversion Hnd as [|? ? _ Hnd']; subst.
        rewrite (H3 Hnd' k c Hk). f_equal. lia.
Qed.

(** X1.  [reinit_dofs] numbers the locally owned cells in the order of
    the loop: when their degrees of freedom are pairwise distinct, the
    map sends the degree of freedom of the [k]-th cell to [k], holds no
    other key, and the counter ends at the number of cells.  The
    offsets that the update loops read through the map are therefore
    [0, 1, ..., n - 1], without repetition. *)
Theorem reinit_dofs_offsets (cells : list Cell) :
  NoDup (map cell_mp_dof cells) ->
  fst (reinit_dofs cells) = List.length cells /\
  map (fun cell => snd (reinit_dofs cells) (cell_mp_dof cell)) cells =
  map Some (seq 0 (List.length cells)) /\
  (forall key, ~ In key (map cell_mp_dof cells) ->
               snd (reinit_dofs cells) key = None) /\
  (forall mp : MaterialProperty,
      _dofs_map mp = dofs_map_at (snd (reinit_dofs cells)) ->
      mp_dofs_of mp cells = seq 0 (List.length cells) /\
      NoDup (mp_dofs_of mp cells)).
Proof.
  intro Hnd. unfold reinit_dofs.
  destruct (reinit_dofs_fold cells 0 dofs_map_empty) as (H1 & H2 & H3).
  cbv zeta in H1, H2, H3.
  split; [exact H1|]. split.
  - apply map_seq_pointwise. intros k c Hk. apply (H3 Hnd k c Hk).
  - split; [exact H2|].
    intros mp Hmp.
    assert (E : mp_dofs_of mp cells = seq 0 (List.length cells)).
    { unfold mp_dofs_of. rewrite <- (map_id (seq 0 (List.length cells))).
      apply map_seq_pointwise. intros k c Hk.
      rewrite Hmp. unfold dofs_map_at. rewrite (H3 Hnd k c Hk). reflexivity. }
    split; [exact E|]. rewrite E. apply seq_NoDup.
Qed.

Lemma reinit_dofs_offsets_witness :
  let cells :=
    [ {| cell_material_id := 0; cell_mp_dof := 7 |};
      {| cell_material_id := 1; cell_mp_dof := 3 |} ] in
  NoDup (map cell_mp_dof cells) /\
  map (fun cell => snd (reinit_dofs cells) (cell_mp_dof cell)) cells =
  [Some 0%nat; Some 1%nat].
Proof.
  assert (Hnd : NoDup [7%nat; 3%nat]).
  { constructor; [simpl; intros [H | []]; discriminate|].
    constructor; [intros []|]. constructor. }
  split; [exact Hnd|].
  exact (proj1 (proj2 (reinit_dofs_offsets
                         [ {| cell_material_id := 0; cell_mp_dof := 7 |};
                           {| cell_material_id := 1; cell_mp_dof := 3 |} ]
                         Hnd))).
Defined.

(** ** [set_initial_state] *)

Lemma mp_dofs_of_nth (mp : MaterialProperty) (cells : list Cell) (k : nat)
    (cell : Cell) :
  nth_error cells k = Some cell ->
  nth k (mp_dofs_of mp cells) 0%nat = _dofs_map mp (cell_mp_dof cell).
Proof.
  intro H.
  exact (nth_map_nth_error (fun cell => _dofs_map mp (cell_mp_dof cell))
           cells k cell H).
Qed.

(** X2.  After [set_initial_state], the state of every locally owned
    cell is its user index: the ratio of that index is 1 and every
    other ratio is 0; every unit that is not locally owned is zeroed.
    The offsets of the cells are pairwise distinct. *)
Theorem set_initial_state_one_hot (mp : MaterialProperty) (cells : list Cell)
    (user_index : Cell -> nat) :
  NoDup (mp_dofs_of mp cells) ->
  (forall k cell r,
      nth_error cells k = Some cell ->
      _state (set_initial_state mp cells user_index) r
        (_dofs_map mp (cell_mp_dof cell)) =
      if (r =? user_index cell)%nat then Fin 1 else Fin 0) /\
  (forall r dof,
      ~ In dof (mp_dofs_of mp cells) ->
      _state (set_initial_state mp cells user_index) r dof = Fin 0).
Proof.
  intro Hnd.
  set (step := fun (i : nat) (state_view : View2) =>
                 set2 state_view (nth i (map user_index cells) 0%nat)
                   (nth i (mp_dofs_of mp cells) 0%nat) (Fin 1)).
  set (G := fun (i : nat) (f : nat -> double) (r : nat) =>
              if (r =? nth i (map user_index cells) 0)%nat then Fin 1
              else f r).
  assert (Hstep : forall i (s : View2) r d,
             step i s r d =
             if (d =? nth i (mp_dofs_of mp cells) 0)%nat
             then G i (fun r' => s r' (nth i (mp_dofs_of mp cells) 0%nat)) r
             else s r d).
  { intros i s r d. unfold step, G, set2. nat_cases. }
  assert (HG : forall i (f g : nat -> double) r,
             (forall r', f r' = g r') -> G i f r = G i g r).
  { intros i f g r H. unfold G. rewrite H. reflexivity. }
  assert (Hlen : List.length (map user_index cells) = List.length cells)
    by apply length_map.
  split.
  - intros k cell r Hk.
    assert (Hlt : (k < List.length cells)%nat)
      by (apply nth_error_Some; rewrite Hk; discriminate).
    pose proof (column_loop_at View2 nat double
                  (fun (s : View2) r d => s r d) step
                  (fun i => nth i (mp_dofs_of mp cells) 0%nat) G Hstep HG
                  (List.length cells) 0 zero2) as H.
    assert (Hd : forall a b, (0 <= a < b)%nat ->
                   (b < 0 + List.length cells)%nat ->
                   nth a (mp_dofs_of mp cells) 0%nat <>
                   nth b (mp_dofs_of mp cells) 0%nat).
    { intros a b Ha Hb. apply NoDup_nth_distinct; [exact Hnd|lia|].
      unfold mp_dofs_of. rewrite length_map. lia. }
    specialize (H Hd k (conj (Nat.le_0_l k) Hlt) r).
    cbv beta in H. rewrite (mp_dofs_of_nth mp cells k cell Hk) in H.
    unfold set_initial_state, for_each, for_range. simpl.
    rewrite Nat.sub_0_r, Hlen. fold step. rewrite H.
    unfold G. rewrite (nth_map_nth_error user_index cells k cell Hk).
    reflexivity.
  - intros r dof Hdof.
    unfold set_initial_state, for_each, for_range. simpl.
    rewrite Nat.sub_0_r, Hlen. fold step.
    rewrite (column_loop_frame View2 nat double
               (fun (s : View2) r d => s r d) step
               (fun i => nth i (mp_dofs_of mp cells) 0%nat) G Hstep).
    + reflexivity.
    + intros k Hk Heq. apply Hdof. rewrite <- Heq. apply nth_In.
      unfold mp_dofs_of. rewrite length_map. lia.
Qed.

Lemma set_initial_state_one_hot_witness :
  let mp := sample_material_property sample_properties (fun _ => 0%nat) in
  let mp' := set_initial_state mp sample_cells
               (fun cell => S (cell_mp_dof cell)) in
  NoDup (mp_dofs_of mp sample_cells) /\
  _state mp' 2%nat 1%nat = Fin 1 /\ _state mp' 1%nat 1%nat = Fin 0.
Proof.
  cbv zeta. split; [apply sample_cells_NoDup|].
  pose proof (proj1 (set_initial_state_one_hot
                       (sample_material_property sample_properties
                          (fun _ => 0%nat))
                       sample_cells (fun cell => S (cell_mp_dof cell))
                       (sample_cells_NoDup _ _))
                1%nat {| cell_material_id := 0; cell_mp_dof := 1 |}) as H.
  split; [exact (H 2%nat eq_refl) | exact (H 1%nat eq_refl)].
Defined.

(** ** What [update] leaves alone, and the order of its iterations *)

Lemma update_frame (K : Constants) (mp : MaterialProperty) (cells : list Cell)
    (temperature_average : View1 double) (dof : nat) :
  ~ In dof (mp_dofs_of mp cells) ->
  forall r,
    _state (update K mp cells temperature_average) r dof = _state mp r dof /\
    _property_values (update K mp cells temperature_average) r dof = Fin 0.
Proof.
  intros Hdof r. unfold update, for_each, for_range. simpl.
  rewrite Nat.sub_0_r, length_map.
  apply (for_loop_kernel_frame K
           (fun i => nth i (map cell_material_id cells) 0%nat)
           (fun i => nth i (mp_dofs_of mp cells) 0%nat)
           temperature_average (_state_property_polynomials mp)
           (_properties mp) (_state_property_tables mp) (_use_table mp)
           (List.length cells) 0 (_state mp) zero2 dof).
  intros k Hk Heq. apply Hdof. rewrite <- Heq. apply nth_In.
  unfold mp_dofs_of. rewrite length_map. lia.
Qed.

(** X4.  The order in which [update] visits the locally owned cells
    does not matter: a permutation of the cells gives the same state
    and the same property values for every unit.  This is what lets
    [for_each] run the kernel in parallel. *)
Theorem update_order_independent (K : Constants) (mp : MaterialProperty)
    (cells cells' : list Cell) (temperature_average : View1 double) :
  NoDup (mp_dofs_of mp cells) ->
  Permutation cells cells' ->
  forall r dof,
    _state (update K mp cells temperature_average) r dof =
    _state (update K mp cells' temperature_average) r dof /\
    _property_values (update K mp cells temperature_average) r dof =
    _property_values (update K mp cells' temperature_average) r dof.
Proof.
  intros Hnd Hperm r dof.
  assert (Hperm' : Permutation (mp_dofs_of mp cells) (mp_dofs_of mp cells'))
    by (apply Permutation_map; exact Hperm).
  assert (Hnd' : NoDup (mp_dofs_of mp cells'))
    by (apply (Permutation_NoDup Hperm'); exact Hnd).
  destruct (in_dec Nat.eq_dec dof (mp_dofs_of mp cells)) as [Hin | Hout].
  - unfold mp_dofs_of in Hin. apply in_map_iff in Hin.
    destruct Hin as (cell & <- & Hin).
    destruct (In_nth_error _ _ Hin) as [k Hk].
    destruct (In_nth_error _ _ (Permutation_in _ Hperm Hin)) as [k' Hk'].
    destruct (update_at_cell K mp cells temperature_average k cell Hnd Hk r)
      as [H1 H2].
    destruct (update_at_cell K mp cells' temperature_average k' cell Hnd' Hk' r)
      as [H1' H2'].
    rewrite H1, H2, H1', H2'. split; reflexivity.
  - assert (Hout' : ~ In dof (mp_dofs_of mp cells')).
    { intro H. apply Hout.
      apply (Permutation_in _ (Permutation_sym Hperm') H). }
    destruct (update_frame K mp cells temperature_average dof Hout r)
      as [H1 H2].
    destruct (update_frame K mp cells' temperature_average dof Hout' r)
      as [H1' H2'].
    rewrite H1, H2, H1', H2'. split; reflexivity.
Qed.

Lemma update_order_independent_witness :
  let mp := sample_material_property sample_properties (fun _ => 0%nat) in
  let T := fun dof : nat => if (dof =? 0)%nat then Fin 1050 else Fin 900 in
  NoDup (mp_dofs_of mp sample_cells) /\
  Permutation sample_cells (rev sample_cells) /\
  _state (update sample_constants mp sample_cells T)
    (liquid sample_constants) 0%nat =
  _state (update sample_constants mp (rev sample_cells) T)
    (liquid sample_constants) 0%nat.
Proof.
  cbv zeta. split; [apply sample_cells_NoDup|].
  split; [apply Permutation_rev|].
  exact (proj1 (update_order_independent sample_constants
                  (sample_material_property sample_properties
                     (fun _ => 0%nat))
                  sample_cells (rev sample_cells)
                  (fun dof : nat =>
                     if (dof =? 0)%nat then Fin 1050 else Fin 900)
                  (sample_cells_NoDup _ _) (Permutation_rev sample_cells)
                  (liquid sample_constants) 0%nat)).
Defined.

(** ** The three ratios of a unit, in binary64 *)

Lemma sub64_Fin (a b : Q) : sub64 (Fin a) (Fin b) = round64 (a + - b).
Proof. reflexivity. Qed.

Lemma div64_Fin (a b : Q) :
  ~ (b == 0)%Q -> div64 (Fin a) (Fin b) = round64 (a / b).
Proof. intro H. unfold div64. rewrite ddiv_Fin by exact H. reflexivity. Qed.

Lemma liquid_ratio_of64_unit (T Ts Tl d : Q) :
  sub64 (Fin Tl) (Fin Ts) = Fin d -> (0 < d)%Q ->
  exists l : Q,
    liquid_ratio_of64 (Fin T) (Fin Ts) (Fin Tl) = Fin l /\ (0 <= l <= 1)%Q.
Proof.
  intros Hd Hpos. unfold liquid_ratio_of64.
  destruct (dlt (Fin T) (Fin Ts)) eqn:E1.
  { exists 0%Q. split; [reflexivity | lra]. }
  unfold dgt. destruct (dlt (Fin Tl) (Fin T)) eqn:E2.
  { exists 1%Q. split; [reflexivity | lra]. }
  apply dlt_Fin_false in E1, E2.
  rewrite Hd. rewrite sub64_Fin in Hd |- *.
  destruct (round64_mono (T + - Ts) (Tl + - Ts) d) as (n & En & Hn0 & Hnd);
    [lra | exact Hd|].
  rewrite En, div64_Fin by lra.
  destruct (round64_unit (n / d)) as (l & El & Hl & _).
  { split.
    - apply Qle_shift_div_l; [exact Hpos | lra].
    - apply Qle_shift_div_r; [exact Hpos | lra]. }
  exists l. split; [exact El | exact Hl].
Qed.

Lemma fractions64_unit (l p : Q) :
  (0 <= l <= 1)%Q -> (0 <= p <= 1)%Q ->
  let powder_ratio := std_min (sub64 (Fin 1) (Fin l)) (Fin p) in
  let solid_ratio :=
    std_max (sub64 (sub64 (Fin 1) (Fin l)) powder_ratio) (Fin 0) in
  exists pw s : Q,
    powder_ratio = Fin pw /\ solid_ratio = Fin s /\
    (0 <= pw <= p /\ 0 <= s <= 1 /\
     - (2 ^ (-53)) <= l + pw + s - 1 <= 2 ^ (-53))%Q.
Proof.
  intros Hl Hp powder_ratio solid_ratio.
  subst solid_ratio powder_ratio.
  rewrite sub64_Fin.
  destruct (round64_unit (1 + - l)%Q) as (a & Ea & Ha & Hea); [lra|].
  rewrite Ea.
  assert (Hpw : exists pw : Q,
             std_min (Fin a) (Fin p) = Fin pw /\
             (0 <= pw <= p /\ pw <= a)%Q).
  { unfold std_min. destruct (dlt (Fin p) (Fin a)) eqn:E.
    - apply dlt_Fin in E. exists p. split; [reflexivity | lra].
    - apply dlt_Fin_false in E. exists a. split; [reflexivity | lra]. }
  destruct Hpw as (pw & Epw & Hpw & Hpwa).
  rewrite Epw, sub64_Fin.
  destruct (round64_unit (a + - pw)%Q) as (s & Es & Hs & Hes); [lra|].
  rewrite Es. unfold std_max.
  assert (E0 : dlt (Fin s) (Fin 0) = false) by (apply dlt_Fin_false; lra).
  rewrite E0.
  exists pw, s. split; [reflexivity|]. split; [reflexivity|].
  split; [exact Hpw|]. split; [exact Hs|].
  assert (E : (2 ^ (-54) + 2 ^ (-54) == 2 ^ (-53))%Q)
    by (vm_compute; reflexivity).
  set (u := (2 ^ (-54))%Q) in *. set (v := (2 ^ (-53))%Q) in *.
  clearbody u v. lra.
Qed.

Lemma update_state64_at_cell (K : Constants) (mp : MaterialProperty)
    (cells : list Cell) (temperature_average : View1 double) (state : View2)
    (k : nat) (cell : Cell) :
  enums_ok K = true ->
  NoDup (mp_dofs_of mp cells) ->
  nth_error cells k = Some cell ->
  let dof := _dofs_map mp (cell_mp_dof cell) in
  let solidus := _properties mp (cell_material_id cell) (prop_solidus K) in
  let liquidus := _properties mp (cell_material_id cell) (prop_liquidus K) in
  let liquid_ratio :=
    liquid_ratio_of64 (temperature_average dof) solidus liquidus in
  let powder_ratio :=
    std_min (sub64 (Fin 1) liquid_ratio) (state (powder K) dof) in
  let solid_ratio :=
    std_max (sub64 (sub64 (Fin 1) liquid_ratio) powder_ratio) (Fin 0) in
  let state' := update_state64 K mp cells temperature_average state in
  state' (liquid K) dof = liquid_ratio /\
  state' (powder K) dof = powder_ratio /\
  state' (solid K) dof = solid_ratio.
Proof.
  intros HK Hnd Hk dof solidus liquidus liquid_ratio powder_ratio solid_ratio
    state'.
  assert (Hlt : (k < List.length cells)%nat)
    by (apply nth_error_Some; rewrite Hk; discriminate).
  destruct (enums_ok_elim K HK) as ((Hlp & Hls & Hps) & _).
  set (material_ids_view := fun i => nth i (map cell_material_id cells) 0%nat).
  set (mp_dofs_view := fun i => nth i (mp_dofs_of mp cells) 0%nat).
  set (step := update_state_kernel64 K material_ids_view mp_dofs_view
                 temperature_average (_properties mp)).
  set (G := fun (i : nat) (f : nat -> double) (r : nat) =>
              step i (fun r' _ => f r') r (mp_dofs_view i)).
  assert (Hstep : forall i (s : View2) r d,
             step i s r d =
             if (d =? mp_dofs_view i)%nat
             then G i (fun r' => s r' (mp_dofs_view i)) r
             else s r d).
  { intros i s r d. unfold G, step, update_state_kernel64, set2. cbv zeta.
    destruct (Nat.eqb_spec d (mp_dofs_view i)) as [->|Hd].
    - rewrite !Nat.eqb_refl. reflexivity.
    - rewrite !andb_false_r. reflexivity. }
  assert (HG : forall i (f g : nat -> double) r,
             (forall r', f r' = g r') -> G i f r = G i g r).
  { intros i f g r H. unfold G, step, update_state_kernel64, set2. cbv zeta.
    rewrite !H. reflexivity. }
  assert (Hd : forall a b, (0 <= a < b)%nat ->
                 (b < 0 + List.length (map cell_material_id cells))%nat ->
                 mp_dofs_view a <> mp_dofs_view b).
  { intros a b Ha Hb. rewrite length_map in Hb. unfold mp_dofs_view.
    apply NoDup_nth_distinct; [exact Hnd | lia|].
    unfold mp_dofs_of. rewrite length_map. lia. }
  assert (Hk' : (0 <= k < 0 + List.length (map cell_material_id cells))%nat)
    by (rewrite length_map; lia).
  pose proof (column_loop_at View2 nat double
                (fun (s : View2) r d => s r d) step mp_dofs_view G Hstep HG
                (List.length (map cell_material_id cells)) 0%nat state Hd k
                Hk') as H.
  cbv beta in H.
  assert (Ekey : mp_dofs_view k = dof).
  { unfold mp_dofs_view, dof. apply (mp_dofs_of_nth mp cells k cell Hk). }
  assert (Emat : material_ids_view k = cell_material_id cell).
  { unfold material_ids_view. apply (nth_map_nth_error _ _ _ _ Hk). }
  assert (Hstate : forall r,
             state' r dof = step k (fun r' _ => state r' dof) r dof).
  { intro r. unfold state', update_state64, for_each, for_range. cbv zeta.
    rewrite Nat.sub_0_r. fold material_ids_view mp_dofs_view step.
    rewrite <- Ekey at 1. rewrite H. unfold G. rewrite Ekey. reflexivity. }
  rewrite !Hstate.
  unfold step, update_state_kernel64, set2. cbv zeta. cbv beta.
  rewrite Ekey, Emat, !Nat.eqb_refl, !andb_true_r.
  apply Nat.eqb_neq in Hlp, Hls, Hps.
  rewrite Hlp, Hls, Hps. simpl andb. cbv iota.
  fold dof solidus liquidus liquid_ratio powder_ratio solid_ratio.
  split; [reflexivity|]. split; reflexivity.
Qed.

Lemma update_state64_cell_valid (K : Constants) (mp : MaterialProperty)
    (cells : list Cell) (temperature_average : View1 double) (state : View2)
    (k : nat) (cell : Cell) (T Ts Tl d p : Q) :
  enums_ok K = true ->
  NoDup (mp_dofs_of mp cells) ->
  nth_error cells k = Some cell ->
  _properties mp (cell_material_id cell) (prop_solidus K) = Fin Ts ->
  _properties mp (cell_material_id cell) (prop_liquidus K) = Fin Tl ->
  temperature_average (_dofs_map mp (cell_mp_dof cell)) = Fin T ->
  state (powder K) (_dofs_map mp (cell_mp_dof cell)) = Fin p ->
  sub64 (Fin Tl) (Fin Ts) = Fin d -> (0 < d)%Q -> (0 <= p <= 1)%Q ->
  let state' := update_state64 K mp cells temperature_average state in
  fractions_within K state' (_dofs_map mp (cell_mp_dof cell)) (2 ^ (-53)) /\
  exists p' : Q,
    state' (powder K) (_dofs_map mp (cell_mp_dof cell)) = Fin p' /\
    (0 <= p' <= p)%Q.
Proof.
  intros HK Hnd Hk HTs HTl HT Hp Hd Hpos Hp01 state'.
  destruct (update_state64_at_cell K mp cells temperature_average state k cell
              HK Hnd Hk) as (El & Epw & Es).
  fold state' in El, Epw, Es.
  rewrite HTs, HTl, HT, Hp in *.
  destruct (liquid_ratio_of64_unit T Ts Tl d Hd Hpos) as (l & Hl & Hl01).
  rewrite Hl in *.
  destruct (fractions64_unit l p Hl01 Hp01) as (pw & s & Hpw & Hs & B1 & B2 & B3).
  cbv zeta in Hpw, Hs. rewrite Hpw in *. rewrite Hs in Es.
  split.
  - exists l, pw, s. split; [exact El|]. split; [exact Epw|].
    split; [exact Es|]. split; [exact Hl01|]. split; [lra|].
    split; [exact B2 | exact B3].
  - exists pw. split; [exact Epw | exact B1].
Qed.




(** ** Sequences of updates *)

Lemma update_sequence_state64_invariant (K : Constants)
    (mp : MaterialProperty) (cells : list Cell) (k : nat) (cell : Cell)
    (Ts Tl d : Q) :
  enums_ok K = true ->
  NoDup (mp_dofs_of mp cells) ->
  nth_error cells k = Some cell ->
  _properties mp (cell_material_id cell) (prop_solidus K) = Fin Ts ->
  _properties mp (cell_material_id cell) (prop_liquidus K) = Fin Tl ->
  sub64 (Fin Tl) (Fin Ts) = Fin d -> (0 < d)%Q ->
  forall (temperatures : list (View1 double)) (state : View2) (p0 : Q),
    (forall temperature_average, In temperature_average temperatures ->
       exists T : Q,
         temperature_average (_dofs_map mp (cell_mp_dof cell)) = Fin T) ->
    state (powder K) (_dofs_map mp (cell_mp_dof cell)) = Fin p0 ->
    (0 <= p0 <= 1)%Q ->
    let state' :=
      fold_left (fun state temperature_average =>
                   update_state64 K mp cells temperature_average state)
        temperatures state in
    (exists p : Q,
        state' (powder K) (_dofs_map mp (cell_mp_dof cell)) = Fin p /\
        (0 <= p <= p0)%Q) /\
    (temperatures <> [] ->
     fractions_within K state' (_dofs_map mp (cell_mp_dof cell))
       (2 ^ (-53))).
Proof.
  intros HK Hnd Hk HTs HTl Hd Hpos.
  induction temperatures as [|temperature_average rest IH];
    intros state p0 HT Hp Hp01; cbv zeta.
  - split; [|intro H; contradiction H; reflexivity].
    exists p0. split; [exact Hp | lra].
  - destruct (HT temperature_average (or_introl eq_refl)) as [T HTfin].
    destruct (update_state64_cell_valid K mp cells temperature_average state
                k cell T Ts Tl d p0 HK Hnd Hk HTs HTl HTfin Hp Hd Hpos Hp01)
      as [Hvalid (p1 & Hp1 & Hp1b)].
    assert (HT' : forall t, In t rest ->
                    exists T' : Q,
                      t (_dofs_map mp (cell_mp_dof cell)) = Fin T').
    { intros t Hin. apply HT. right. exact Hin. }
    assert (Hp1c : (0 <= p1 <= 1)%Q) by lra.
    specialize (IH (update_state64 K mp cells temperature_average state) p1
                  HT' Hp1 Hp1c).
    cbv zeta in IH. destruct IH as [(p & Hpfin & Hpb) Hrest].
    simpl fold_left. split.
    + exists p. split; [exact Hpfin | lra].
    + intros _. destruct rest as [|t rest'].
      * exact Hvalid.
      * apply Hrest. discriminate.
Qed.

(** X5.  Over any non-empty sequence of [update] calls, computed in
    binary64, on a cell whose material has a finite solidus strictly
    below its liquidus (their difference being neither below the
    smallest positive double nor above [2^1023]), with finite averaged
    temperatures and an initial powder ratio in [0, 1]: after the last
    call the three ratios of the cell are numbers of [0, 1], their sum
    differs from 1 by at most [2^-53], and the powder ratio does not
    exceed its initial value. *)
Theorem update_sequence_keeps_fractions (K : Constants)
    (mp : MaterialProperty) (cells : list Cell)
    (temperatures : list (View1 double)) (k : nat) (cell : Cell)
    (Ts Tl p0 : Q) :
  enums_ok K = true ->
  NoDup (mp_dofs_of mp cells) ->
  nth_error cells k = Some cell ->
  _properties mp (cell_material_id cell) (prop_solidus K) = Fin Ts ->
  _properties mp (cell_material_id cell) (prop_liquidus K) = Fin Tl ->
  (Ts < Tl)%Q ->
  (2 ^ (-1074) <= Tl - Ts <= 2 ^ 1023)%Q ->
  (forall temperature_average, In temperature_average temperatures ->
     exists T : Q,
       temperature_average (_dofs_map mp (cell_mp_dof cell)) = Fin T) ->
  _state mp (powder K) (_dofs_map mp (cell_mp_dof cell)) = Fin p0 ->
  (0 <= p0 <= 1)%Q ->
  temperatures <> [] ->
  let dof := _dofs_map mp (cell_mp_dof cell) in
  let state' := update_sequence_state64 K mp cells temperatures in
  fractions_within K state' dof (2 ^ (-53)) /\
  exists p : Q, state' (powder K) dof = Fin p /\ (0 <= p <= p0)%Q.
Proof.
  intros HK Hnd Hk HTs HTl Hlt Hrange HT Hp Hp01 Hne dof state'.
  destruct (round64_range (Tl + - Ts)%Q) as (d & Hd & Hpos).
  { unfold Qminus in Hrange. exact Hrange. }
  destruct (update_sequence_state64_invariant K mp cells k cell Ts Tl d HK Hnd
              Hk HTs HTl Hd Hpos temperatures (_state mp) p0 HT Hp Hp01)
    as [H1 H2].
  split; [apply H2; exact Hne | exact H1].
Qed.

Lemma update_sequence_keeps_fractions_witness :
  let mp := sample_material_property sample_properties (fun _ => 0%nat) in
  let state' :=
    update_sequence_state64 sample_constants mp sample_cells
      [fun _ => Fin 1008; fun _ => Fin 900; fun _ => Fin 1006] in
  fractions_within sample_constants state' 0%nat (2 ^ (-53)) /\
  exists p : Q,
    state' (powder sample_constants) 0%nat = Fin p /\ (0 <= p <= 1)%Q.
Proof.
  cbv zeta.
  refine (update_sequence_keeps_fractions sample_constants
            (sample_material_property sample_properties (fun _ => 0%nat))
            sample_cells
            [fun _ => Fin 1008; fun _ => Fin 900; fun _ => Fin 1006] 0
            {| cell_material_id := 0; cell_mp_dof := 0 |} 1000 1100 1
            eq_refl (sample_cells_NoDup _ _) eq_refl eq_refl eq_refl _ _
            _ eq_refl _ _).
  - reflexivity.
  - split; vm_compute; discriminate.
  - intros t [<- | [<- | [<- | []]]]; eexists; reflexivity.
  - split; discriminate.
  - discriminate.
Defined.

(** ** Properties that are not set *)

Lemma fill_material_properties_at (g_n_properties material_id : nat)
    (property : nat -> option double) (view : View2) (r j : nat) :
  fill_material_properties g_n_properties material_id property view r j =
  if (r =? material_id)%nat && (j <? g_n_properties)%nat
  then match property j with Some value => value | None => DBL_MAX end
  else view r j.
Proof.
  unfold fill_material_properties, for_range. rewrite Nat.sub_0_r.
  assert (H : forall count i (v : View2),
             for_loop count i
               (fun p v =>
                  set2 v material_id p
                    match property p with
                    | Some value => value
                    | None => DBL_MAX
                    end) v r j =
             if (r =? material_id)%nat && (i <=? j)%nat && (j <? i + count)%nat
             then match property j with Some value => value | None => DBL_MAX end
             else v r j).
  { induction count as [|count IH]; intros i v; simpl.
    - nat_cases.
    - rewrite IH. unfold set2. nat_cases. }
  rewrite H. nat_cases.
Qed.

(** X6.  A material whose database gives neither a solidus nor a
    liquidus gets the largest double for both, and a cell of that
    material never melts: for every averaged temperature below that
    value, [update] writes a liquid ratio of 0, keeps the powder ratio
    (at most 1) and writes [1 - powder] as solid ratio. *)
Theorem update_without_solidus_liquidus (K : Constants)
    (mp : MaterialProperty) (cells : list Cell)
    (temperature_average : View1 double) (k : nat) (cell : Cell)
    (g_n_properties : nat) (property : nat -> option double)
    (properties_host_view : View2) (T p : Q) :
  enums_ok K = true ->
  NoDup (mp_dofs_of mp cells) ->
  nth_error cells k = Some cell ->
  _properties mp =
  fill_material_properties g_n_properties (cell_material_id cell) property
    properties_host_view ->
  (prop_solidus K < g_n_properties)%nat ->
  (prop_liquidus K < g_n_properties)%nat ->
  property (prop_solidus K) = None ->
  property (prop_liquidus K) = None ->
  temperature_average (_dofs_map mp (cell_mp_dof cell)) = Fin T ->
  (Fin T <? DBL_MAX) = true ->
  _state mp (powder K) (_dofs_map mp (cell_mp_dof cell)) = Fin p ->
  p <= 1 ->
  let dof := _dofs_map mp (cell_mp_dof cell) in
  let mp' := update K mp cells temperature_average in
  _state mp' (liquid K) dof = Fin 0 /\
  _state mp' (powder K) dof =~= Fin p /\
  _state mp' (solid K) dof =~= Fin (1 - p).
Proof.
  intros Hok Hnd Hk Hprops Hs Hl Hsn Hln HT Hmax Hp Hp1. cbv zeta.
  pose proof (update_at_cell K mp cells temperature_average k cell Hnd Hk)
    as H.
  cbv zeta in H. rewrite HT in H.
  assert (Es : _properties mp (cell_material_id cell) (prop_solidus K)
               = DBL_MAX).
  { rewrite Hprops, fill_material_properties_at, Nat.eqb_refl.
    apply Nat.ltb_lt in Hs. rewrite Hs, Hsn. reflexivity. }
  assert (El : _properties mp (cell_material_id cell) (prop_liquidus K)
               = DBL_MAX).
  { rewrite Hprops, fill_material_properties_at, Nat.eqb_refl.
    apply Nat.ltb_lt in Hl. rewrite Hl, Hln. reflexivity. }
  rewrite Es, El in H.
  rewrite (proj1 (H (liquid K))), (proj1 (H (powder K))),
    (proj1 (H (solid K))).
  rewrite unit_fractions_liquid, unit_fractions_powder, unit_fractions_solid
    by exact Hok.
  cbv zeta. rewrite Hp.
  assert (E0 : liquid_ratio_of (Fin T) DBL_MAX DBL_MAX = Fin 0)
    by (unfold liquid_ratio_of; rewrite Hmax; reflexivity).
  rewrite E0. split; [reflexivity|].
  destruct (powder_ratio_non_increasing 0 p) as (pw & Epw & Hpw1 & Hpw2 & Hpw3).
  rewrite Epw.
  assert (Hpw : pw == p) by (destruct Hpw3; lra).
  split; [exact Hpw|].
  unfold std_max. rewrite !dsub_Fin.
  assert (E : (Fin (1 - 0 - pw) <? Fin 0) = false)
    by (apply dlt_Fin_false; lra).
  rewrite E. simpl. lra.
Qed.

Lemma update_without_solidus_liquidus_witness :
  let mp :=
    {| _use_table := true;
       _dofs_map := fun mp_dof => mp_dof;
       _state := initial_state (fun _ => 0%nat);
       _property_values := zero2;
       _properties := fill_material_properties 5 0 (fun _ => None) zero2;
       _state_property_tables := sample_tables;
       _state_property_polynomials := fun _ _ _ _ => Fin 0 |} in
  let mp' := update sample_constants mp sample_cells (fun _ => Fin 5000) in
  _state mp' (liquid sample_constants) 0%nat = Fin 0 /\
  _state mp' (powder sample_constants) 0%nat =~= Fin 1 /\
  _state mp' (solid sample_constants) 0%nat =~= Fin (1 - 1).
Proof.
  cbv zeta.
  refine (update_without_solidus_liquidus sample_constants
            {| _use_table := true;
               _dofs_map := fun mp_dof => mp_dof;
               _state := initial_state (fun _ => 0%nat);
               _property_values := zero2;
               _properties :=
                 fill_material_properties 5 0 (fun _ => None) zero2;
               _state_property_tables := sample_tables;
               _state_property_polynomials := fun _ _ _ _ => Fin 0 |}
            sample_cells
            (fun _ => Fin 5000) 0
            {| cell_material_id := 0; cell_mp_dof := 0 |} 5
            (fun _ => None) zero2 5000 1 eq_refl _ eq_refl eq_refl _ _
            eq_refl eq_refl eq_refl eq_refl eq_refl _).
  - constructor; [simpl; intros [H | []]; discriminate|].
    constructor; [intros []|]. constructor.
  - simpl. lia.
  - simpl. lia.
  - discriminate.
Defined.

(** ** The table evaluator on finite tables *)




(** ** [compute_material_property] *)

Lemma compute_material_property_blended (K : Constants)
    (mp : MaterialProperty) (property_index material_id : nat)
    (state_ratios : nat -> double) (temperature : double) :
  compute_material_property K mp property_index material_id state_ratios
    temperature =
  blended_property K (_use_table mp) (_state_property_tables mp)
    (_state_property_polynomials mp) state_ratios material_id property_index
    temperature (Fin 0).
Proof. reflexivity. Qed.

(** X8.  The values cached by [update] agree with
    [compute_material_property]: for a locally owned cell and a thermal
    property other than the radiation coefficient, the stored value is
    the one [compute_material_property] returns for the new ratios of
    the cell at its averaged temperature, unless the property is the
    specific heat and the cell is in the mushy zone. *)
Theorem update_agrees_with_compute_material_property (K : Constants)
    (mp : MaterialProperty) (cells : list Cell)
    (temperature_average : View1 double) (k : nat) (cell : Cell)
    (property : nat) :
  enums_ok K = true ->
  NoDup (mp_dofs_of mp cells) ->
  nth_error cells k = Some cell ->
  (property < g_n_thermal_state_properties K)%nat ->
  property <> radiation_heat_transfer_coef_prop K ->
  let dof := _dofs_map mp (cell_mp_dof cell) in
  let mp' := update K mp cells temperature_average in
  property <> specific_heat_prop K \/
  in_mushy_zone (_state mp' (liquid K) dof) = false ->
  _property_values mp' property dof =
  compute_material_property K mp' property (cell_material_id cell)
    (fun state => _state mp' state dof) (temperature_average dof).
Proof.
  intros Hok Hnd Hk Hp Hrad dof mp' Hmushy.
  rewrite compute_material_property_blended.
  pose proof (update_property_values_at_cell K mp cells temperature_average k
                cell Hok Hnd Hk property) as H.
  cbv zeta in H. fold dof mp' in H. rewrite H.
  unfold unit_property_values.
  apply Nat.eqb_neq in Hrad. rewrite Hrad.
  apply Nat.ltb_lt in Hp. rewrite Hp.
  destruct Hmushy as [Hsh | Hm].
  - apply Nat.eqb_neq in Hsh. rewrite Hsh, andb_false_r. reflexivity.
  - rewrite Hm. reflexivity.
Qed.

Lemma update_agrees_with_compute_material_property_witness :
  let mp := sample_material_property sample_properties (fun _ => 0%nat) in
  let mp' := update sample_constants mp sample_cells (fun _ => Fin 1050) in
  _property_values mp' 0%nat 0%nat =
  compute_material_property sample_constants mp' 0 0
    (fun state => _state mp' state 0%nat) (Fin 1050).
Proof.
  cbv zeta.
  refine (update_agrees_with_compute_material_property sample_constants
            (sample_material_property sample_properties (fun _ => 0%nat))
            sample_cells (fun _ => Fin 1050) 0
            {| cell_material_id := 0; cell_mp_dof := 0 |} 0
            eq_refl (sample_cells_NoDup _ _) eq_refl _ _ _).
  - simpl. lia.
  - discriminate.
  - left. discriminate.
Defined.

(** Loops over the lanes of a vectorized array. *)
Lemma lane_cell_loop (n : nat) (h : nat -> double -> double)
    (body : nat -> (nat -> double) -> nat -> double) :
  (forall k v n', body k v n' = if (n' =? n)%nat then h k (v n) else v n') ->
  forall count i v n',
    for_loop count i body v n' =
    if (n' =? n)%nat then for_loop count i h (v n) else v n'.
Proof.
  intros Hb. induction count as [|count IH]; intros i v n'; simpl.
  - nat_cases.
  - rewrite IH, !Hb, Nat.eqb_refl.
    destruct (n' =? n)%nat; reflexivity.
Qed.

Lemma lane_rows_loop (g : nat -> double -> double)
    (body : nat -> (nat -> double) -> nat -> double) :
  (forall k v n', body k v n' = if (n' =? k)%nat then g k (v k) else v n') ->
  forall count i v n',
    for_loop count i body v n' =
    if (i <=? n')%nat && (n' <? i + count)%nat then g n' (v n') else v n'.
Proof.
  intros Hb. induction count as [|count IH]; intros i v n'; simpl.
  - nat_cases.
  - rewrite IH, !Hb. nat_cases.
Qed.

Lemma lane_states_loop (n_lanes : nat) (g : nat -> nat -> double -> double)
    (body : nat -> (nat -> double) -> nat -> double) :
  (forall s v n',
      body s v n' = if (n' <? n_lanes)%nat then g s n' (v n') else v n') ->
  forall count i v n',
    for_loop count i body v n' =
    if (n' <? n_lanes)%nat
    then for_loop count i (fun s acc => g s n' acc) (v n') else v n'.
Proof.
  intros Hb. induction count as [|count IH]; intros i v n'; simpl.
  - destruct (n' <? n_lanes)%nat; reflexivity.
  - rewrite IH, !Hb. destruct (n' <? n_lanes)%nat; reflexivity.
Qed.

(** X9.  The vectorized [compute_material_property] computes, in each
    lane, what the scalar one computes from the material id, the state
    ratios and the temperature of that lane, provided that, in the
    polynomial format, [temperature_powers] holds the powers of the
    temperature of the lane. *)
Theorem compute_material_property_vectorized_lane (K : Constants)
    (mp : MaterialProperty) (n_lanes property_index : nat)
    (material_id : nat -> nat) (state_ratios : nat -> nat -> double)
    (temperature : nat -> double) (temperature_powers : nat -> nat -> double)
    (n : nat) :
  (n < n_lanes)%nat ->
  (_use_table mp = false ->
   forall i, (i <= polynomial_order K)%nat ->
             temperature_powers i n = std_pow (temperature n) i) ->
  compute_material_property_vectorized K mp n_lanes property_index
    material_id state_ratios temperature temperature_powers n =
  compute_material_property K mp property_index (material_id n)
    (fun material_state => state_ratios material_state n) (temperature n).
Proof.
  intros Hn Hpow.
  unfold compute_material_property_vectorized, compute_material_property,
    for_range.
  cbv zeta. rewrite !Nat.sub_0_r.
  apply Nat.ltb_lt in Hn.
  destruct (_use_table mp).
  - rewrite (lane_states_loop n_lanes
      (fun s n' x =>
         x + state_ratios s n' *
             compute_property_from_table (_state_property_tables mp)
               (material_id n') s property_index (temperature n'))).
    + rewrite Hn. reflexivity.
    + intros s v n'.
      rewrite (lane_rows_loop
        (fun n0 x =>
           x + state_ratios s n0 *
               compute_property_from_table (_state_property_tables mp)
                 (material_id n0) s property_index (temperature n0))).
      * simpl. reflexivity.
      * intros k v' n''. unfold set1. reflexivity.
  - rewrite (lane_states_loop n_lanes
      (fun s n' x =>
         for_loop (polynomial_order K + 1) 0
           (fun i acc =>
              acc + state_ratios s n' *
                    _state_property_polynomials mp (material_id n') s
                      property_index i *
                    temperature_powers i n') x)).
    + rewrite Hn. apply for_loop_ext. intros s x _.
      apply for_loop_ext. intros i y Hi.
      rewrite Hpow by (reflexivity || lia). reflexivity.
    + intros s v n'.
      rewrite (lane_rows_loop
        (fun n0 x =>
           for_loop (polynomial_order K + 1) 0
             (fun i acc =>
                acc + state_ratios s n0 *
                      _state_property_polynomials mp (material_id n0) s
                        property_index i *
                      temperature_powers i n0) x)).
      * simpl. reflexivity.
      * intros k v' n''.
        rewrite (lane_cell_loop k
          (fun i acc =>
             acc + state_ratios s k *
                   _state_property_polynomials mp (material_id k) s
                     property_index i *
                   temperature_powers i k)).
        -- reflexivity.
        -- intros i v'' n3. unfold set1. reflexivity.
Qed.

Lemma compute_material_property_vectorized_lane_witness :
  let mp := sample_material_property sample_properties (fun _ => 0%nat) in
  compute_material_property_vectorized sample_constants mp 4 0
    (fun _ => 0%nat) (fun state lane => if (state =? lane)%nat then Fin 1 else Fin 0)
    (fun lane => Fin (inject_Z (Z.of_nat (50 * lane)))) (fun _ _ => Fin 0) 1%nat =
  compute_material_property sample_constants mp 0 0
    (fun state => if (state =? 1)%nat then Fin 1 else Fin 0) (Fin 50).
Proof.
  cbv zeta.
  refine (compute_material_property_vectorized_lane sample_constants
            (sample_material_property sample_properties (fun _ => 0%nat))
            4 0 (fun _ => 0%nat)
            (fun state lane => if (state =? lane)%nat then Fin 1 else Fin 0)
            (fun lane => Fin (inject_Z (Z.of_nat (50 * lane))))
            (fun _ _ => Fin 0) 1 _ _).
  - lia.
  - intro H. discriminate H.
Defined.

(** ** The boundary entry point, cell by cell *)

Lemma boundary_step_at (K : Constants) (mp : MaterialProperty)
    (temperature_average : View1 double) (cell : Cell) (pv : View2)
    (r d : nat) :
  let material_id := cell_material_id cell in
  let dof := _dofs_map mp (cell_mp_dof cell) in
  radiation_coefficient K (_properties mp) material_id dof
    (temperature_average dof)
    (accumulate_properties K (_use_table mp) (_state_property_tables mp)
       (_state_property_polynomials mp) (_state mp) material_id dof
       (temperature_average dof) 3 pv) r d =
  if (d =? dof)%nat
  then unit_property_values K (_use_table mp) (_state_property_tables mp)
         (_state_property_polynomials mp) (_properties mp)
         (fun state => _state mp state dof) material_id
         (temperature_average dof) 3 false (fun p => pv p dof) r
  else pv r d.
Proof.
  cbv zeta. unfold radiation_coefficient, unit_property_values.
  unfold set2 at 1.
  rewrite !accumulate_properties_at.
  rewrite !Nat.eqb_refl, !andb_true_r.
  destruct (Nat.eqb_spec d (_dofs_map mp (cell_mp_dof cell))) as [->|Hd].
  - rewrite !andb_true_r. simpl.
    destruct (Nat.eqb_spec r (radiation_heat_transfer_coef_prop K));
      reflexivity.
  - rewrite !andb_false_r. reflexivity.
Qed.

Lemma update_boundary_at_cell (K : Constants) (mp : MaterialProperty)
    (cells : list Cell) (temperature_average : View1 double) (k : nat)
    (cell : Cell) (r : nat) :
  NoDup (mp_dofs_of mp cells) ->
  nth_error cells k = Some cell ->
  let dof := _dofs_map mp (cell_mp_dof cell) in
  _property_values
    (update_boundary_material_properties K mp cells temperature_average) r dof
  = unit_property_values K (_use_table mp) (_state_property_tables mp)
      (_state_property_polynomials mp) (_properties mp)
      (fun state => _state mp state dof) (cell_material_id cell)
      (temperature_average dof) 3 false (fun _ => Fin 0) r.
Proof.
  intros Hnd Hk dof.
  assert (Hlt : (k < List.length cells)%nat)
    by (apply nth_error_Some; rewrite Hk; discriminate).
  set (d0 := {| cell_material_id := 0; cell_mp_dof := 0 |}).
  unfold update_boundary_material_properties. simpl.
  rewrite (fold_left_as_for_loop _ d0).
  set (key := fun i => _dofs_map mp (cell_mp_dof (nth i cells d0))).
  set (G := fun (i : nat) (f : nat -> double) (r : nat) =>
              unit_property_values K (_use_table mp)
                (_state_property_tables mp) (_state_property_polynomials mp)
                (_properties mp)
                (fun state => _state mp state (key i))
                (cell_material_id (nth i cells d0))
                (temperature_average (key i)) 3 false f r).
  assert (Hkey : forall i, (i < List.length cells)%nat ->
                           key i = nth i (mp_dofs_of mp cells) 0%nat).
  { intros i Hi. unfold key, mp_dofs_of. symmetry.
    apply (nth_map_default
             (fun cell => _dofs_map mp (cell_mp_dof cell)) cells i d0 Hi). }
  pose proof (column_loop_at View2 nat double
                (fun (s : View2) r d => s r d)
                (fun i (pv : View2) =>
                   radiation_coefficient K (_properties mp)
                     (cell_material_id (nth i cells d0)) (key i)
                     (temperature_average (key i))
                     (accumulate_properties K (_use_table mp)
                        (_state_property_tables mp)
                        (_state_property_polynomials mp) (_state mp)
                        (cell_material_id (nth i cells d0)) (key i)
                        (temperature_average (key i)) 3 pv))
                key G) as H.
  cbv beta in H.
  assert (Hstep : forall i (s : View2) r d,
             radiation_coefficient K (_properties mp)
               (cell_material_id (nth i cells d0)) (key i)
               (temperature_average (key i))
               (accumulate_properties K (_use_table mp)
                  (_state_property_tables mp)
                  (_state_property_polynomials mp) (_state mp)
                  (cell_material_id (nth i cells d0)) (key i)
                  (temperature_average (key i)) 3 s) r d =
             if (d =? key i)%nat then G i (fun r' => s r' (key i)) r
             else s r d).
  { intros i s r' d. apply boundary_step_at. }
  assert (HG : forall i (f g : nat -> double) r,
             (forall r', f r' = g r') -> G i f r = G i g r).
  { intros i f g r' Hfg. unfold G.
    apply unit_property_values_ext; [reflexivity | exact Hfg]. }
  specialize (H Hstep HG (List.length cells) 0%nat zero2).
  assert (Hd : forall a b, (0 <= a < b)%nat ->
                 (b < 0 + List.length cells)%nat -> key a <> key b).
  { intros a b Ha Hb. rewrite !Hkey by lia.
    apply NoDup_nth_distinct; [exact Hnd|lia|].
    unfold mp_dofs_of. rewrite length_map. lia. }
  specialize (H Hd k (conj (Nat.le_0_l k) Hlt) r).
  assert (Ecell : nth k cells d0 = cell) by (apply nth_error_nth; exact Hk).
  assert (Ekey : key k = dof) by (unfold key; rewrite Ecell; reflexivity).
  transitivity (G k (fun r' => zero2 r' (key k)) r).
  - rewrite <- H. rewrite Ekey. reflexivity.
  - unfold G. rewrite Ekey, Ecell. reflexivity.
Qed.

(** X10.  Called after [update] with the same averaged temperatures,
    [update_boundary_material_properties] recomputes the values that
    [update] had stored for every property of index 3 and above, the
    radiation coefficient included, for every locally owned cell.  The
    enumerators declared in [types.hh] are assumed to place the
    specific heat below 3 and the emissivity at 3 or above. *)
Theorem update_boundary_agrees_with_update (K : Constants)
    (mp : MaterialProperty) (cells : list Cell)
    (temperature_average : View1 double) (k : nat) (cell : Cell)
    (property : nat) :
  enums_ok K = true ->
  NoDup (mp_dofs_of mp cells) ->
  nth_error cells k = Some cell ->
  (specific_heat_prop K < 3)%nat ->
  (3 <= emissivity_prop K)%nat ->
  (3 <= property)%nat ->
  let dof := _dofs_map mp (cell_mp_dof cell) in
  let mp1 := update K mp cells temperature_average in
  let mp2 := update_boundary_material_properties K mp1 cells
               temperature_average in
  _property_values mp2 property dof = _property_values mp1 property dof.
Proof.
  intros Hok Hnd Hk Hsh Hem Hp dof mp1 mp2.
  pose proof (update_property_values_at_cell K mp cells temperature_average k
                cell Hok Hnd Hk property) as H1.
  cbv zeta in H1. fold dof mp1 in H1.
  pose proof (update_boundary_at_cell K mp1 cells temperature_average k cell
                property Hnd Hk) as H2.
  cbv zeta in H2. fold mp2 in H2.
  change (_dofs_map mp1 (cell_mp_dof cell)) with dof in H2.
  rewrite H1, H2. unfold unit_property_values.
  assert (E1 : (emissivity_prop K =? specific_heat_prop K)%nat = false)
    by (apply Nat.eqb_neq; lia).
  assert (E2 : (property =? specific_heat_prop K)%nat = false)
    by (apply Nat.eqb_neq; lia).
  assert (E3 : (3 <=? emissivity_prop K)%nat = true)
    by (apply Nat.leb_le; exact Hem).
  assert (E4 : (3 <=? property)%nat = true) by (apply Nat.leb_le; exact Hp).
  rewrite E1, E2, E3, E4, !andb_false_r. reflexivity.
Qed.

Lemma update_boundary_agrees_with_update_witness :
  let mp := sample_material_property sample_properties (fun _ => 0%nat) in
  let mp1 := update sample_constants mp sample_cells (fun _ => Fin 1050) in
  let mp2 := update_boundary_material_properties sample_constants mp1
               sample_cells (fun _ => Fin 1050) in
  _property_values mp2 5%nat 0%nat = _property_values mp1 5%nat 0%nat.
Proof.
  cbv zeta.
  refine (update_boundary_agrees_with_update sample_constants
            (sample_material_property sample_properties (fun _ => 0%nat))
            sample_cells (fun _ => Fin 1050) 0
            {| cell_material_id := 0; cell_mp_dof := 0 |} 5
            eq_refl (sample_cells_NoDup _ _) eq_refl _ _ _);
    simpl; lia.
Defined.

(** ** What [fill_properties] stores *)

Lemma split_nonempty (sep : ascii) (s : string) :
  (1 <= List.length (split sep s))%nat.
Proof.
  induction s as [|c s IH]; simpl; [lia|].
  destruct (Ascii.eqb c sep); simpl; [lia|].
  destruct (split sep s); simpl in *; lia.
Qed.

Section TableEntries.

Variable K : Constants.
Variable stod : string -> option double.
Variables material_id state p : nat.

Hypothesis Hstored :
  (p < g_n_thermal_state_properties K)%nat \/ state = solid K.

Let load := load_table_entry K material_id state p.
Let store := store_table_entry K material_id state p.

Lemma load_store_same (i c : nat) (x : double) (b : HostBlocks) :
  load i c (store i c x b) = x.
Proof.
  unfold load, store, load_table_entry, store_table_entry.
  destruct (p <? g_n_thermal_state_properties K)%nat eqn:E; simpl.
  - rewrite !Nat.eqb_refl. reflexivity.
  - destruct Hstored as [H | H]; [apply Nat.ltb_lt in H; congruence|].
    rewrite H, Nat.eqb_refl. simpl. unfold set4.
    rewrite !Nat.eqb_refl. reflexivity.
Qed.

Lemma load_store_other (i c i' c' : nat) (x : double) (b : HostBlocks) :
  i' <> i \/ c' <> c ->
  load i' c' (store i c x b) = load i' c' b.
Proof.
  intro Hne.
  unfold load, store, load_table_entry, store_table_entry.
  destruct (p <? g_n_thermal_state_properties K)%nat eqn:E; simpl.
  - rewrite !Nat.eqb_refl. simpl.
    destruct Hne as [H | H]; apply Nat.eqb_neq in H; rewrite H;
      rewrite ?andb_false_r; reflexivity.
  - destruct (state =? solid K)%nat; simpl; [|reflexivity].
    unfold set4. rewrite !Nat.eqb_refl. simpl.
    destruct Hne as [H | H]; apply Nat.eqb_neq in H; rewrite H;
      rewrite ?andb_false_r; reflexivity.
Qed.

Lemma fill_table_pairs_load :
  forall entries i0 b b',
    fill_table_pairs K stod material_id state p entries i0 b = Ok b' ->
    (forall i, (i < List.length entries)%nat ->
       parse_pair stod (nth i entries EmptyString) =
       Some (load (i0 + i)%nat 0%nat b', load (i0 + i)%nat 1%nat b')) /\
    (forall i c, (i < i0)%nat -> load i c b' = load i c b).
Proof.
  assert (Hcond : (p <? g_n_thermal_state_properties K)%nat
                  || (state =? solid K)%nat = true).
  { destruct Hstored as [H | H].
    - apply Nat.ltb_lt in H. rewrite H. reflexivity.
    - rewrite H, Nat.eqb_refl. apply orb_true_r. }
  induction entries as [|entry rest IH]; intros i0 b b' H; simpl in H.
  - injection H as <-. split; [simpl; intros; lia | reflexivity].
  - unfold ASSERT in H. rewrite Hcond in H.
    destruct (split "," entry) as [|t [|v [|x l]]] eqn:E; simpl in H;
      try discriminate.
    destruct (stod t) as [t'|] eqn:Et; [|discriminate].
    destruct (stod v) as [v'|] eqn:Ev; [|discriminate].
    fold store in H.
    destruct (IH (S i0) _ b' H) as [H1 H2].
    assert (E0 : load i0 0%nat b' = t').
    { rewrite H2 by lia.
      rewrite load_store_other by (right; discriminate).
      apply load_store_same. }
    assert (E1 : load i0 1%nat b' = v').
    { rewrite H2 by lia. apply load_store_same. }
    split.
    + intros [|i] Hi; simpl.
      * rewrite Nat.add_0_r, E0, E1. unfold parse_pair.
        rewrite E, Et, Ev. reflexivity.
      * rewrite Nat.add_succ_r. apply (H1 i). simpl in Hi. lia.
    + intros i c Hi. rewrite H2 by lia.
      rewrite !load_store_other by (left; lia). reflexivity.
Qed.

(** The loop that fills the rest of a table. *)
Lemma fill_rest_load :
  forall count i0 b,
    (1 <= i0)%nat ->
    let b' :=
      for_loop count i0
        (fun i blocks =>
           let blocks :=
             store i 0%nat (load (i - 1)%nat 0%nat blocks) blocks in
           store i 1%nat (load (i - 1)%nat 1%nat blocks) blocks) b in
    (forall i c, (i < i0)%nat -> load i c b' = load i c b) /\
    (forall i c, (i0 <= i < i0 + count)%nat -> (c <= 1)%nat ->
                 load i c b' = load (i0 - 1)%nat c b).
Proof.
  induction count as [|count IH]; intros i0 b Hi0; simpl.
  - split; [reflexivity | intros; lia].
  - set (b1 := store i0 0%nat (load (i0 - 1)%nat 0%nat b) b).
    set (b2 := store i0 1%nat (load (i0 - 1)%nat 1%nat b1) b1).
    destruct (IH (S i0) b2) as [H1 H2]; [lia|].
    assert (E0 : load i0 0%nat b2 = load (i0 - 1)%nat 0%nat b).
    { unfold b2. rewrite load_store_other by (right; discriminate).
      unfold b1. apply load_store_same. }
    assert (E1 : load i0 1%nat b2 = load (i0 - 1)%nat 1%nat b).
    { unfold b2. rewrite load_store_same.
      unfold b1. apply load_store_other. left. lia. }
    assert (Hlow : forall i c, (i < i0)%nat -> load i c b2 = load i c b).
    { intros i c Hi. unfold b2, b1.
      rewrite !load_store_other by (left; lia). reflexivity. }
    split.
    + intros i c Hi. rewrite H1 by lia. apply Hlow. exact Hi.
    + intros i c Hi Hc.
      destruct (Nat.eq_dec i i0) as [->|Hne].
      * rewrite H1 by lia.
        destruct c as [|[|c]]; [exact E0 | exact E1 | lia].
      * rewrite H2 by lia.
        replace (S i0 - 1)%nat with i0 by lia.
        destruct c as [|[|c]]; [exact E0 | exact E1 | lia].
Qed.

(** X11.  When [fill_properties] reads a table without throwing, the
    block holds, for every parsed entry, the breakpoint and the value
    that [std::stod] returned for its two comma-separated fields, and
    every following entry up to the capacity repeats the last parsed
    one.  This holds for a thermal property of any state and for a
    mechanical property of the solid state. *)
Theorem read_table_stores_pairs (property : string) (blocks blocks' : HostBlocks) :
  read_state_property K stod true material_id state p property blocks
  = Ok blocks' ->
  let entries := split ";" (remove_spaces property) in
  let n := List.length entries in
  (1 <= n <= table_size K)%nat /\
  (forall i, (i < n)%nat ->
     parse_pair stod (nth i entries EmptyString) =
     Some (load_table_entry K material_id state p i 0 blocks',
           load_table_entry K material_id state p i 1 blocks')) /\
  (forall i c, (n <= i < table_size K)%nat -> (c <= 1)%nat ->
     load_table_entry K material_id state p i c blocks' =
     load_table_entry K material_id state p (n - 1) c blocks').
Proof.
  intros H entries n.
  pose proof (split_nonempty ";" (remove_spaces property)) as Hn1.
  fold entries in Hn1. fold n in Hn1.
  unfold read_state_property, ASSERT_THROW in H.
  fold entries in H. fold n in H.
  destruct (Nat.leb_spec n (table_size K)) as [Hle | Hgt]; [|discriminate].
  destruct (fill_table_pairs K stod material_id state p entries 0 blocks)
    as [b1|what] eqn:E; [|discriminate].
  injection H as H. subst blocks'.
  destruct (fill_table_pairs_load entries 0 blocks b1 E) as [Hp _].
  destruct (fill_rest_load (table_size K - n) n b1 Hn1) as [H1 H2].
  split; [lia|]. split.
  - intros i Hi. rewrite (Hp i Hi).
    f_equal. f_equal; symmetry; apply (H1 i); lia.
  - intros i c Hi Hc.
    transitivity (load (n - 1)%nat c b1).
    + apply (H2 i c); [lia | exact Hc].
    + symmetry. apply (H1 (n - 1)%nat c). lia.
Qed.

End TableEntries.

Lemma read_table_stores_pairs_witness :
  exists blocks',
    read_state_property sample_constants stod_decimal true 0 0 0
      "0,10; 100,20; 200,20" (zero_blocks sample_constants) = Ok blocks' /\
    load_table_entry sample_constants 0 0 0 1 0 blocks' = Fin 100 /\
    load_table_entry sample_constants 0 0 0 3 1 blocks' =
    load_table_entry sample_constants 0 0 0 2 1 blocks'.
Proof.
  destruct (read_state_property sample_constants stod_decimal true 0 0 0
              "0,10; 100,20; 200,20" (zero_blocks sample_constants))
    as [blocks'|what] eqn:E; [|vm_compute in E; discriminate E].
  exists blocks'. split; [reflexivity|].
  destruct (read_table_stores_pairs sample_constants stod_decimal 0 0 0
              (or_introl (Nat.lt_0_succ 6)) "0,10; 100,20; 200,20"
              (zero_blocks sample_constants) blocks' E) as (_ & Hp & Hr).
  split.
  - assert (H13 : (1 < 3)%nat) by lia.
    specialize (Hp 1%nat H13).
    vm_compute in Hp. injection Hp as Hp _. symmetry. exact Hp.
  - apply (Hr 3%nat 1%nat); simpl; lia.
Defined.

Section PolynomialCoefficients.

Variable K : Constants.
Variable stod : string -> option double.
Variables material_id state p : nat.

Let coefficient := polynomial_coefficient K material_id state p.

Lemma fill_polynomial_coefficients_stored :
  forall parsed_property i0 b b',
    fill_polynomial_coefficients K stod material_id state p parsed_property
      i0 b = Ok b' ->
    (forall i, (i < List.length parsed_property)%nat ->
       stod (nth i parsed_property EmptyString) =
       Some (coefficient (i0 + i)%nat b')) /\
    (forall i, (i < i0 \/ i0 + List.length parsed_property <= i)%nat ->
       coefficient i b' = coefficient i b).
Proof.
  induction parsed_property as [|c rest IH]; intros i0 b b' H; simpl in H.
  - injection H as <-. split; [simpl; intros; lia | reflexivity].
  - destruct (stod c) as [x|] eqn:Ec; [|discriminate].
    destruct (IH (S i0) _ b' H) as [H1 H2].
    assert (Hsame : forall i b0,
               coefficient i
                 (if (p <? g_n_thermal_state_properties K)%nat
                  then
                    {| state_property_tables_host :=
                         state_property_tables_host b0;
                       mechanical_properties_tables_host :=
                         mechanical_properties_tables_host b0;
                       state_property_polynomials_host :=
                         set4 (state_property_polynomials_host b0)
                           material_id state p i0 x;
                       mechanical_properties_polynomials_host :=
                         mechanical_properties_polynomials_host b0 |}
                  else
                    {| state_property_tables_host :=
                         state_property_tables_host b0;
                       mechanical_properties_tables_host :=
                         mechanical_properties_tables_host b0;
                       state_property_polynomials_host :=
                         state_property_polynomials_host b0;
                       mechanical_properties_polynomials_host :=
                         set3 (mechanical_properties_polynomials_host b0)
                           material_id
                           (p - g_n_thermal_state_properties K) i0 x |}) =
               if (i =? i0)%nat then x else coefficient i b0).
    { intros i b0. unfold coefficient, polynomial_coefficient.
      destruct (p <? g_n_thermal_state_properties K)%nat; simpl.
      - unfold set4. rewrite !Nat.eqb_refl. simpl. reflexivity.
      - unfold set3. rewrite !Nat.eqb_refl. simpl. reflexivity. }
    split.
    + intros [|i] Hi; simpl.
      * rewrite Nat.add_0_r, H2 by lia.
        rewrite Hsame, Nat.eqb_refl. exact Ec.
      * rewrite Nat.add_succ_r. apply (H1 i). simpl in Hi. lia.
    + intros i Hi. simpl in Hi. rewrite H2 by lia.
      rewrite Hsame.
      destruct (Nat.eqb_spec i i0); [lia | reflexivity].
Qed.

(** X12.  When [fill_properties] reads a polynomial without throwing,
    the slot of every parsed coefficient holds the number that
    [std::stod] returned for it, and the slots of higher index keep
    what they held; at most [polynomial_order] coefficients are
    accepted, so the slot of index [polynomial_order] is never
    assigned.  A mechanical property is stored whatever the state it is
    read from. *)
Theorem read_polynomial_stores_coefficients (property : string)
    (blocks blocks' : HostBlocks) :
  read_state_property K stod false material_id state p property blocks
  = Ok blocks' ->
  let parsed_property := split "," (remove_spaces property) in
  let n := List.length parsed_property in
  (1 <= n <= polynomial_order K)%nat /\
  (forall i, (i < n)%nat ->
     stod (nth i parsed_property EmptyString) =
     Some (polynomial_coefficient K material_id state p i blocks')) /\
  (forall i, (n <= i)%nat ->
     polynomial_coefficient K material_id state p i blocks' =
     polynomial_coefficient K material_id state p i blocks) /\
  polynomial_coefficient K material_id state p (polynomial_order K) blocks' =
  polynomial_coefficient K material_id state p (polynomial_order K) blocks.
Proof.
  intros H parsed_property n.
  pose proof (split_nonempty "," (remove_spaces property)) as Hn1.
  fold parsed_property in Hn1. fold n in Hn1.
  unfold read_state_property, ASSERT_THROW in H.
  fold parsed_property in H. fold n in H.
  destruct (Nat.leb_spec n (polynomial_order K)) as [Hle | Hgt];
    [|discriminate].
  destruct (fill_polynomial_coefficients_stored parsed_property 0 blocks
              blocks' H) as [H1 H2].
  fold coefficient.
  split; [lia|]. split; [exact H1|]. split.
  - intros i Hi. apply H2. right. fold n. lia.
  - apply H2. right. fold n. lia.
Qed.

End PolynomialCoefficients.

Lemma read_polynomial_stores_coefficients_witness :
  exists blocks',
    read_state_property sample_constants stod_decimal false 0 2 8
      "7, 5" (zero_blocks sample_constants) = Ok blocks' /\
    mechanical_properties_polynomials_host blocks' 0%nat 1%nat 1%nat = Fin 5 /\
    mechanical_properties_polynomials_host blocks' 0%nat 1%nat 4%nat = Fin 0.
Proof.
  destruct (read_state_property sample_constants stod_decimal false 0 2 8
              "7, 5" (zero_blocks sample_constants))
    as [blocks'|what] eqn:E; [|vm_compute in E; discriminate E].
  exists blocks'. split; [reflexivity|].
  destruct (read_polynomial_stores_coefficients sample_constants stod_decimal
              0 2 8 "7, 5" (zero_blocks sample_constants) blocks' E)
    as (_ & Hp & _ & Hr).
  split.
  - assert (H12 : (1 < 2)%nat) by lia.
    specialize (Hp 1%nat H12).
    vm_compute in Hp. injection Hp as Hp. symmetry. exact Hp.
  - exact Hr.
Defined.

Lemma for_loop_identity {A : Type} (body : nat -> A -> A) :
  (forall i a, body i a = a) ->
  forall count i a, for_loop count i body a = a.
Proof.
  intro H. induction count as [|count IH]; intros i a; simpl; [reflexivity|].
  rewrite H. apply IH.
Qed.

(** X13.  In the table format a mechanical property is stored for the
    solid state only.  Read for another state, its numbers are not
    parsed: the outcome does not depend on [std::stod], and when the
    reading does not throw (the size check and the check of the two
    fields of each pair remain) the four blocks are left as they
    were. *)
Theorem read_table_mechanical_other_state (K : Constants)
    (stod : string -> option double) (material_id state p : nat)
    (property : string) (blocks : HostBlocks) :
  (g_n_thermal_state_properties K <= p)%nat ->
  state <> solid K ->
  (forall blocks',
      read_state_property K stod true material_id state p property blocks
      = Ok blocks' -> blocks' = blocks) /\
  (forall stod' : string -> option double,
      read_state_property K stod' true material_id state p property blocks =
      read_state_property K stod true material_id state p property blocks).
Proof.
  intros Hp Hs.
  assert (Hcond : (p <? g_n_thermal_state_properties K)%nat
                  || (state =? solid K)%nat = false).
  { destruct (Nat.ltb_spec p (g_n_thermal_state_properties K)); [lia|].
    destruct (Nat.eqb_spec state (solid K)); [contradiction | reflexivity]. }
  assert (Hstore : forall i c x b,
             store_table_entry K material_id state p i c x b = b).
  { intros i c x b. unfold store_table_entry.
    destruct (Nat.ltb_spec p (g_n_thermal_state_properties K)); [lia|].
    destruct (Nat.eqb_spec state (solid K)); [contradiction|reflexivity]. }
  assert (Hfill : forall s entries i0 b b',
             fill_table_pairs K s material_id state p entries i0 b
             = Ok b' -> b' = b).
  { intros s. induction entries as [|entry rest IH]; intros i0 b b' H';
      simpl in H'.
    - congruence.
    - unfold ASSERT in H'. rewrite Hcond in H'.
      destruct (List.length (split "," entry) =? 2)%nat; [|discriminate].
      apply (IH _ _ _ H'). }
  assert (Hsame : forall s s' entries i0 b,
             fill_table_pairs K s' material_id state p entries i0 b =
             fill_table_pairs K s material_id state p entries i0 b).
  { intros s s'. induction entries as [|entry rest IH]; intros i0 b; simpl.
    - reflexivity.
    - unfold ASSERT. rewrite Hcond.
      destruct (List.length (split "," entry) =? 2)%nat; [|reflexivity].
      apply IH. }
  split.
  - intros blocks' H.
    unfold read_state_property, ASSERT_THROW in H.
    destruct (List.length (split ";" (remove_spaces property))
              <=? table_size K)%nat; [|discriminate].
    destruct (fill_table_pairs K stod material_id state p
                (split ";" (remove_spaces property)) 0 blocks)
      as [b1|what] eqn:E; [|discriminate].
    apply Hfill in E. subst b1. injection H as <-.
    unfold for_range. apply for_loop_identity.
    intros i a. rewrite !Hstore. reflexivity.
  - intro stod'. unfold read_state_property.
    rewrite (Hsame stod stod'). reflexivity.
Qed.

Lemma read_table_mechanical_other_state_witness :
  read_state_property sample_constants stod_decimal true 0 2 8
    "0,abc; 100,20" (zero_blocks sample_constants)
  = Ok (zero_blocks sample_constants).
Proof.
  destruct (read_state_property sample_constants stod_decimal true 0 2 8
              "0,abc; 100,20" (zero_blocks sample_constants))
    as [blocks'|what] eqn:E; [|vm_compute in E; discriminate E].
  f_equal.
  refine (proj1 (read_table_mechanical_other_state sample_constants
                   stod_decimal 0 2 8 "0,abc; 100,20"
                   (zero_blocks sample_constants) _ _) blocks' E).
  - simpl. lia.
  - discriminate.
Defined.

(** ** Evaluation of a table that does not fill the capacity *)

Lemma scan_table_none (bp : nat -> double) (T : double) :
  forall count i,
    (forall j, (i <= j < i + count)%nat -> (T <? bp j) = false) ->
    scan_table bp T count i = (i + count)%nat.
Proof.
  induction count as [|count IH]; intros i H; simpl; [lia|].
  rewrite (H i) by lia. rewrite IH; [lia|].
  intros j Hj. apply H. lia.
Qed.

(** X14.  A table with strictly ascending breakpoints that leaves at
    least one entry of the capacity free (so that the last pair is
    repeated) is evaluated exactly at each of its breakpoints: the
    result is the value paired with the breakpoint, the first and the
    last one included. *)
Theorem evaluate_padded_table_at_breakpoints (tv : TablesView)
    (material_id material_state property : nat) (b v : nat -> Q) (n j : nat) :
  (1 <= n < extent3 tv)%nat ->
  (forall i, (i < n)%nat ->
     tv material_id material_state property i 0%nat = Fin (b i) /\
     tv material_id material_state property i 1%nat = Fin (v i)) ->
  (forall i c, (n <= i < extent3 tv)%nat -> (c <= 1)%nat ->
     tv material_id material_state property i c =
     tv material_id material_state property (n - 1)%nat c) ->
  (forall i, (S i < n)%nat -> b i < b (S i)) ->
  (j < n)%nat ->
  compute_property_from_table tv material_id material_state property
    (Fin (b j)) =~= Fin (v j).
Proof.
  intros Hn Hfin Hpad Hasc Hj.
  set (view := tv material_id material_state property) in *.
  assert (Hmono : forall a c, (a < c)%nat -> (c < n)%nat -> b a < b c).
  { intros a c. revert a. induction c as [|c IH]; intros a Hac Hc; [lia|].
    destruct (Nat.eq_dec a c) as [->|Hne]; [apply Hasc; lia|].
    apply Qlt_trans with (b c); [apply IH; lia | apply Hasc; lia]. }
  destruct (Nat.eq_dec j 0) as [->|Hj0].
  - unfold compute_property_from_table. cbv zeta. fold view.
    rewrite (proj1 (Hfin 0%nat Hj)).
    assert (E : (Fin (b 0%nat) <=? Fin (b 0%nat)) = true)
      by (apply dle_Fin; lra).
    rewrite E, (proj2 (Hfin 0%nat Hj)). apply deq_refl.
  - destruct (Nat.eq_dec (S j) n) as [Hlast | Hmid].
    + unfold compute_property_from_table. cbv zeta. fold view.
      rewrite (proj1 (Hfin 0%nat ltac:(lia))).
      assert (E : (Fin (b j) <=? Fin (b 0%nat)) = false).
      { destruct (Fin (b j) <=? Fin (b 0%nat)) eqn:E'; [|reflexivity].
        apply dle_Fin in E'.
        assert (b 0%nat < b j) by (apply Hmono; lia). lra. }
      rewrite E.
      rewrite scan_table_none.
      * simpl.
        destruct (Nat.leb_spec (extent3 tv - 1) (extent3 tv)); [|lia].
        rewrite (Hpad (extent3 tv - 1)%nat 1%nat) by lia.
        replace (n - 1)%nat with j by lia.
        rewrite (proj2 (Hfin j Hj)). apply deq_refl.
      * intros i Hi.
        destruct (Nat.ltb_spec i n) as [Hin | Hout].
        -- rewrite (proj1 (Hfin i Hin)). apply dlt_Fin_false.
           destruct (Nat.eq_dec i j) as [->|Hne]; [lra|].
           apply Qlt_le_weak. apply Hmono; lia.
        -- rewrite (Hpad i 0%nat) by lia.
           replace (n - 1)%nat with j by lia.
           rewrite (proj1 (Hfin j Hj)). apply dlt_Fin_false. lra.
    + apply (evaluate_at_interior_breakpoint tv material_id material_state
               property b v j).
      * intros i Hi. apply Hfin. lia.
      * intros i Hi. apply Hasc. lia.
      * lia.
      * lia.
Qed.

Lemma evaluate_padded_table_at_breakpoints_witness :
  compute_property_from_table sample_tables 0 0 0 (Fin 200) =~= Fin 20.
Proof.
  pose (b := fun i : nat =>
               match i with 0%nat => 0%Q | 1%nat => 100%Q | _ => 200%Q end).
  pose (v := fun i : nat => match i with 0%nat => 10%Q | _ => 20%Q end).
  refine (evaluate_padded_table_at_breakpoints sample_tables 0 0 0 b v 3 2
            _ _ _ _ _).
  - simpl. lia.
  - intros [|[|[|i]]] Hi; try lia; split; reflexivity.
  - intros [|[|[|[|i]]]] [|[|c]] Hi Hc; simpl in Hi; try lia; reflexivity.
  - intros [|[|i]] Hi; try lia; reflexivity.
  - lia.
Defined.

(** ** The mechanical properties *)

Lemma fill_block_at (n m : nat) (f : nat -> nat -> double) (view : View2)
    (r c : nat) :
  for_range 0 n (fun i view =>
    for_range 0 m (fun j view => set2 view i j (f i j)) view) view r c =
  if (r <? n)%nat && (c <? m)%nat then f r c else view r c.
Proof.
  unfold for_range. rewrite !Nat.sub_0_r.
  assert (Hin : forall i count j0 (w : View2),
             for_loop count j0 (fun j w => set2 w i j (f i j)) w r c =
             if (r =? i)%nat && (j0 <=? c)%nat && (c <? j0 + count)%nat
             then f r c else w r c).
  { intros i. induction count as [|count IH]; intros j0 w; simpl.
    - nat_cases.
    - rewrite IH. unfold set2. nat_cases. }
  assert (Hout : forall count i0 (w : View2),
             for_loop count i0
               (fun i w => for_loop m 0 (fun j w => set2 w i j (f i j)) w) w r c =
             if (i0 <=? r)%nat && (r <? i0 + count)%nat && (c <? m)%nat
             then f r c else w r c).
  { induction count as [|count IH]; intros i0 w; simpl.
    - nat_cases.
    - rewrite IH, Hin. nat_cases. }
  rewrite Hout. nat_cases.
Qed.

(** X15.  [get_mechanical_property] returns, for a mechanical state
    property of a material whose id is below the number of rows, the
    first value of its table (table format) or its constant coefficient
    (polynomial format): the mechanical properties do not depend on the
    temperature.  Asked for a thermal state property, it fails its
    assertion. *)
Theorem get_mechanical_property_first_element (K : Constants)
    (use_table : bool) (n_material_ids g_n_mechanical_state_properties : nat)
    (blocks : HostBlocks) (view : View2) (material_id prop : nat) :
  (material_id < n_material_ids)%nat ->
  (Z.of_nat (g_n_thermal_state_properties K) +
   Z.of_nat g_n_mechanical_state_properties <= 2 ^ 32)%Z ->
  (Z.of_nat prop < 2 ^ 32)%Z ->
  let host :=
    fill_mechanical_properties use_table n_material_ids
      g_n_mechanical_state_properties blocks view in
  ((g_n_thermal_state_properties K <= prop <
    g_n_thermal_state_properties K + g_n_mechanical_state_properties)%nat ->
   get_mechanical_property K g_n_mechanical_state_properties host material_id
     prop =
   Ok (if use_table
       then mechanical_properties_tables_host blocks material_id
              (prop - g_n_thermal_state_properties K)%nat 0%nat 1%nat
       else mechanical_properties_polynomials_host blocks material_id
              (prop - g_n_thermal_state_properties K)%nat 0%nat)) /\
  ((prop < g_n_thermal_state_properties K)%nat ->
   get_mechanical_property K g_n_mechanical_state_properties host material_id
     prop = Throw "Unknown mechanical property requested.").
Proof.
  intros Hm Hsum Hprop host. unfold get_mechanical_property, ASSERT. split.
  - intros Hrange.
    assert (E : Z.to_nat ((Z.of_nat prop -
                           Z.of_nat (g_n_thermal_state_properties K))
                          mod 2 ^ 32) =
                (prop - g_n_thermal_state_properties K)%nat).
    { rewrite Z.mod_small by lia. lia. }
    rewrite E.
    destruct (Nat.ltb_spec (prop - g_n_thermal_state_properties K)
                g_n_mechanical_state_properties) as [Hlt | Hge]; [|lia].
    f_equal. unfold host, fill_mechanical_properties.
    apply Nat.ltb_lt in Hm. apply Nat.ltb_lt in Hlt.
    destruct use_table.
    + rewrite (fill_block_at n_material_ids g_n_mechanical_state_properties
                 (fun i j =>
                    mechanical_properties_tables_host blocks i j 0%nat 1%nat)).
      rewrite Hm, Hlt. reflexivity.
    + rewrite (fill_block_at n_material_ids g_n_mechanical_state_properties
                 (fun i j =>
                    mechanical_properties_polynomials_host blocks i j 0%nat)).
      rewrite Hm, Hlt. reflexivity.
  - intros Hthermal.
    assert (E : ((Z.of_nat prop - Z.of_nat (g_n_thermal_state_properties K))
                 mod 2 ^ 32 =
                 Z.of_nat prop - Z.of_nat (g_n_thermal_state_properties K)
                 + 2 ^ 32)%Z).
    { symmetry. apply Z.mod_unique with (q := (-1)%Z); lia. }
    rewrite E.
    destruct (Nat.ltb_spec
                (Z.to_nat (Z.of_nat prop -
                           Z.of_nat (g_n_thermal_state_properties K) + 2 ^ 32))
                g_n_mechanical_state_properties) as [Hlt | Hge];
      [lia | reflexivity].
Qed.

Lemma get_mechanical_property_first_element_witness :
  exists blocks',
    read_state_property sample_constants stod_decimal true 0 1 8
      "0,10; 100,20" (zero_blocks sample_constants) = Ok blocks' /\
    get_mechanical_property sample_constants 3
      (fill_mechanical_properties true 1 3 blocks' zero2) 0 8 = Ok (Fin 10) /\
    get_mechanical_property sample_constants 3
      (fill_mechanical_properties true 1 3 blocks' zero2) 0 4 =
    Throw "Unknown mechanical property requested.".
Proof.
  destruct (read_state_property sample_constants stod_decimal true 0 1 8
              "0,10; 100,20" (zero_blocks sample_constants))
    as [blocks'|what] eqn:E; [|vm_compute in E; discriminate E].
  exists blocks'. split; [reflexivity|].
  assert (Hb : mechanical_properties_tables_host blocks' 0%nat 1%nat 0%nat 1%nat
               = Fin 10).
  { vm_compute in E. injection E as <-. reflexivity. }
  destruct (get_mechanical_property_first_element sample_constants true 1 3
              blocks' zero2 0 8) as [H1 _]; [lia | simpl; lia | lia |].
  destruct (get_mechanical_property_first_element sample_constants true 1 3
              blocks' zero2 0 4) as [_ H2]; [lia | simpl; lia | lia |].
  split.
  - rewrite H1 by (simpl; lia). simpl. rewrite Hb. reflexivity.
  - apply H2. simpl. lia.
Defined.

(** ** The averaged temperature *)

(** A loop that sums into a scalar and into one element of a vector. *)
Lemma sums_loop (idx : nat) (fv fa : nat -> double -> double)
    (body : nat -> double * (nat -> double) -> double * (nat -> double)) :
  (forall k vol avg,
      fst (body k (vol, avg)) = fv k vol /\
      forall d, snd (body k (vol, avg)) d =
                if (d =? idx)%nat then fa k (avg idx) else avg d) ->
  forall count i vol avg,
    fst (for_loop count i body (vol, avg)) = for_loop count i fv vol /\
    forall d, snd (for_loop count i body (vol, avg)) d =
              if (d =? idx)%nat then for_loop count i fa (avg idx) else avg d.
Proof.
  intros Hb. induction count as [|count IH]; intros i vol avg; simpl.
  - split; [reflexivity|]. intro d. nat_cases.
  - destruct (Hb i vol avg) as [Hv Ha].
    destruct (body i (vol, avg)) as [vol1 avg1]. simpl in Hv, Ha.
    destruct (IH (S i) vol1 avg1) as [H1 H2].
    split.
    + rewrite H1, Hv. reflexivity.
    + intro d. rewrite H2, !Ha, Nat.eqb_refl.
      destruct (d =? idx)%nat; reflexivity.
Qed.

(** What one iteration of the loop over the cells does to the vector of
    averages: it changes the entry of the cell, from the former value
    of that entry alone. *)
Lemma compute_average_step (n_q_points dofs_per_cell : nat)
    (cell : AverageCell) (temperature avg : nat -> double) (d : nat) :
  let idx := mp_dof_index cell in
  let sums (avg : nat -> double) :=
    for_range 0 n_q_points (fun q sums =>
      for_range 0 dofs_per_cell
        (fun i (sums : double * (nat -> double)) =>
           let (volume, temperature_average) := sums in
           (volume + shape_value cell i q * JxW cell q,
            set1 temperature_average idx
              (temperature_average idx +
               shape_value cell i q *
               temperature (enth_dof_indices cell i) * JxW cell q)))
        sums) (Fin 0, avg) in
  set1 (snd (sums avg)) idx (snd (sums avg) idx / fst (sums avg)) d =
  if (d =? idx)%nat
  then snd (sums (fun _ => avg idx)) idx / fst (sums (fun _ => avg idx))
  else avg d.
Proof.
  intros idx sums.
  assert (H : forall avg' : nat -> double,
             fst (sums avg') =
             for_loop (n_q_points - 0) 0
               (fun q vol =>
                  for_loop (dofs_per_cell - 0) 0
                    (fun i vol => vol + shape_value cell i q * JxW cell q)
                    vol) (Fin 0) /\
             forall d,
               snd (sums avg') d =
               if (d =? idx)%nat
               then for_loop (n_q_points - 0) 0
                      (fun q a =>
                         for_loop (dofs_per_cell - 0) 0
                           (fun i a =>
                              a + shape_value cell i q *
                                  temperature (enth_dof_indices cell i) *
                                  JxW cell q) a) (avg' idx)
               else avg' d).
  { intro avg'. unfold sums, for_range.
    apply (sums_loop idx
             (fun q vol =>
                for_loop (dofs_per_cell - 0) 0
                  (fun i vol => vol + shape_value cell i q * JxW cell q) vol)
             (fun q a =>
                for_loop (dofs_per_cell - 0) 0
                  (fun i a =>
                     a + shape_value cell i q *
                         temperature (enth_dof_indices cell i) * JxW cell q)
                  a)).
    intros q vol a.
    apply (sums_loop idx
             (fun i vol => vol + shape_value cell i q * JxW cell q)
             (fun i a =>
                a + shape_value cell i q *
                    temperature (enth_dof_indices cell i) * JxW cell q)).
    intros i vol' a'. simpl. split; [reflexivity|].
    intro d'. unfold set1. reflexivity. }
  destruct (H avg) as [Hv Ha]. destruct (H (fun _ => avg idx)) as [Hv' Ha'].
  unfold set1.
  destruct (Nat.eqb_spec d idx) as [->|Hd].
  - rewrite Hv, Hv', Ha, Ha', Nat.eqb_refl. reflexivity.
  - rewrite Ha. apply Nat.eqb_neq in Hd. rewrite Hd. reflexivity.
Qed.

(** X16.  In [compute_average] the cells do not interfere: when the
    degrees of freedom [mp_dof_index] of the cells are pairwise
    distinct, the entry of a cell after the loop is the one that the
    loop over that cell alone computes from the initial vector; and the
    entry of a cell that is not locally owned, or whose temperature
    element is not the active one, keeps its initial value. *)
Theorem compute_average_cell (n_q_points dofs_per_cell : nat)
    (cells : list AverageCell) (temperature temperature_average : nat -> double)
    (k : nat) (cell : AverageCell) :
  NoDup (map mp_dof_index cells) ->
  nth_error cells k = Some cell ->
  let average :=
    compute_average n_q_points dofs_per_cell cells temperature
      temperature_average (mp_dof_index cell) in
  average =
  compute_average n_q_points dofs_per_cell [cell] temperature
    temperature_average (mp_dof_index cell) /\
  (is_locally_owned cell && (active_fe_index cell =? 0)%nat = false ->
   average = temperature_average (mp_dof_index cell)).
Proof.
  intros Hnd Hk average.
  assert (Hlt : (k < List.length cells)%nat)
    by (apply nth_error_Some; rewrite Hk; discriminate).
  set (d0 := {| is_locally_owned := false; active_fe_index := 0;
                mp_dof_index := 0; enth_dof_indices := fun i => i;
                shape_value := fun _ _ => Fin 0; JxW := fun _ => Fin 0 |}).
  set (cell_step := fun (avg : nat -> double) (cell : AverageCell) =>
    if is_locally_owned cell && (active_fe_index cell =? 0)%nat then
      let mp_dof_index := mp_dof_index cell in
      let volume := Fin 0 in
      let sums :=
        for_range 0 n_q_points (fun q sums =>
          for_range 0 dofs_per_cell
            (fun i (sums : double * (nat -> double)) =>
               let (volume, temperature_average) := sums in
               (volume + shape_value cell i q * JxW cell q,
                set1 temperature_average mp_dof_index
                  (temperature_average mp_dof_index +
                   shape_value cell i q *
                   temperature (enth_dof_indices cell i) * JxW cell q)))
            sums)
          (volume, avg) in
      set1 (snd sums) mp_dof_index (snd sums mp_dof_index / fst sums)
    else avg).
  assert (Hcell : forall c (s : nat -> double) d,
             cell_step s c d =
             if (d =? mp_dof_index c)%nat
             then cell_step (fun _ => s (mp_dof_index c)) c (mp_dof_index c)
             else s d).
  { intros c s d. unfold cell_step.
    destruct (is_locally_owned c && (active_fe_index c =? 0)%nat).
    - cbv zeta.
      rewrite (compute_average_step n_q_points dofs_per_cell c temperature s d).
      rewrite (compute_average_step n_q_points dofs_per_cell c temperature
                 (fun _ => s (mp_dof_index c)) (mp_dof_index c)).
      rewrite Nat.eqb_refl. reflexivity.
    - nat_cases. }
  set (key := fun i => mp_dof_index (nth i cells d0)).
  set (G := fun (i : nat) (f : unit -> double) (_ : unit) =>
              cell_step (fun _ => f tt) (nth i cells d0) (key i)).
  assert (Hstep : forall i (s : nat -> double) (r : unit) d,
             cell_step s (nth i cells d0) d =
             if (d =? key i)%nat then G i (fun _ => s (key i)) r else s d).
  { intros i s r d. unfold G, key. apply Hcell. }
  assert (HG : forall i (f g : unit -> double) r,
             (forall r', f r' = g r') -> G i f r = G i g r).
  { intros i f g r H. unfold G. rewrite (H tt). reflexivity. }
  assert (Hd : forall a b, (0 <= a < b)%nat ->
                 (b < 0 + List.length cells)%nat -> key a <> key b).
  { intros a b Ha Hb. unfold key.
    rewrite <- !(nth_map_default mp_dof_index cells _ d0) by lia.
    apply NoDup_nth_distinct; [exact Hnd|lia|]. rewrite length_map. lia. }
  pose proof (column_loop_at (nat -> double) unit double
                (fun s (_ : unit) d => s d)
                (fun i s => cell_step s (nth i cells d0)) key G Hstep HG
                (List.length cells) 0%nat temperature_average Hd k
                (conj (Nat.le_0_l k) Hlt) tt) as H.
  cbv beta in H.
  assert (Ecell : nth k cells d0 = cell) by (apply nth_error_nth; exact Hk).
  assert (Ekey : key k = mp_dof_index cell)
    by (unfold key; rewrite Ecell; reflexivity).
  assert (Havg : average =
                 cell_step (fun _ => temperature_average (mp_dof_index cell))
                   cell (mp_dof_index cell)).
  { unfold average, compute_average.
    rewrite (fold_left_as_for_loop _ d0).
    rewrite <- Ekey. fold cell_step.
    etransitivity; [exact H|]. unfold G. rewrite Ecell. reflexivity. }
  split.
  - rewrite Havg.
    change (compute_average n_q_points dofs_per_cell [cell] temperature
              temperature_average (mp_dof_index cell))
      with (cell_step temperature_average cell (mp_dof_index cell)).
    rewrite (Hcell cell temperature_average (mp_dof_index cell)).
    rewrite Nat.eqb_refl. reflexivity.
  - intro Hoff. rewrite Havg. unfold cell_step. rewrite Hoff. reflexivity.
Qed.

Lemma compute_average_cell_witness :
  let cell :=
    {| is_locally_owned := true; active_fe_index := 0; mp_dof_index := 4;
       enth_dof_indices := fun i => i;
       shape_value := fun i q => Fin (1 # 2); JxW := fun q => Fin 3 |} in
  let other :=
    {| is_locally_owned := true; active_fe_index := 0; mp_dof_index := 7;
       enth_dof_indices := fun i => i;
       shape_value := fun i q => Fin (1 # 4); JxW := fun q => Fin 5 |} in
  compute_average 2 2 [other; cell] (fun _ => Fin 300) (fun _ => Fin 0) 4%nat
  = compute_average 2 2 [cell] (fun _ => Fin 300) (fun _ => Fin 0) 4%nat.
Proof.
  cbv zeta.
  refine (proj1 (compute_average_cell 2 2
                   [ {| is_locally_owned := true; active_fe_index := 0;
                        mp_dof_index := 7; enth_dof_indices := fun i => i;
                        shape_value := fun i q => Fin (1 # 4);
                        JxW := fun q => Fin 5 |};
                     {| is_locally_owned := true; active_fe_index := 0;
                        mp_dof_index := 4; enth_dof_indices := fun i => i;
                        shape_value := fun i q => Fin (1 # 2);
                        JxW := fun q => Fin 3 |} ]
                   (fun _ => Fin 300) (fun _ => Fin 0) 1
                   {| is_locally_owned := true; active_fe_index := 0;
                      mp_dof_index := 4; enth_dof_indices := fun i => i;
                      shape_value := fun i q => Fin (1 # 2);
                      JxW := fun q => Fin 3 |} _ eq_refl)).
  constructor; [simpl; intros [H | []]; discriminate|].
  constructor; [intros []|]. constructor.
Defined.

(** ** The state set from the quadrature points *)

Lemma for_loop_invariant {A : Type} (P : nat -> A -> Prop)
    (body : nat -> A -> A) :
  forall count i a,
    P i a ->
    (forall k a, (i <= k < i + count)%nat -> P k a -> P (S k) (body k a)) ->
    P (i + count)%nat (for_loop count i body a).
Proof.
  induction count as [|count IH]; intros i a Ha Hstep; simpl.
  - rewrite Nat.add_0_r. exact Ha.
  - replace (i + S count)%nat with (S i + count)%nat by lia.
    apply IH.
    + apply Hstep; [lia | exact Ha].
    + intros k a' Hk. apply Hstep. lia.
Qed.

Lemma add64_Fin (a b : Q) : add64 (Fin a) (Fin b) = round64 (a + b).
Proof. reflexivity. Qed.

Lemma sum64_bounded (x : nat -> double) (n : nat) :
  (Z.of_nat n < 2 ^ 53)%Z ->
  (forall q, (q < n)%nat -> exists v : Q, x q = Fin v /\ (0 <= v <= 1)%Q) ->
  exists L : Q,
    for_range 0 n (fun q sum => add64 sum (x q)) (Fin 0) = Fin L /\
    (0 <= L <= inject_Z (Z.of_nat n))%Q.
Proof.
  intros Hn H. unfold for_range. rewrite Nat.sub_0_r.
  apply (for_loop_invariant
           (fun q (sum : double) =>
              (q <= n)%nat ->
              exists L : Q,
                sum = Fin L /\ (0 <= L <= inject_Z (Z.of_nat q))%Q)
           _ n 0%nat); [| |lia].
  - intros _. exists 0%Q. split; [reflexivity|].
    change (inject_Z (Z.of_nat 0)) with 0%Q. lra.
  - intros q sum Hq IH Hle.
    destruct IH as (L & -> & HL0 & HL1); [lia|].
    destruct (H q) as (v & -> & Hv0 & Hv1); [lia|].
    rewrite add64_Fin.
    destruct (round64_int (Z.of_nat (S q))) as (r & Er & Hr); [lia|].
    destruct (round64_mono (L + v) (inject_Z (Z.of_nat (S q))) r)
      as (rx & Erx & Hrx0 & Hrx1); [|exact Er|].
    { replace (Z.of_nat (S q)) with (Z.of_nat q + 1)%Z by lia.
      rewrite inject_Z_plus. change (inject_Z 1) with 1%Q. lra. }
    exists rx. split; [exact Erx | lra].
Qed.

Lemma pair_loop {A B : Type} (f : nat -> A -> A) (g : nat -> B -> B) :
  forall count i a b,
    for_loop count i (fun q (sums : A * B) =>
                        let (x, y) := sums in (f q x, g q y)) (a, b) =
    (for_loop count i f a, for_loop count i g b).
Proof.
  induction count as [|count IH]; intros i a b; simpl; [reflexivity|].
  apply IH.
Qed.

Lemma solid64_unit (l p : Q) :
  (0 <= l <= 1)%Q -> (0 <= p <= 1)%Q ->
  exists s : Q,
    std_max (sub64 (sub64 (Fin 1) (Fin l)) (Fin p)) (Fin 0) = Fin s /\
    (0 <= s <= 1)%Q.
Proof.
  intros Hl Hp. rewrite sub64_Fin.
  destruct (round64_unit (1 + - l)%Q) as (a & Ea & Ha & _); [lra|].
  rewrite Ea, sub64_Fin. unfold std_max.
  destruct (Qlt_le_dec (a + - p) 0) as [Hneg | Hpos].
  - destruct (round64_neg_unit (a + - p)%Q) as (r & Er & Hr); [lra | lra|].
    rewrite Er.
    destruct (dlt (Fin r) (Fin 0)) eqn:E.
    + exists 0%Q. split; [reflexivity | lra].
    + apply dlt_Fin_false in E. exists r. split; [reflexivity | lra].
  - destruct (round64_unit (a + - p)%Q) as (r & Er & Hr & _); [lra|].
    rewrite Er.
    assert (E : dlt (Fin r) (Fin 0) = false) by (apply dlt_Fin_false; lra).
    rewrite E. exists r. split; [reflexivity | exact Hr].
Qed.

Lemma mean64_unit (L : Q) (n : nat) :
  (0 < n)%nat -> (0 <= L <= inject_Z (Z.of_nat n))%Q ->
  exists l : Q,
    div64 (Fin L) (double_of_unsigned n) = Fin l /\ (0 <= l <= 1)%Q.
Proof.
  intros Hn HL. unfold double_of_unsigned.
  assert (Hpos : (0 < inject_Z (Z.of_nat n))%Q).
  { change 0%Q with (inject_Z 0). rewrite <- Zlt_Qlt. lia. }
  rewrite div64_Fin by lra.
  destruct (round64_unit (L / inject_Z (Z.of_nat n))) as (l & El & Hl & _).
  { split.
    - apply Qle_shift_div_l; [exact Hpos | lra].
    - apply Qle_shift_div_r; [exact Hpos | lra]. }
  exists l. split; [exact El | exact Hl].
Qed.

(** X17.  [set_state], computed in binary64, stores numbers of [0, 1]:
    when the liquid and powder ratios at the quadrature points of a
    cell are numbers of [0, 1], the liquid and powder ratios stored for
    the cell (the means over the quadrature points) and the solid ratio
    are numbers of [0, 1].  The offsets [get_dof_index] of the cells
    are pairwise distinct and [tensor_degree + 1] fits an
    [unsigned int]. *)
Theorem set_state_fractions (K : Constants) (mp : MaterialProperty)
    (liquid_ratio powder_ratio : nat -> nat -> nat -> double)
    (cell_it_to_mf_cell_map : Cell -> nat * nat)
    (get_dof_index : Cell -> nat) (tensor_degree : nat)
    (cells : list Cell) (k : nat) (cell : Cell) :
  enums_ok K = true ->
  NoDup (map get_dof_index cells) ->
  nth_error cells k = Some cell ->
  (Z.of_nat tensor_degree + 1 < 2 ^ 32)%Z ->
  (forall q, (q <= tensor_degree)%nat ->
     exists l p : Q,
       liquid_ratio (fst (cell_it_to_mf_cell_map cell)) q
         (snd (cell_it_to_mf_cell_map cell)) = Fin l /\
       powder_ratio (fst (cell_it_to_mf_cell_map cell)) q
         (snd (cell_it_to_mf_cell_map cell)) = Fin p /\
       (0 <= l <= 1 /\ 0 <= p <= 1)%Q) ->
  let state :=
    _state (set_state K mp liquid_ratio powder_ratio cell_it_to_mf_cell_map
              get_dof_index tensor_degree cells) in
  exists l p s : Q,
    state (liquid K) (get_dof_index cell) = Fin l /\
    state (powder K) (get_dof_index cell) = Fin p /\
    state (solid K) (get_dof_index cell) = Fin s /\
    (0 <= l <= 1 /\ 0 <= p <= 1 /\ 0 <= s <= 1)%Q.
Proof.
  intros HK Hnd Hk Hdeg Hq state.
  assert (Hlt : (k < List.length cells)%nat)
    by (apply nth_error_Some; rewrite Hk; discriminate).
  destruct (enums_ok_elim K HK) as ((Hlp & Hls & Hps) & _).
  set (d0 := {| cell_material_id := 0; cell_mp_dof := 0 |}).
  set (cell_step := fun (state_view : View2) (cell : Cell) =>
      let mp_dof_index := get_dof_index cell in
      let mf_cell_vector := cell_it_to_mf_cell_map cell in
      let n_q_points := (tensor_degree + 1)%nat in
      let sums :=
        for_range 0 n_q_points (fun q (sums : double * double) =>
          let (liquid_ratio_sum, powder_ratio_sum) := sums in
          (add64 liquid_ratio_sum
             (liquid_ratio (fst mf_cell_vector) q (snd mf_cell_vector)),
           add64 powder_ratio_sum
             (powder_ratio (fst mf_cell_vector) q (snd mf_cell_vector))))
          (Fin 0, Fin 0) in
      let state_view :=
        set2 state_view (liquid K) mp_dof_index
          (div64 (fst sums) (double_of_unsigned n_q_points)) in
      let state_view :=
        set2 state_view (powder K) mp_dof_index
          (div64 (snd sums) (double_of_unsigned n_q_points)) in
      set2 state_view (solid K) mp_dof_index
        (std_max (sub64 (sub64 (Fin 1) (state_view (liquid K) mp_dof_index))
                    (state_view (powder K) mp_dof_index)) (Fin 0))).
  set (key := fun i => get_dof_index (nth i cells d0)).
  set (G := fun (i : nat) (f : nat -> double) (r : nat) =>
              cell_step (fun r' _ => f r') (nth i cells d0) r (key i)).
  assert (Hstep : forall i (s : View2) r d,
             cell_step s (nth i cells d0) r d =
             if (d =? key i)%nat then G i (fun r' => s r' (key i)) r
             else s r d).
  { intros i s r d. unfold G, cell_step, key, set2. cbv zeta.
    destruct (Nat.eqb_spec d (get_dof_index (nth i cells d0))) as [->|Hd].
    - rewrite !Nat.eqb_refl. reflexivity.
    - rewrite !andb_false_r. reflexivity. }
  assert (HG : forall i (f g : nat -> double) r,
             (forall r', f r' = g r') -> G i f r = G i g r).
  { intros i f g r H. unfold G, cell_step, set2. cbv zeta.
    rewrite !H. reflexivity. }
  assert (Hd : forall a b, (0 <= a < b)%nat ->
                 (b < 0 + List.length cells)%nat -> key a <> key b).
  { intros a b Ha Hb. unfold key.
    rewrite <- !(nth_map_default get_dof_index cells _ d0) by lia.
    apply NoDup_nth_distinct; [exact Hnd|lia|]. rewrite length_map. lia. }
  pose proof (column_loop_at View2 nat double
                (fun (s : View2) r d => s r d)
                (fun i s => cell_step s (nth i cells d0)) key G Hstep HG
                (List.length cells) 0%nat (_state mp) Hd k
                (conj (Nat.le_0_l k) Hlt)) as H.
  cbv beta in H.
  assert (Ecell : nth k cells d0 = cell) by (apply nth_error_nth; exact Hk).
  assert (Ekey : key k = get_dof_index cell)
    by (unfold key; rewrite Ecell; reflexivity).
  assert (Hstate : forall r,
             state r (get_dof_index cell) =
             cell_step (fun r' _ => _state mp r' (get_dof_index cell)) cell r
               (get_dof_index cell)).
  { intro r. unfold state, set_state. cbv zeta. simpl _state.
    rewrite (fold_left_as_for_loop _ d0).
    fold cell_step. rewrite <- Ekey.
    etransitivity; [apply H|]. unfold G. rewrite Ecell. reflexivity. }
  set (lq := fun q => liquid_ratio (fst (cell_it_to_mf_cell_map cell)) q
                        (snd (cell_it_to_mf_cell_map cell))).
  set (pq := fun q => powder_ratio (fst (cell_it_to_mf_cell_map cell)) q
                        (snd (cell_it_to_mf_cell_map cell))).
  assert (Hn53 : (Z.of_nat (tensor_degree + 1) < 2 ^ 53)%Z).
  { assert (2 ^ 32 < 2 ^ 53)%Z by reflexivity. lia. }
  destruct (sum64_bounded lq (tensor_degree + 1) Hn53) as (L & EL & HL).
  { intros q Hq'. destruct (Hq q) as (l & p & El & _ & Hl & _); [lia|].
    exists l. split; [exact El | exact Hl]. }
  destruct (sum64_bounded pq (tensor_degree + 1) Hn53) as (P & EP & HP).
  { intros q Hq'. destruct (Hq q) as (l & p & _ & Ep & _ & Hp); [lia|].
    exists p. split; [exact Ep | exact Hp]. }
  destruct (mean64_unit L (tensor_degree + 1)) as (l & El & Hl);
    [lia | exact HL|].
  destruct (mean64_unit P (tensor_degree + 1)) as (p & Ep & Hp);
    [lia | exact HP|].
  destruct (solid64_unit l p Hl Hp) as (s & Es & Hs).
  assert (Esums :
    for_range 0 (tensor_degree + 1) (fun q (sums : double * double) =>
      let (liquid_ratio_sum, powder_ratio_sum) := sums in
      (add64 liquid_ratio_sum (lq q), add64 powder_ratio_sum (pq q)))
      (Fin 0, Fin 0) = (Fin L, Fin P)).
  { unfold for_range in *.
    rewrite (pair_loop (fun q sum => add64 sum (lq q))
               (fun q sum => add64 sum (pq q))).
    rewrite EL, EP. reflexivity. }
  apply Nat.eqb_neq in Hlp, Hls, Hps.
  exists l, p, s. rewrite !Hstate.
  unfold cell_step, set2. cbv zeta. cbv beta.
  unfold lq, pq in Esums. cbv beta in Esums. rewrite Esums.
  rewrite !Nat.eqb_refl, !andb_true_r, Hlp, Hls, Hps.
  simpl andb. cbv iota. simpl fst. simpl snd.
  rewrite El, Ep, Es.
  split; [reflexivity|]. split; [reflexivity|]. split; [reflexivity|].
  split; [exact Hl|]. split; [exact Hp | exact Hs].
Qed.

Lemma set_state_fractions_witness :
  let state :=
    _state (set_state sample_constants
              (sample_material_property sample_properties (fun _ => 0%nat))
              (fun _ q _ => if (q =? 0)%nat then Fin 1 else Fin (1 # 10))
              (fun _ q _ => if (q =? 0)%nat then Fin 0 else Fin (1 # 2))
              (fun _ => (0, 0)%nat) cell_mp_dof 2 sample_cells) in
  exists l p s : Q,
    state (liquid sample_constants) 0%nat = Fin l /\
    state (powder sample_constants) 0%nat = Fin p /\
    state (solid sample_constants) 0%nat = Fin s /\
    (0 <= l <= 1 /\ 0 <= p <= 1 /\ 0 <= s <= 1)%Q.
Proof.
  refine (set_state_fractions sample_constants
            (sample_material_property sample_properties (fun _ => 0%nat))
            (fun _ q _ => if (q =? 0)%nat then Fin 1 else Fin (1 # 10))
            (fun _ q _ => if (q =? 0)%nat then Fin 0 else Fin (1 # 2))
            (fun _ => (0, 0)%nat) cell_mp_dof 2 sample_cells 0
            {| cell_material_id := 0; cell_mp_dof := 0 |} eq_refl _ eq_refl
            _ _).
  - constructor; [simpl; intros [H | []]; discriminate|].
    constructor; [intros []|]. constructor.
  - reflexivity.
  - intros q _. destruct q as [|q]; simpl.
    + exists 1%Q, 0%Q. split; [reflexivity|]. split; [reflexivity|].
      split; split; discriminate.
    + exists (1 # 10)%Q, (1 # 2)%Q. split; [reflexivity|].
      split; [reflexivity|]. split; split; discriminate.
Defined.

(** ** The search of the material ids *)

Lemma find_material_ids_from (present : nat -> bool) (n_materials : nat) :
  forall count id material_ids,
    (List.length material_ids < n_materials)%nat ->
    find_material_ids present n_materials count id material_ids =
    material_ids ++
    firstn (n_materials - List.length material_ids)
      (filter present (seq id count)).
Proof.
  induction count as [|count IH]; intros id ids Hlen; simpl.
  - rewrite firstn_nil, app_nil_r. reflexivity.
  - destruct (present id) eqn:E.
    + rewrite length_app. simpl List.length.
      destruct (Nat.eqb_spec (List.length ids + 1) n_materials) as [Heq|Hne].
      * replace (n_materials - List.length ids)%nat with 1%nat by lia.
        reflexivity.
      * rewrite IH by (rewrite length_app; simpl; lia).
        rewrite length_app. simpl List.length.
        replace (n_materials - List.length ids)%nat
          with (S (n_materials - (List.length ids + 1)))%nat by lia.
        simpl. rewrite <- app_assoc. reflexivity.
    + destruct (Nat.eqb_spec (List.length ids) n_materials) as [Heq|Hne];
        [lia|].
      apply IH. exact Hlen.
Qed.

(** X18.  For a positive [n_materials], the search of the material ids
    in [fill_properties] returns the [n_materials] smallest ids below
    the bound that the database holds, in ascending order; when the
    database holds fewer, it returns all of them and raises no error. *)
Theorem find_material_ids_smallest (present : nat -> bool)
    (n_materials invalid_material_id : nat) :
  (1 <= n_materials)%nat ->
  find_material_ids present n_materials invalid_material_id 0 [] =
  firstn n_materials (filter present (seq 0 invalid_material_id)).
Proof.
  intro Hn.
  rewrite find_material_ids_from by (simpl; lia).
  simpl. rewrite Nat.sub_0_r. reflexivity.
Qed.

Lemma find_material_ids_smallest_witness :
  find_material_ids (fun id => (id =? 1)%nat || (id =? 3)%nat || (id =? 4)%nat)
    2 10 0 [] = [1; 3]%nat.
Proof.
  rewrite (find_material_ids_smallest
             (fun id => (id =? 1)%nat || (id =? 3)%nat || (id =? 4)%nat)
             2 10); [reflexivity | lia].
Defined.

(** ** The mechanical activation after an update *)

(** X19.  After [update], a cell whose averaged temperature is at or
    above its liquidus is disabled by both activation loops of
    [MechanicalPhysics], whatever its thermal cell; a cell below its
    solidus that held no powder is enabled by the constructor, and
    [setup_dofs] gives it the active FE index of its thermal cell.  In
    both cases the ratios are 0 or 1.  The material has a finite
    solidus strictly below its liquidus, the averaged temperature is
    finite, the previous powder ratio lies in [0, 1], and
    [get_dof_index] gives the offset that [update] uses. *)
Theorem activation_after_update (K : Constants) (mp : MaterialProperty)
    (cells : list Cell) (temperature_average : View1 double)
    (get_dof_index thermal_index : Cell -> nat) (k : nat) (cell : Cell)
    (T Ts Tl p : Q) :
  enums_ok K = true ->
  NoDup (mp_dofs_of mp cells) ->
  nth_error cells k = Some cell ->
  (forall c, get_dof_index c = _dofs_map mp (cell_mp_dof c)) ->
  _properties mp (cell_material_id cell) (prop_solidus K) = Fin Ts ->
  _properties mp (cell_material_id cell) (prop_liquidus K) = Fin Tl ->
  temperature_average (_dofs_map mp (cell_mp_dof cell)) = Fin T ->
  _state mp (powder K) (_dofs_map mp (cell_mp_dof cell)) = Fin p ->
  Ts < Tl -> 0 <= p <= 1 ->
  let mechanical_cells :=
    mechanical_cells_of K (update K mp cells temperature_average)
      get_dof_index thermal_index cells in
  (Tl <= T ->
   forall pass,
     nth_error (active_fe_indices pass mechanical_cells) k = Some 1%nat) /\
  (T < Ts -> p == 0 ->
   nth_error (active_fe_indices Construction mechanical_cells) k
   = Some 0%nat /\
   nth_error (active_fe_indices SetupDofs mechanical_cells) k
   = Some (thermal_index cell)).
Proof.
  intros HK Hnd Hk Hget HTs HTl HT Hp Hlt [Hp0 Hp1] mechanical_cells.
  destruct (update_at_cell K mp cells temperature_average k cell Hnd Hk
              (solid K)) as [Hs _].
  rewrite HTs, HTl, HT, unit_fractions_solid in Hs. cbv zeta in Hs.
  rewrite Hp in Hs.
  destruct (liquid_ratio_of_finite T Ts Tl Hlt) as (l & El & Hl).
  rewrite El in Hs.
  destruct (liquid_ratio_spec_bounds T Ts Tl Hlt) as [Hl0 Hl1].
  rewrite <- Hl in Hl0, Hl1.
  assert (Hsolid :
    exists s : Q,
      _state (update K mp cells temperature_average) (solid K)
        (_dofs_map mp (cell_mp_dof cell)) = Fin s /\
      ((99 # 100) < s <-> l + p < (1 # 100))).
  { rewrite Hs. unfold dsub, dopp. rewrite !dadd_Fin. unfold std_min.
    destruct (dlt (Fin p) (Fin (1 + - l)%Q)) eqn:E.
    - apply dlt_Fin in E. rewrite !dadd_Fin. unfold std_max.
      assert (E0 : dlt (Fin (1 + - l + - p)%Q) (Fin 0) = false)
        by (apply dlt_Fin_false; lra).
      rewrite E0. eexists. split; [reflexivity|]. split; intro; lra.
    - apply dlt_Fin_false in E. rewrite !dadd_Fin. unfold std_max.
      assert (E0 : dlt (Fin (1 + - l + - (1 + - l))%Q) (Fin 0) = false)
        by (apply dlt_Fin_false; lra).
      rewrite E0. eexists. split; [reflexivity|]. split; intro; lra. }
  destruct Hsolid as (s & Es & Hiff).
  assert (Hcell : nth_error mechanical_cells k =
                  Some {| solid_state_ratio := Fin s;
                          thermal_active_fe_index := thermal_index cell |}).
  { unfold mechanical_cells, mechanical_cells_of.
    rewrite nth_error_map, Hk. unfold option_map, get_state_ratio. cbv zeta.
    rewrite Hget, Es. reflexivity. }
  split.
  - intros HTle pass.
    assert (Hl1' : l == 1).
    { rewrite Hl. unfold liquid_ratio_spec.
      destruct (Qle_bool T Ts) eqn:E1.
      - apply Qle_bool_iff in E1. lra.
      - destruct (Qle_bool Tl T) eqn:E2; [reflexivity|].
        assert (E3 : Qle_bool Tl T = true) by (apply Qle_bool_iff; exact HTle).
        congruence. }
    assert (Hoff : dgt (Fin s) (Fin (99 # 100)) = false).
    { unfold dgt. apply dlt_Fin_false.
      destruct (Qlt_le_dec (99 # 100) s) as [C|C]; [|exact C].
      apply Hiff in C. lra. }
    destruct pass; simpl;
      unfold constructor_active_fe_indices, setup_dofs_active_fe_indices;
      rewrite nth_error_map, Hcell; cbn [option_map solid_state_ratio];
      rewrite Hoff; reflexivity.
  - intros HTlt Hpz.
    assert (Hl0' : l == 0).
    { rewrite Hl. unfold liquid_ratio_spec.
      assert (E1 : Qle_bool T Ts = true) by (apply Qle_bool_iff; lra).
      rewrite E1. reflexivity. }
    assert (Hon : dgt (Fin s) (Fin (99 # 100)) = true).
    { unfold dgt. apply dlt_Fin. apply Hiff. rewrite Hl0', Hpz. reflexivity. }
    split; simpl;
      unfold constructor_active_fe_indices, setup_dofs_active_fe_indices;
      rewrite nth_error_map, Hcell;
      cbn [option_map solid_state_ratio thermal_active_fe_index];
      rewrite Hon; reflexivity.
Qed.

Lemma activation_after_update_witness :
  let mechanical_cells :=
    mechanical_cells_of sample_constants
      (update sample_constants
         (sample_material_property sample_properties (fun _ => 1%nat))
         sample_cells (fun _ => Fin 2000))
      (fun c => cell_mp_dof c) (fun _ => 0%nat) sample_cells in
  nth_error (active_fe_indices Construction mechanical_cells) 0 = Some 1%nat /\
  nth_error (active_fe_indices SetupDofs mechanical_cells) 0 = Some 1%nat.
Proof.
  cbv zeta.
  refine ((fun H => conj (H Construction) (H SetupDofs))
            (proj1 (activation_after_update sample_constants
                      (sample_material_property sample_properties
                         (fun _ => 1%nat))
                      sample_cells (fun _ => Fin 2000)
                      (fun c => cell_mp_dof c) (fun _ => 0%nat) 0
                      {| cell_material_id := 0; cell_mp_dof := 0 |}
                      2000 _ _ 0 eq_refl (sample_cells_NoDup _ _) eq_refl
                      (fun _ => eq_refl) eq_refl eq_refl eq_refl eq_refl
                      _ _) _)).
  - reflexivity.
  - split; discriminate.
  - discriminate.
Defined.

(** ** A unit in a single state *)

(** X20.  In the table format, with three material states, for a unit
    that is entirely in one state (ratio 1 for that state, 0 for the
    two others), [compute_material_property] returns the table value of
    that state, provided the table values of the two other states are
    numbers (a ratio 0 times an infinity or a NaN is a NaN). *)
Theorem compute_material_property_pure_state (K : Constants)
    (mp : MaterialProperty) (property_index material_id : nat)
    (state_ratios : nat -> double) (temperature : double)
    (value : nat -> Q) (state : nat) :
  g_n_material_states K = 3%nat ->
  _use_table mp = true ->
  (state < 3)%nat ->
  state_ratios state = Fin 1 ->
  (forall other, (other < 3)%nat -> other <> state ->
                 state_ratios other = Fin 0) ->
  (forall s, (s < 3)%nat ->
     compute_property_from_table (_state_property_tables mp) material_id
       s property_index temperature = Fin (value s)) ->
  compute_material_property K mp property_index material_id state_ratios
    temperature =~= Fin (value state).
Proof.
  intros H3 Huse Hs H1 H0 Hv.
  unfold compute_material_property. rewrite Huse, H3.
  unfold for_range. simpl for_loop. cbv zeta.
  rewrite (Hv 0%nat), (Hv 1%nat), (Hv 2%nat) by lia.
  destruct state as [|[|[|state]]]; [| | |lia].
  - rewrite H1, (H0 1%nat), (H0 2%nat) by lia.
    rewrite !dmul_Fin, !dadd_Fin. simpl. ring.
  - rewrite H1, (H0 0%nat), (H0 2%nat) by lia.
    rewrite !dmul_Fin, !dadd_Fin. simpl. ring.
  - rewrite H1, (H0 0%nat), (H0 1%nat) by lia.
    rewrite !dmul_Fin, !dadd_Fin. simpl. ring.
Qed.

Lemma compute_material_property_pure_state_witness :
  compute_material_property sample_constants
    (sample_material_property sample_properties (fun _ => 1%nat)) 1 0
    (fun state => if (state =? 1)%nat then Fin 1 else Fin 0) (Fin 250)
  =~= Fin 20.
Proof.
  apply (compute_material_property_pure_state sample_constants
           (sample_material_property sample_properties (fun _ => 1%nat)) 1 0
           (fun state => if (state =? 1)%nat then Fin 1 else Fin 0) (Fin 250)
           (fun _ => 20%Q) 1).
  - reflexivity.
  - reflexivity.
  - lia.
  - reflexivity.
  - intros [|[|other]] Ho Hne; try reflexivity. contradiction Hne. reflexivity.
  - intros s _. vm_compute. reflexivity.
Defined.
